(** * envdiff: snapshot store, structural diff and capture orchestration

    A shallow embedding of the [envdiff] build (storage.py, diff.py,
    snapshot.py, cli.py) together with models of the two libraries the
    code delegates to: Python's [json] module and the [deepdiff] package,
    and of the SQLite table the store keeps its rows in.

    Part I holds the definitions, Part II the lemmas and theorems. *)

From Stdlib Require Import List String Ascii ZArith QArith Bool Arith Lia.
From Stdlib Require Import Sorted Permutation OrderedTypeEx.
From Stdlib Require Import DecimalString DecimalZ DecimalPos DecimalNat DecimalFacts.
Import ListNotations.

#[local] Close Scope Q_scope.
#[local] Open Scope string_scope.
#[local] Open Scope list_scope.

(* ===================================================================== *)
(** * Part I: definitions                                                 *)
(* ===================================================================== *)

(** ** Python data *)

Module PyData.

(** The values a snapshot is made of: what the collectors return and what
    [json.loads] yields.  A character of a [string] stands for one code
    point in the range U+0000..U+00FF.  A finite [float] is modelled by
    the rational it denotes ([PFloat]); [PInfinity] is [float('inf')]
    or, negative, [float('-inf')].  The float [nan], which is not equal
    to itself, is left out. *)
#[local] Unset Elimination Schemes.
Inductive pyvalue : Type :=
| PNone
| PBool (b : bool)
| PInt (n : Z)
| PFloat (x : Q)
| PInfinity (negative : bool)
| PStr (s : string)
| PList (items : list pyvalue)
| PDict (entries : list (string * pyvalue)).
#[local] Set Elimination Schemes.

(** A Python [dict] with string keys: the entries in insertion order.
    A well-formed dict has no key twice ([dict_wf]). *)
Definition dict (V : Type) : Type := list (string * V).

Fixpoint dict_get {V : Type} (k : string) (d : dict V) : option V :=
  match d with
  | [] => None
  | (k', v) :: d' => if String.eqb k k' then Some v else dict_get k d'
  end.

Definition dict_mem {V : Type} (k : string) (d : dict V) : bool :=
  existsb (fun e => String.eqb k (fst e)) d.

(** [d[k] = v]: an existing key keeps its position, a new key goes last. *)
Fixpoint dict_set {V : Type} (k : string) (v : V) (d : dict V) : dict V :=
  match d with
  | [] => [(k, v)]
  | (k', v') :: d' =>
      if String.eqb k k' then (k', v) :: d' else (k', v') :: dict_set k v d'
  end.

Definition dict_keys {V : Type} (d : dict V) : list string := map fst d.

Definition dict_values {V : Type} (d : dict V) : list V := map snd d.

(** [d.get(k, default)] *)
Definition dict_get_default {V : Type} (k : string) (default : V) (d : dict V) : V :=
  match dict_get k d with
  | Some v => v
  | None => default
  end.

(** [dict(pairs)]: later pairs overwrite earlier ones. *)
Definition dict_of_pairs {V : Type} (pairs : list (string * V)) : dict V :=
  fold_left (fun d kv => dict_set (fst kv) (snd kv) d) pairs [].

Fixpoint dict_wf {V : Type} (d : dict V) : bool :=
  match d with
  | [] => true
  | (k, _) :: d' => negb (dict_mem k d') && dict_wf d'
  end.

(** Every mapping inside a value has distinct keys. *)
Fixpoint value_wf (v : pyvalue) : bool :=
  match v with
  | PList items => forallb value_wf items
  | PDict entries =>
      dict_wf entries && forallb (fun e => value_wf (snd e)) entries
  | _ => true
  end.

(** [type(v)] *)
Inductive pytype : Type :=
| NoneType | bool_t | int_t | float_t | str_t | list_t | dict_t.

Definition get_type (v : pyvalue) : pytype :=
  match v with
  | PNone => NoneType
  | PBool _ => bool_t
  | PInt _ => int_t
  | PFloat _ | PInfinity _ => float_t
  | PStr _ => str_t
  | PList _ => list_t
  | PDict _ => dict_t
  end.

Definition pytype_eqb (a b : pytype) : bool :=
  match a, b with
  | NoneType, NoneType | bool_t, bool_t | int_t, int_t | float_t, float_t
  | str_t, str_t | list_t, list_t | dict_t, dict_t => true
  | _, _ => false
  end.

(** [str(type(v))] *)
Definition type_str (t : pytype) : string :=
  match t with
  | NoneType => "<class 'NoneType'>"
  | bool_t => "<class 'bool'>"
  | int_t => "<class 'int'>"
  | float_t => "<class 'float'>"
  | str_t => "<class 'str'>"
  | list_t => "<class 'list'>"
  | dict_t => "<class 'dict'>"
  end.

(** Truth value of an object, as [if x:] and [not x] test it. *)
Definition truthy (v : pyvalue) : bool :=
  match v with
  | PNone => false
  | PBool b => b
  | PInt n => negb (Z.eqb n 0)
  | PFloat x => negb (Qeq_bool x 0)
  | PInfinity _ => true
  | PStr s => negb (String.eqb s EmptyString)
  | PList items => match items with [] => false | _ => true end
  | PDict entries => match entries with [] => false | _ => true end
  end.

(** The number a finite numeric scalar denotes. *)
Definition numeric_value (v : pyvalue) : option Q :=
  match v with
  | PInt n => Some (inject_Z n)
  | PFloat x => Some x
  | _ => None
  end.

(** [s.replace(pat, '')] for a non-empty [pat]: every occurrence, found
    left to right without overlap, is dropped.  [skip] counts the
    characters of the occurrence still to drop. *)
Fixpoint remove_from (pat : string) (skip : nat) (s : string) : string :=
  match s with
  | EmptyString => EmptyString
  | String c s' =>
      match skip with
      | S k => remove_from pat k s'
      | O =>
          if String.prefix pat s
          then remove_from pat (String.length pat - 1) s'
          else String c (remove_from pat 0 s')
      end
  end.

Definition str_remove (pat s : string) : string := remove_from pat 0 s.

(** [str.lower] on the modelled code points: A..Z and the Latin-1
    capitals U+00C0..U+00DE other than the multiplication sign. *)
Definition lower_char (c : ascii) : ascii :=
  let n := nat_of_ascii c in
  if (((65 <=? n) && (n <=? 90))
      || ((192 <=? n) && (n <=? 222) && negb (n =? 215)))%nat
  then ascii_of_nat (n + 32)
  else c.

Fixpoint lower (s : string) : string :=
  match s with
  | EmptyString => EmptyString
  | String c s' => String (lower_char c) (lower s')
  end.

(** [str(n)] for a natural number and for an [int]. *)
Definition nat_str (n : nat) : string := NilZero.string_of_uint (Nat.to_uint n).

Definition int_str (n : Z) : string := NilZero.string_of_int (Z.to_int n).

End PyData.

Export PyData.

(** ** The [deepdiff] package

    [DeepDiff(t1, t2, ignore_order=True, verbose_level=2)] on the values
    above, in the text view the code reads: one table per report kind,
    keyed by the path of the place that differs. *)

Module DeepDiffLib.

Definition squote : ascii := "'"%char.
Definition dquote : ascii := ascii_of_nat 34.

(** A path from the root: dictionary keys and sequence indexes. *)
Inductive segment : Type :=
| SKey (k : string)
| SIndex (i : nat).

Fixpoint has_char (c : ascii) (s : string) : bool :=
  match s with
  | EmptyString => false
  | String c' s' => Ascii.eqb c c' || has_char c s'
  end.

(** A string key is quoted with single quotes, or with double quotes
    when it holds a single quote itself. *)
Definition stringify_element (k : string) : string :=
  if has_char squote k
  then String dquote (k ++ String dquote EmptyString)
  else String squote (k ++ String squote EmptyString).

Definition segment_str (sg : segment) : string :=
  match sg with
  | SKey k => "[" ++ stringify_element k ++ "]"
  | SIndex i => "[" ++ nat_str i ++ "]"
  end.

Definition path_str (path : list segment) : string :=
  "root" ++ String.concat EmptyString (map segment_str path).

Record type_change : Type := {
  tc_old_type : pytype;
  tc_new_type : pytype;
  tc_old_value : pyvalue;
  tc_new_value : pyvalue
}.

Record value_change : Type := {
  vc_old_value : pyvalue;
  vc_new_value : pyvalue
}.

(** The result object.  A report kind is a key of the result exactly
    when its table is not empty. *)
Record DeepDiffResult : Type := {
  type_changes : dict type_change;
  values_changed : dict value_change;
  dictionary_item_added : dict pyvalue;
  dictionary_item_removed : dict pyvalue;
  iterable_item_added : dict pyvalue;
  iterable_item_removed : dict pyvalue
}.

Definition no_diff : DeepDiffResult :=
  {| type_changes := []; values_changed := [];
     dictionary_item_added := []; dictionary_item_removed := [];
     iterable_item_added := []; iterable_item_removed := [] |}.

Definition merge (a b : DeepDiffResult) : DeepDiffResult :=
  {| type_changes := type_changes a ++ type_changes b;
     values_changed := values_changed a ++ values_changed b;
     dictionary_item_added := dictionary_item_added a ++ dictionary_item_added b;
     dictionary_item_removed := dictionary_item_removed a ++ dictionary_item_removed b;
     iterable_item_added := iterable_item_added a ++ iterable_item_added b;
     iterable_item_removed := iterable_item_removed a ++ iterable_item_removed b |}.

(** [not diff] *)
Definition is_empty (r : DeepDiffResult) : bool :=
  match type_changes r, values_changed r,
        dictionary_item_added r, dictionary_item_removed r,
        iterable_item_added r, iterable_item_removed r with
  | [], [], [], [], [], [] => true
  | _, _, _, _, _, _ => false
  end.

Definition report_type_changes (path : list segment) (t1 t2 : pyvalue) : DeepDiffResult :=
  {| type_changes :=
       [(path_str path,
         {| tc_old_type := get_type t1; tc_new_type := get_type t2;
            tc_old_value := t1; tc_new_value := t2 |})];
     values_changed := [];
     dictionary_item_added := []; dictionary_item_removed := [];
     iterable_item_added := []; iterable_item_removed := [] |}.

Definition report_values_changed (path : list segment) (t1 t2 : pyvalue) : DeepDiffResult :=
  {| type_changes := [];
     values_changed :=
       [(path_str path, {| vc_old_value := t1; vc_new_value := t2 |})];
     dictionary_item_added := []; dictionary_item_removed := [];
     iterable_item_added := []; iterable_item_removed := [] |}.

(** [key.startswith('__')].  Under [ignore_private_variables], which
    is the default, the library leaves such keys of a mapping out of the
    comparison and out of the hash. *)
Definition is_private (k : string) : bool := String.prefix "__" k.

(** The keys of a mapping that are compared. *)
Definition public_keys (m : dict pyvalue) : list string :=
  filter (fun k => negb (is_private k)) (dict_keys m).

Definition public_entries (m : dict pyvalue) : dict pyvalue :=
  filter (fun e => negb (is_private (fst e))) m.

(** [threshold_to_diff_deeper], 0.33 by default: two mappings that have
    more than one key between them and share less than that part of
    their keys are not compared key by key.  The library compares the
    float [len(t_keys_intersect) / t_keys_union_len] with 0.33; for the
    number of keys a mapping can hold that is the comparison of the
    exact quotient. *)
Definition too_far_apart (m1 m2 : dict pyvalue) : bool :=
  let t1_keys := public_keys m1 in
  let t2_keys := public_keys m2 in
  let t_keys_intersect := filter (fun k => dict_mem k m1) t2_keys in
  let t_keys_union_len :=
    List.length t1_keys + List.length (filter (fun k => negb (dict_mem k m1)) t2_keys) in
  ((1 <? t_keys_union_len) && (100 * List.length t_keys_intersect <? 33 * t_keys_union_len))%nat.

(** Compared keys of [d] that [other] lacks, reported under their
    paths. *)
Definition keys_only_in (path : list segment) (d other : dict pyvalue) : dict pyvalue :=
  map (fun e => (path_str (path ++ [SKey (fst e)]), snd e))
      (filter (fun e => negb (is_private (fst e)) && negb (dict_mem (fst e) other)) d).

Definition report_dict_items (path : list segment) (m1 m2 : dict pyvalue) : DeepDiffResult :=
  {| type_changes := []; values_changed := [];
     dictionary_item_added := keys_only_in path m2 m1;
     dictionary_item_removed := keys_only_in path m1 m2;
     iterable_item_added := []; iterable_item_removed := [] |}.

Definition report_iterable_items (path : list segment) (entries : list (nat * pyvalue))
  : dict pyvalue :=
  map (fun e => (path_str (path ++ [SIndex (fst e)]), snd e)) entries.

(** What the model takes from the library as given.

    When each of two sequences has an item the other lacks, the library
    pairs such items by a rough distance between them (the cutoffs
    [cutoff_distance_for_pairs] and [cutoff_intersection_for_pairs]) and
    goes on to diff the pairs.  That heuristic is computed in floating
    point; its outcome is [diff_paired].

    The library keeps the hashes it computes in one table for the two
    values, keyed by the hashed objects themselves where Python can hash
    them.  An [int] and a [float] of one value are one key of a Python
    dict, so the table can hand the hash of the one to the other (for
    [True] and [1] the library prevents it).  Whether it does is
    [number_keys_shared]. *)
Class PairHeuristic : Type := {
  diff_paired : list segment -> list pyvalue -> list pyvalue -> DeepDiffResult;
  number_keys_shared : bool
}.

Section Diff.

Context {heuristic : PairHeuristic}.

(** Two values with the same deep hash: the same type and content, where
    a mapping is hashed regardless of the order of its keys and without
    the keys that start with two underscores, and, under [ignore_order]
    without [report_repetition], a sequence regardless of the order and
    the repetition of its items. *)
Fixpoint same_hash (a b : pyvalue) {struct a} : bool :=
  match a, b with
  | PNone, PNone => true
  | PBool x, PBool y => Bool.eqb x y
  | PInt x, PInt y => Z.eqb x y
  | PFloat x, PFloat y => Qeq_bool x y
  | PInt x, PFloat y => number_keys_shared && Qeq_bool (inject_Z x) y
  | PFloat x, PInt y => number_keys_shared && Qeq_bool x (inject_Z y)
  | PInfinity x, PInfinity y => Bool.eqb x y
  | PStr x, PStr y => String.eqb x y
  | PList l1, PList l2 =>
      forallb (fun x => existsb (fun y => same_hash x y) l2) l1
      && forallb (fun y => existsb (fun x => same_hash x y) l1) l2
  | PDict m1, PDict m2 =>
      forallb (fun e1 =>
                 is_private (fst e1)
                 || existsb (fun e2 =>
                               String.eqb (fst e1) (fst e2)
                               && (let '(_, v1) := e1 in same_hash v1 (snd e2)))
                            m2) m1
      && forallb (fun e2 =>
                    is_private (fst e2)
                    || existsb (fun e1 =>
                                  String.eqb (fst e1) (fst e2)
                                  && (let '(_, v1) := e1 in same_hash v1 (snd e2)))
                               m1) m2
  | _, _ => false
  end.

(** The hash table of a sequence: for every distinct hash the first item
    that has it, with its index. *)
Fixpoint create_hashtable_from (i : nat) (seen items : list pyvalue) : list (nat * pyvalue) :=
  match items with
  | [] => []
  | x :: rest =>
      if existsb (same_hash x) seen
      then create_hashtable_from (S i) seen rest
      else (i, x) :: create_hashtable_from (S i) (x :: seen) rest
  end.

Definition create_hashtable (items : list pyvalue) : list (nat * pyvalue) :=
  create_hashtable_from 0 [] items.

(** Entries of the hash table of [items] whose hash [other] lacks. *)
Definition hashes_only_in (items other : list pyvalue) : list (nat * pyvalue) :=
  filter (fun e => negb (existsb (same_hash (snd e)) other)) (create_hashtable items).

(** Sequences under [ignore_order]. *)
Definition diff_iterable_with_deephash (path : list segment) (l1 l2 : list pyvalue)
  : DeepDiffResult :=
  let hashes_added := hashes_only_in l2 l1 in
  let hashes_removed := hashes_only_in l1 l2 in
  match hashes_added, hashes_removed with
  | _ :: _, _ :: _ => diff_paired path l1 l2
  | _, _ =>
      {| type_changes := []; values_changed := [];
         dictionary_item_added := []; dictionary_item_removed := [];
         iterable_item_added := report_iterable_items path hashes_added;
         iterable_item_removed := report_iterable_items path hashes_removed |}
  end.

(** One level of the comparison: a difference of type is reported as
    such and ends the descent; scalars of one type are compared with
    [!=]; two mappings too far apart are reported as one changed value,
    other mappings by their key sets, then key by key. *)
Fixpoint diff_level (path : list segment) (t1 t2 : pyvalue) {struct t2} : DeepDiffResult :=
  match t1, t2 with
  | PNone, PNone => no_diff
  | PBool a, PBool b =>
      if Bool.eqb a b then no_diff else report_values_changed path t1 t2
  | PInt a, PInt b =>
      if Z.eqb a b then no_diff else report_values_changed path t1 t2
  | PFloat a, PFloat b =>
      if Qeq_bool a b then no_diff else report_values_changed path t1 t2
  | PInfinity a, PInfinity b =>
      if Bool.eqb a b then no_diff else report_values_changed path t1 t2
  | PFloat _, PInfinity _ | PInfinity _, PFloat _ => report_values_changed path t1 t2
  | PStr a, PStr b =>
      if String.eqb a b then no_diff else report_values_changed path t1 t2
  | PList l1, PList l2 => diff_iterable_with_deephash path l1 l2
  | PDict m1, PDict m2 =>
      if too_far_apart m1 m2 then report_values_changed path t1 t2
      else
        merge (report_dict_items path m1 m2)
              ((fix common (es2 : list (string * pyvalue)) : DeepDiffResult :=
                  match es2 with
                  | [] => no_diff
                  | (k, v2) :: rest =>
                      if is_private k then common rest
                      else
                        match dict_get k m1 with
                        | Some v1 => merge (diff_level (path ++ [SKey k]) v1 v2) (common rest)
                        | None => common rest
                        end
                  end) m2)
  | _, _ => report_type_changes path t1 t2
  end.

(** The loop of [diff_level] over the keys the two mappings share, as a
    function of its own. *)
Fixpoint diff_common (path : list segment) (m1 : dict pyvalue)
  (es2 : list (string * pyvalue)) : DeepDiffResult :=
  match es2 with
  | [] => no_diff
  | (k, v2) :: rest =>
      if is_private k then diff_common path m1 rest
      else
        match dict_get k m1 with
        | Some v1 => merge (diff_level (path ++ [SKey k]) v1 v2) (diff_common path m1 rest)
        | None => diff_common path m1 rest
        end
  end.

Definition DeepDiff (t1 t2 : pyvalue) : DeepDiffResult := diff_level [] t1 t2.

(** The descent through two values never reaches the pairing heuristic:
    of any two sequences it compares, one has no item that the other
    lacks. *)
Fixpoint pairing_free (t1 t2 : pyvalue) {struct t2} : bool :=
  match t1, t2 with
  | PList l1, PList l2 =>
      match hashes_only_in l2 l1, hashes_only_in l1 l2 with
      | _ :: _, _ :: _ => false
      | _, _ => true
      end
  | PDict m1, PDict m2 =>
      too_far_apart m1 m2
      || (fix common (es2 : list (string * pyvalue)) : bool :=
            match es2 with
            | [] => true
            | (k, v2) :: rest =>
                if is_private k then common rest
                else
                  match dict_get k m1 with
                  | Some v1 => pairing_free v1 v2 && common rest
                  | None => common rest
                  end
            end) m2
  | _, _ => true
  end.

Fixpoint pairing_free_common (m1 : dict pyvalue) (es2 : list (string * pyvalue)) : bool :=
  match es2 with
  | [] => true
  | (k, v2) :: rest =>
      if is_private k then pairing_free_common m1 rest
      else
        match dict_get k m1 with
        | Some v1 => pairing_free v1 v2 && pairing_free_common m1 rest
        | None => pairing_free_common m1 rest
        end
  end.

End Diff.

(** Two results that report the same entries with added and removed
    exchanged. *)
Definition swapped (r r' : DeepDiffResult) : Prop :=
  (forall e, In e (dictionary_item_added r) <-> In e (dictionary_item_removed r'))
  /\ (forall e, In e (dictionary_item_removed r) <-> In e (dictionary_item_added r'))
  /\ (forall e, In e (iterable_item_added r) <-> In e (iterable_item_removed r'))
  /\ (forall e, In e (iterable_item_removed r) <-> In e (iterable_item_added r')).

(** A table of hashes without a heuristic. *)
Definition shared_keys : PairHeuristic :=
  {| diff_paired := fun path l1 l2 => no_diff; number_keys_shared := true |}.

(** A heuristic that never pairs: every unmatched item is reported as
    added or removed.  It serves to run the model on inputs where the
    choice does not matter. *)
Definition never_pair : PairHeuristic :=
  {| diff_paired := fun path l1 l2 =>
       {| type_changes := []; values_changed := [];
          dictionary_item_added := []; dictionary_item_removed := [];
          iterable_item_added :=
            report_iterable_items path (@hashes_only_in shared_keys l2 l1);
          iterable_item_removed :=
            report_iterable_items path (@hashes_only_in shared_keys l1 l2) |};
     number_keys_shared := true |}.

End DeepDiffLib.

(** ** diff.py: [SnapshotDiff] *)

Module SnapshotDiff.

Import DeepDiffLib.

(** An entry of [result['type_changed']]. *)
Record type_changed_entry : Type := {
  old_type : string;
  new_type : string;
  old_value : pyvalue;
  new_value : pyvalue
}.

(** An entry of [result['changed']]. *)
Record changed_entry : Type := {
  old : pyvalue;
  new : pyvalue
}.

(** The dictionary [_compare_collector_data] returns: each of its six
    keys is present or absent. *)
Record collector_diff : Type := {
  added : option (dict pyvalue);
  removed : option (dict pyvalue);
  changed : option (dict changed_entry);
  type_changed : option (dict type_changed_entry);
  items_added : option (list pyvalue);
  items_removed : option (list pyvalue)
}.

(** [{}] *)
Definition empty_result : collector_diff :=
  {| added := None; removed := None; changed := None;
     type_changed := None; items_added := None; items_removed := None |}.

(** [clean_key]: two [str.replace] calls drop every occurrence of the
    opening [root['] and then every occurrence of the closing quote and
    bracket. *)
Definition clean_key (key : string) : string :=
  str_remove "']" (str_remove "root['" key).

(** [clean_path]: as [clean_key], then every single quote dropped. *)
Definition clean_path (path : string) : string :=
  str_remove "'" (str_remove "']" (str_remove "root['" path)).

(** The loop [for key in table: result[kind][clean(key)] = entry(table[key])]. *)
Definition rekey {A B : Type} (clean : string -> string) (entry : A -> B)
  (table : dict A) : dict B :=
  fold_left (fun acc e => dict_set (clean (fst e)) (entry (snd e)) acc) table [].

(** [if kind in diff: result[...] = build(diff[kind])] *)
Definition if_reported {A B : Type} (table : list A) (build : list A -> B) : option B :=
  match table with
  | [] => None
  | _ :: _ => Some (build table)
  end.

Definition changed_of (c : value_change) : changed_entry :=
  {| old := vc_old_value c; new := vc_new_value c |}.

Definition type_changed_of (c : type_change) : type_changed_entry :=
  {| old_type := type_str (tc_old_type c);
     new_type := type_str (tc_new_type c);
     old_value := tc_old_value c;
     new_value := tc_new_value c |}.

Section Engine.

Context {heuristic : PairHeuristic}.

Definition _compare_collector_data (data1 data2 : pyvalue) : collector_diff :=
  let diff := DeepDiff data1 data2 in
  if is_empty diff then empty_result
  else
    {| added := if_reported (dictionary_item_added diff) (rekey clean_key (fun v => v));
       removed := if_reported (dictionary_item_removed diff) (rekey clean_key (fun v => v));
       changed := if_reported (values_changed diff) (rekey clean_path changed_of);
       type_changed := if_reported (type_changes diff) (rekey clean_path type_changed_of);
       items_added := if_reported (iterable_item_added diff) dict_values;
       items_removed := if_reported (iterable_item_removed diff) dict_values |}.

(** [if collector_diff:] a dictionary is true when it has a key. *)
Definition nonempty_result (r : collector_diff) : bool :=
  match added r, removed r, changed r, type_changed r, items_added r, items_removed r with
  | None, None, None, None, None, None => false
  | _, _, _, _, _, _ => true
  end.

(** [set(list(snapshot1.keys()) + list(snapshot2.keys()))].  Python leaves
    the iteration order of a set open; one order is fixed here. *)
Definition collector_names (snapshot1 snapshot2 : dict pyvalue) : list string :=
  nodup string_dec (dict_keys snapshot1 ++ dict_keys snapshot2).

(** The body of the [for] loop of [compare]. *)
Definition compare_step (snapshot1 snapshot2 : dict pyvalue)
  (organized_diff : dict collector_diff) (collector_name : string) : dict collector_diff :=
  let collector_diff :=
    _compare_collector_data
      (dict_get_default collector_name (PDict []) snapshot1)
      (dict_get_default collector_name (PDict []) snapshot2) in
  if nonempty_result collector_diff
  then dict_set collector_name collector_diff organized_diff
  else organized_diff.

(** [compare].  The whole-snapshot [raw_diff] the code computes first is
    never read and is left out. *)
Definition compare (snapshot1 snapshot2 : dict pyvalue) : dict collector_diff :=
  fold_left (compare_step snapshot1 snapshot2) (collector_names snapshot1 snapshot2) [].

End Engine.

(** [collector_diff.get(key, {})] taken as a condition. *)
Definition member_true {A : Type} (member : option (list A)) : bool :=
  match member with
  | Some (_ :: _) => true
  | _ => false
  end.

Definition any_member (r : collector_diff) : bool :=
  member_true (added r) || member_true (removed r) || member_true (changed r)
  || member_true (type_changed r) || member_true (items_added r)
  || member_true (items_removed r).

Definition has_changes (diff : dict collector_diff) : bool :=
  match diff with
  | [] => false
  | _ :: _ => existsb any_member (dict_values diff)
  end.

End SnapshotDiff.

(** ** The [json] module

    [json.dumps(obj, indent=2)] and [json.loads(s)] with their default
    settings ([ensure_ascii], [allow_nan], [strict]): what the two calls
    return on data within the limits of the interpreter, which
    [within_limits] states. *)

Module Json.

Import DeepDiffLib.

#[local] Open Scope string_scope.

(** The conversion between a float and its text is Python's own
    ([float.__repr__] when encoding, [float(literal)] when decoding); the
    model takes the two functions as given. *)
Class FloatText : Type := {
  float_repr : Q -> string;
  float_of_literal : string -> option Q
}.

Definition backslash : ascii := ascii_of_nat 92.
Definition newline : ascii := ascii_of_nat 10.

Definition hex_char (d : nat) : ascii :=
  match d with
  | 0 => "0" | 1 => "1" | 2 => "2" | 3 => "3" | 4 => "4" | 5 => "5"
  | 6 => "6" | 7 => "7" | 8 => "8" | 9 => "9" | 10 => "a" | 11 => "b"
  | 12 => "c" | 13 => "d" | 14 => "e" | _ => "f"
  end%char.

(** One character of a string literal: the short escapes, [\u00xx] for
    every other character outside the printable ASCII range. *)
Definition escape_char (c : ascii) : string :=
  let n := nat_of_ascii c in
  if Ascii.eqb c dquote then String backslash (String dquote EmptyString)
  else if Ascii.eqb c backslash then String backslash (String backslash EmptyString)
  else if (n =? 10)%nat then String backslash "n"
  else if (n =? 13)%nat then String backslash "r"
  else if (n =? 9)%nat then String backslash "t"
  else if (n =? 8)%nat then String backslash "b"
  else if (n =? 12)%nat then String backslash "f"
  else if ((n <? 32) || (126 <? n))%nat
       then String backslash
              (String "u" (String "0" (String "0"
                 (String (hex_char (n / 16)) (String (hex_char (n mod 16)) EmptyString)))))
  else String c EmptyString.

Fixpoint escape (s : string) : string :=
  match s with
  | EmptyString => EmptyString
  | String c s' => escape_char c ++ escape s'
  end.

(** [encode_basestring_ascii] *)
Definition encode_basestring_ascii (s : string) : string :=
  String dquote (escape s ++ String dquote EmptyString).

Fixpoint spaces (n : nat) : string :=
  match n with
  | O => EmptyString
  | S k => String " " (spaces k)
  end.

(** ['\n' + _indent * _current_indent_level] with [indent=2] *)
Definition newline_indent (level : nat) : string :=
  String newline (spaces (2 * level)).

Section Encoder.

Context {float_text : FloatText}.

(** [_iterencode] at a given indent level, the chunks joined. *)
Fixpoint iterencode (level : nat) (o : pyvalue) : string :=
  match o with
  | PNone => "null"
  | PBool true => "true"
  | PBool false => "false"
  | PInt n => int_str n
  | PFloat x => float_repr x
  | PInfinity false => "Infinity"
  | PInfinity true => "-Infinity"
  | PStr s => encode_basestring_ascii s
  | PList [] => "[]"
  | PList items =>
      "[" ++ newline_indent (S level)
      ++ String.concat ("," ++ newline_indent (S level))
                       (map (iterencode (S level)) items)
      ++ newline_indent level ++ "]"
  | PDict [] => "{}"
  | PDict entries =>
      "{" ++ newline_indent (S level)
      ++ String.concat ("," ++ newline_indent (S level))
                       (map (fun e => encode_basestring_ascii (fst e) ++ ": "
                                      ++ (let '(_, v) := e in iterencode (S level) v))
                            entries)
      ++ newline_indent level ++ "}"
  end.

Definition dumps (obj : pyvalue) : string := iterencode 0 obj.

End Encoder.

(** [WHITESPACE]: space, tab, line feed, carriage return. *)
Definition is_ws (c : ascii) : bool :=
  let n := nat_of_ascii c in
  ((n =? 32) || (n =? 9) || (n =? 10) || (n =? 13))%nat.

Fixpoint skip_ws (s : string) : string :=
  match s with
  | String c s' => if is_ws c then skip_ws s' else s
  | EmptyString => EmptyString
  end.

Definition hex_value (c : ascii) : option nat :=
  let n := nat_of_ascii c in
  if ((48 <=? n) && (n <=? 57))%nat then Some (n - 48)
  else if ((97 <=? n) && (n <=? 102))%nat then Some (n - 87)
  else if ((65 <=? n) && (n <=? 70))%nat then Some (n - 55)
  else None.

(** The character a short escape stands for. *)
Definition unescape (e : ascii) : option ascii :=
  let n := nat_of_ascii e in
  if Ascii.eqb e dquote then Some dquote
  else if Ascii.eqb e backslash then Some backslash
  else if Ascii.eqb e "/" then Some "/"%char
  else if Ascii.eqb e "b" then Some (ascii_of_nat 8)
  else if Ascii.eqb e "f" then Some (ascii_of_nat 12)
  else if Ascii.eqb e "n" then Some (ascii_of_nat 10)
  else if Ascii.eqb e "r" then Some (ascii_of_nat 13)
  else if Ascii.eqb e "t" then Some (ascii_of_nat 9)
  else None.

Definition cons_char (c : ascii) (r : option (string * string)) : option (string * string) :=
  match r with
  | Some (str, rest) => Some (String c str, rest)
  | None => None
  end.

(** [scanstring], entered just after the opening quote: the decoded
    string and the text after the closing quote.  A [\uXXXX] escape
    above U+00FF leaves the modelled character range and is refused. *)
Fixpoint scanstring (s : string) : option (string * string) :=
  match s with
  | EmptyString => None
  | String c rest =>
      if Ascii.eqb c dquote then Some (EmptyString, rest)
      else if Ascii.eqb c backslash then
        match rest with
        | EmptyString => None
        | String e rest1 =>
            if Ascii.eqb e "u" then
              match rest1 with
              | String h1 (String h2 (String h3 (String h4 rest2))) =>
                  match hex_value h1, hex_value h2, hex_value h3, hex_value h4 with
                  | Some a, Some b, Some c3, Some c4 =>
                      if ((a =? 0) && (b =? 0))%nat
                      then cons_char (ascii_of_nat (16 * c3 + c4)) (scanstring rest2)
                      else None
                  | _, _, _, _ => None
                  end
              | _ => None
              end
            else
              match unescape e with
              | Some ch => cons_char ch (scanstring rest1)
              | None => None
              end
        end
      else if (nat_of_ascii c <? 32)%nat then None
      else cons_char c (scanstring rest)
  end.

Definition is_digit (c : ascii) : bool :=
  let n := nat_of_ascii c in ((48 <=? n) && (n <=? 57))%nat.

(** The longest run of digits at the head of [s], and what follows. *)
Fixpoint span_digits (s : string) : string * string :=
  match s with
  | String c s' =>
      if is_digit c
      then let '(ds, rest) := span_digits s' in (String c ds, rest)
      else (EmptyString, s)
  | EmptyString => (EmptyString, EmptyString)
  end.

(** The integer group: an optional minus sign, then either [0] or a
    non-zero digit followed by any digits. *)
Definition match_integer (s : string) : option (string * string) :=
  let '(sign, s1) :=
    match s with
    | String c s' => if Ascii.eqb c "-" then ("-", s') else (EmptyString, s)
    | EmptyString => (EmptyString, s)
    end in
  match s1 with
  | String c s2 =>
      if Ascii.eqb c "0" then Some (sign ++ "0", s2)
      else if is_digit c
      then let '(ds, rest) := span_digits s2 in Some (sign ++ String c ds, rest)
      else None
  | EmptyString => None
  end.

(** The fraction group: a dot and at least one digit, if present. *)
Definition match_frac (s : string) : string * string :=
  match s with
  | String c s' =>
      if Ascii.eqb c "." then
        match span_digits s' with
        | (EmptyString, _) => (EmptyString, s)
        | (ds, rest) => (String c ds, rest)
        end
      else (EmptyString, s)
  | EmptyString => (EmptyString, s)
  end.

(** The exponent group: [e] or [E], an optional sign and at least one
    digit, if present. *)
Definition match_exp (s : string) : string * string :=
  match s with
  | String c s' =>
      if Ascii.eqb c "e" || Ascii.eqb c "E" then
        let '(sign, s1) :=
          match s' with
          | String g s'' =>
              if Ascii.eqb g "-" || Ascii.eqb g "+"
              then (String g EmptyString, s'') else (EmptyString, s')
          | EmptyString => (EmptyString, s')
          end in
        match span_digits s1 with
        | (EmptyString, _) => (EmptyString, s)
        | (ds, rest) => (String c (sign ++ ds), rest)
        end
      else (EmptyString, s)
  | EmptyString => (EmptyString, s)
  end.

(** [NUMBER_RE.match]: the integer, fraction and exponent groups and the
    text after the match. *)
Definition match_number (s : string) : option (string * string * string * string) :=
  match match_integer s with
  | None => None
  | Some (integer, s1) =>
      let '(frac, s2) := match_frac s1 in
      let '(exp, s3) := match_exp s2 in
      Some (integer, frac, exp, s3)
  end.

(** [int(literal)] *)
Definition int_of_literal (literal : string) : option Z :=
  option_map Z.of_int (NilZero.int_of_string literal).

Fixpoint strip_prefix (p s : string) : option string :=
  match p with
  | EmptyString => Some s
  | String a p' =>
      match s with
      | String b s' => if Ascii.eqb a b then strip_prefix p' s' else None
      | EmptyString => None
      end
  end.

Section Decoder.

Context {float_text : FloatText}.

Definition scan_number (s : string) : option (pyvalue * string) :=
  match match_number s with
  | None => None
  | Some (integer, frac, exp, rest) =>
      match frac, exp with
      | EmptyString, EmptyString =>
          option_map (fun n => (PInt n, rest)) (int_of_literal integer)
      | _, _ =>
          option_map (fun x => (PFloat x, rest)) (float_of_literal (integer ++ frac ++ exp))
      end
  end.

(** [parse_constant] on the names [Infinity] and [-Infinity].  The name
    [NaN] stands for a value outside the model and is refused. *)
Definition scan_constant (s : string) : option (pyvalue * string) :=
  match strip_prefix "Infinity" s, strip_prefix "-Infinity" s with
  | Some rest, _ => Some (PInfinity false, rest)
  | _, Some rest => Some (PInfinity true, rest)
  | None, None => None
  end.

(** [scan_once] with the object and array readers.  [fuel] bounds the
    number of nested calls; [None] stands for a [JSONDecodeError]. *)
Fixpoint scan_once (fuel : nat) (s : string) {struct fuel} : option (pyvalue * string) :=
  match fuel with
  | O => None
  | S fuel' =>
      match s with
      | EmptyString => None
      | String c rest =>
          if Ascii.eqb c dquote then
            match scanstring rest with
            | Some (str, rest') => Some (PStr str, rest')
            | None => None
            end
          else if Ascii.eqb c "{" then JSONObject fuel' rest
          else if Ascii.eqb c "[" then JSONArray fuel' rest
          else
            match strip_prefix "null" s, strip_prefix "true" s, strip_prefix "false" s with
            | Some rest', _, _ => Some (PNone, rest')
            | _, Some rest', _ => Some (PBool true, rest')
            | _, _, Some rest' => Some (PBool false, rest')
            | None, None, None =>
                match match_number s with
                | Some _ => scan_number s
                | None => scan_constant s
                end
            end
      end
  end

with JSONObject (fuel : nat) (s : string) {struct fuel} : option (pyvalue * string) :=
  match fuel with
  | O => None
  | S fuel' =>
      match skip_ws s with
      | String c rest =>
          if Ascii.eqb c "}" then Some (PDict [], rest)
          else if Ascii.eqb c dquote then object_pairs fuel' rest []
          else None
      | EmptyString => None
      end
  end

(** The loop of [JSONObject], entered after the opening quote of a key. *)
with object_pairs (fuel : nat) (s : string) (pairs : list (string * pyvalue)) {struct fuel}
  : option (pyvalue * string) :=
  match fuel with
  | O => None
  | S fuel' =>
      match scanstring s with
      | None => None
      | Some (key, s1) =>
          match skip_ws s1 with
          | String c1 s2 =>
              if Ascii.eqb c1 ":" then
                match scan_once fuel' (skip_ws s2) with
                | None => None
                | Some (value, s3) =>
                    let pairs' := (pairs ++ [(key, value)])%list in
                    match skip_ws s3 with
                    | String c2 s4 =>
                        if Ascii.eqb c2 "}" then Some (PDict (dict_of_pairs pairs'), s4)
                        else if Ascii.eqb c2 "," then
                          match skip_ws s4 with
                          | String c3 s5 =>
                              if Ascii.eqb c3 dquote then object_pairs fuel' s5 pairs'
                              else None
                          | EmptyString => None
                          end
                        else None
                    | EmptyString => None
                    end
                end
              else None
          | EmptyString => None
          end
      end
  end

with JSONArray (fuel : nat) (s : string) {struct fuel} : option (pyvalue * string) :=
  match fuel with
  | O => None
  | S fuel' =>
      match skip_ws s with
      | String c rest =>
          if Ascii.eqb c "]" then Some (PList [], rest)
          else array_values fuel' (skip_ws s) []
      | EmptyString => None
      end
  end

(** The loop of [JSONArray], entered at the first character of a value. *)
with array_values (fuel : nat) (s : string) (values : list pyvalue) {struct fuel}
  : option (pyvalue * string) :=
  match fuel with
  | O => None
  | S fuel' =>
      match scan_once fuel' s with
      | None => None
      | Some (value, s1) =>
          let values' := (values ++ [value])%list in
          match skip_ws s1 with
          | String c s2 =>
              if Ascii.eqb c "]" then Some (PList values', s2)
              else if Ascii.eqb c "," then array_values fuel' (skip_ws s2) values'
              else None
          | EmptyString => None
          end
      end
  end.

(** [json.loads]: one value, white space around it, nothing else.  Three
    calls for a character of the text, and one more, are calls enough:
    the readers give the same with any number of further calls. *)
Definition loads (s : string) : option pyvalue :=
  match scan_once (S (3 * String.length s)) (skip_ws s) with
  | Some (obj, rest) =>
      match skip_ws rest with
      | EmptyString => Some obj
      | String _ _ => None
      end
  | None => None
  end.

End Decoder.

(** The text that follows the first of a run of chunks joined by [sep]
    and closed by [close]. *)
Fixpoint joined_rest (sep close : string) (chunks : list string) : string :=
  match chunks with
  | [] => close
  | chunk :: chunks' => sep ++ chunk ++ joined_rest sep close chunks'
  end.

(** Nesting and length of a value, as the number of nested reader calls
    its text takes to decode. *)
Fixpoint calls_needed (v : pyvalue) : nat :=
  match v with
  | PList items => 2 + fold_right (fun x n => 1 + calls_needed x + n) 0 items
  | PDict entries =>
      2 + fold_right (fun e n => 1 + (let '(_, x) := e in calls_needed x) + n) 0 entries
  | _ => 1
  end.

(** Two rationals written the same way. *)
Definition Q_same (x y : Q) : bool :=
  Z.eqb (Qnum x) (Qnum y) && Pos.eqb (Qden x) (Qden y).

Definition is_empty_string (s : string) : bool :=
  match s with
  | EmptyString => true
  | String _ _ => false
  end.

(** The text after a value: nothing, a comma or a line feed. *)
Definition value_end (rest : string) : Prop :=
  rest = EmptyString \/ exists r, rest = String "," r \/ rest = String newline r.

Section Data.

Context {float_text : FloatText}.

(** The text of an entry after the opening quote of its key. *)
Definition entry_text (level : nat) (k : string) (x : pyvalue) (tail : string) : string :=
  escape k ++ String dquote (": " ++ iterencode (S level) x ++ tail).

(** With calls enough, the reader gives back the value and the text that
    follows it. *)
Definition decodes (v : pyvalue) : Prop :=
  forall level rest fuel,
    calls_needed v <= fuel -> value_end rest ->
    scan_once fuel (iterencode level v ++ rest) = Some (v, rest).

(** The float is written as a number with a fraction or an exponent, and
    read back from that text as the same float: what Python's shortest
    [repr] guarantees for a finite float. *)
Definition float_text_ok (x : Q) : bool :=
  match match_number (float_repr x) with
  | Some (integer, frac, exp, EmptyString) =>
      negb (is_empty_string frac && is_empty_string exp)
      && match float_of_literal (integer ++ frac ++ exp) with
         | Some y => Q_same y x
         | None => false
         end
  | _ => false
  end.

(** The data a record may hold: mappings with distinct string keys,
    sequences and scalars, the floats among them keeping their text. *)
Fixpoint json_data (v : pyvalue) : bool :=
  match v with
  | PFloat x => float_text_ok x
  | PList items => forallb json_data items
  | PDict entries =>
      dict_wf entries && forallb (fun e => let '(_, x) := e in json_data x) entries
  | _ => true
  end.

End Data.






(** A float text conversion that agrees with Python on the floats with an
    integral value of magnitude below [10^16], printed as [<int>.0]; it
    serves to run the model on such data. *)
Definition integral_float_text : FloatText :=
  {| float_repr := fun x => int_str (Qnum x / Zpos (Qden x)) ++ ".0";
     float_of_literal := fun literal =>
       match match_integer literal with
       | Some (integer, _) => option_map inject_Z (int_of_literal integer)
       | None => None
       end |}.

End Json.

(** ** storage.py: [SnapshotStorage] *)

Module SnapshotStorage.

Import Json.

(** A row of the table [snapshots (id TEXT PRIMARY KEY, name, timestamp
    REAL, data JSON)]. *)
Record row : Type := {
  id : string;
  name : string;
  timestamp : Q;
  data : string
}.

(** The table: its rows in rowid order, the order in which SQLite scans
    a table that has no usable index for the query.  [INSERT OR REPLACE]
    deletes the row that holds the same primary key and gives the new
    row the next rowid, so the new row comes last. *)
Definition database : Type := list row.

(** What a call returns, or the exception it raises. *)
Inductive result (A : Type) : Type :=
| Ok (a : A)
| Raise (exc : string).

Arguments Ok {A} a.
Arguments Raise {A} exc.

(** [_init_db]: [CREATE TABLE IF NOT EXISTS] keeps an existing table. *)
Definition _init_db (existing : option database) : database :=
  match existing with
  | Some db => db
  | None => []
  end.

(** [WHERE id = ? OR name = ?] with both parameters bound to [s] *)
Definition id_or_name (s : string) (r : row) : bool :=
  String.eqb (id r) s || String.eqb (name r) s.

(** [cursor.fetchone()] on [SELECT ... WHERE id = ? OR name = ?] *)
Definition fetchone (s : string) (db : database) : option row :=
  find (id_or_name s) db.

(** A snapshot as [list_snapshots] describes it. *)
Record snapshot_info : Type := {
  info_id : string;
  info_name : string;
  info_timestamp : Q
}.

Definition info_of (r : row) : snapshot_info :=
  {| info_id := id r; info_name := name r; info_timestamp := timestamp r |}.

(** [ORDER BY timestamp DESC]: a row goes before the first row that is
    not later than it; rows of one timestamp keep their rowid order. *)
Fixpoint insert_desc (r : row) (sorted : list row) : list row :=
  match sorted with
  | [] => [r]
  | r' :: rest =>
      if Qle_bool (timestamp r') (timestamp r)
      then r :: r' :: rest
      else r' :: insert_desc r rest
  end.

Definition order_by_timestamp_desc (rows : list row) : list row :=
  fold_right insert_desc [] rows.

Section Storage.

Context {float_text : FloatText}.

(** [save_snapshot]; [now] is the reading of [time.time()]. *)
Definition save_snapshot (now : Q) (snapshot_id name : string) (data : dict pyvalue)
  (db : database) : database :=
  let timestamp := now in
  let data_json := dumps (PDict data) in
  filter (fun r => negb (String.eqb (id r) snapshot_id)) db
  ++ [{| id := snapshot_id; name := name; timestamp := timestamp; data := data_json |}].

Definition get_snapshot (snapshot_id : string) (db : database) : result (option pyvalue) :=
  match fetchone snapshot_id db with
  | Some r =>
      match loads (data r) with
      | Some obj => Ok (Some obj)
      | None => Raise "JSONDecodeError"
      end
  | None => Ok None
  end.

End Storage.

Definition list_snapshots (db : database) : list snapshot_info :=
  map info_of (order_by_timestamp_desc db).

(** [delete_snapshot]: whether a row was deleted, and the table left. *)
Definition delete_snapshot (snapshot_id : string) (db : database) : bool * database :=
  (existsb (id_or_name snapshot_id) db,
   filter (fun r => negb (id_or_name snapshot_id r)) db).

Definition snapshot_exists (snapshot_id : string) (db : database) : bool :=
  match fetchone snapshot_id db with
  | Some _ => true
  | None => false
  end.

(** The primary key: no two rows with one id. *)
Definition unique_ids (db : database) : Prop := NoDup (map id db).

End SnapshotStorage.

(** ** snapshot.py: [SnapshotEngine] *)

Module SnapshotEngine.

Section Engine.

(** The state of the machine the collectors observe and act on. *)
Variable World : Type.

(** A computation that returns or raises an [Exception] carrying the
    text [str(e)], and may change the world. *)
Inductive outcome (A : Type) : Type :=
| Returns (a : A)
| Raises (e : string).

Arguments Returns {A} a.
Arguments Raises {A} e.

Definition action (A : Type) : Type := World -> outcome A * World.

Definition ret {A : Type} (a : A) : action A := fun w => (Returns a, w).

Definition bind {A B : Type} (m : action A) (k : A -> action B) : action B :=
  fun w =>
    match m w with
    | (Returns a, w') => k a w'
    | (Raises e, w') => (Raises e, w')
    end.

(** [try: body  except Exception as e: handler(str(e))] *)
Definition try_except {A : Type} (body : action A) (handler : string -> action A) : action A :=
  fun w =>
    match body w with
    | (Returns a, w') => (Returns a, w')
    | (Raises e, w') => handler e w'
    end.

(** A collector instance: the name of its class and its [collect]. *)
Record collector : Type := {
  class_name : string;
  collect : action pyvalue
}.

(** [collector.__class__.__name__.replace('Collector', '').lower()] *)
Definition collector_name (c : collector) : string :=
  lower (str_remove "Collector" (class_name c)).

(** [{'error': f'Collection failed: {str(e)}'}] *)
Definition error_marker (e : string) : pyvalue :=
  PDict [("error", PStr ("Collection failed: " ++ e))].

(** The body of the [for] loop of [capture]. *)
Definition capture_step (snapshot : dict pyvalue) (c : collector) : action (dict pyvalue) :=
  let collector_name := collector_name c in
  try_except
    (bind (collect c) (fun data => ret (dict_set collector_name data snapshot)))
    (fun e => ret (dict_set collector_name (error_marker e) snapshot)).

Fixpoint capture_loop (collectors : list collector) (snapshot : dict pyvalue)
  : action (dict pyvalue) :=
  match collectors with
  | [] => ret snapshot
  | c :: rest => bind (capture_step snapshot c) (capture_loop rest)
  end.

(** [capture], for an engine whose [self.collectors] is [collectors]. *)
Definition capture (collectors : list collector) : action (dict pyvalue) :=
  capture_loop collectors [].

(** [self.collectors = collectors or ALL_COLLECTORS] *)
Definition init_collectors (ALL_COLLECTORS : list collector)
  (collectors : option (list collector)) : list collector :=
  match collectors with
  | Some (c :: rest) => c :: rest
  | _ => ALL_COLLECTORS
  end.

(** [generate_snapshot_id]; [stamp] is [datetime.now()] formatted. *)
Definition generate_snapshot_id (stamp : string) (name : option string) : string :=
  match name with
  | Some (String c n) => String c n
  | _ => "snapshot-" ++ stamp
  end.

Definition capture_named (stamp : string) (collectors : list collector)
  (name : option string) : action (string * dict pyvalue) :=
  let snapshot_id := generate_snapshot_id stamp name in
  bind (capture collectors) (fun snapshot_data => ret (snapshot_id, snapshot_data)).

(** The world after each collector of the list has run once, in order. *)
Definition run_collectors (collectors : list collector) (w : World) : World :=
  fold_left (fun w' c => snd (collect c w')) collectors w.

(** What the collector leaves in its category. *)
Definition category_of (c : collector) (w : World) : pyvalue :=
  match fst (collect c w) with
  | Returns data => data
  | Raises e => error_marker e
  end.

(** The dictionary the loop of [capture] builds from [snapshot]. *)
Fixpoint captured (collectors : list collector) (snapshot : dict pyvalue) (w : World)
  : dict pyvalue :=
  match collectors with
  | [] => snapshot
  | c :: rest =>
      captured rest (dict_set (collector_name c) (category_of c w) snapshot)
               (snd (collect c w))
  end.

End Engine.

Arguments Returns {A} a.
Arguments Raises {A} e.
Arguments class_name {World} c.
Arguments collect {World} c w.
Arguments collector_name {World} c.
Arguments capture {World} collectors w.
Arguments run_collectors {World} collectors w.
Arguments category_of {World} c w.
Arguments captured {World} collectors snapshot w.
Arguments error_marker e : clear implicits.

End SnapshotEngine.

(** ** cli.py: the [compare] command *)

Module Cli.

Import DeepDiffLib Json SnapshotStorage.

(** How a block of the command ends: it runs to its end, [sys.exit]
    raises [SystemExit], or an [Exception] is raised. *)
Inductive control (A : Type) : Type :=
| Normal (a : A)
| SystemExit (code : Z)
| Exception (e : string).

Arguments Normal {A} a.
Arguments SystemExit {A} code.
Arguments Exception {A} e.

(** What the formatter is asked to print. *)
Inductive printed : Type :=
| print_error (message : string)
| format_diff (diff : dict SnapshotDiff.collector_diff) (snapshot1_id snapshot2_id : string).

(** A block: what it printed, and how it ended. *)
Definition block (A : Type) : Type := list printed * control A.

Definition ret {A : Type} (a : A) : block A := ([], Normal a).

Definition bind {A B : Type} (m : block A) (k : A -> block B) : block B :=
  match m with
  | (out, Normal a) => let '(out', c) := k a in (out ++ out', c)
  | (out, SystemExit code) => (out, SystemExit code)
  | (out, Exception e) => (out, Exception e)
  end.

Definition print (p : printed) : block unit := ([p], Normal tt).

(** [sys.exit(code)] *)
Definition sys_exit {A : Type} (code : Z) : block A := ([], SystemExit code).

Definition raise {A : Type} (e : string) : block A := ([], Exception e).

(** [try: body  except Exception as e: handler(str(e))]; [SystemExit] is
    not an [Exception] and passes through.  An exception is modelled by
    a text that stands for [str(e)]; where a library words the message
    (a decoding error, a database error), the name of the class of the
    exception stands for it. *)
Definition try_except {A : Type} (body : block A) (handler : string -> block A) : block A :=
  match body with
  | (out, Exception e) => let '(out', c) := handler e in (out ++ out', c)
  | other => other
  end.

Definition of_result {A : Type} (r : result A) : block A :=
  match r with
  | Ok a => ret a
  | Raise e => raise e
  end.

(** The exit status of the process. *)
Definition exit_status {A : Type} (c : control A) : Z :=
  match c with
  | Normal _ => 0
  | SystemExit code => code
  | Exception _ => 1
  end.

(** [not x] for the optional object [get_snapshot] returns. *)
Definition falsy (x : option pyvalue) : bool :=
  match x with
  | None => true
  | Some v => negb (truthy v)
  end.

(** [snapshot.keys()] and [snapshot.get] need a dictionary. *)
Definition as_dict (x : option pyvalue) : block (dict pyvalue) :=
  match x with
  | Some (PDict entries) => ret entries
  | _ => raise "AttributeError"
  end.

Section Compare.

Context {float_text : FloatText} {heuristic : PairHeuristic}.

(** [compare(snap1, snap2, storage)].  [storage] is the table the store
    opens, or [None] when it cannot be opened; [current] is what
    [SnapshotEngine().capture()] returns.  Printing is taken not to fail. *)
Definition compare (storage : option database) (current : dict pyvalue)
  (snap1 : string) (snap2 : option string) : block unit :=
  try_except
    (bind (match storage with
           | Some db => ret db
           | None => raise "OperationalError"
           end) (fun storage_engine =>
     bind (of_result (get_snapshot snap1 storage_engine)) (fun snapshot1_data =>
     bind (if falsy snapshot1_data
           then bind (print (print_error ("Snapshot '" ++ snap1 ++ "' not found")))
                     (fun _ => sys_exit 1)
           else ret tt) (fun _ =>
     bind (match snap2 with
           | Some (String c s) =>
               let snap2 := String c s in
               bind (of_result (get_snapshot snap2 storage_engine)) (fun snapshot2_data =>
               bind (if falsy snapshot2_data
                     then bind (print (print_error ("Snapshot '" ++ snap2 ++ "' not found")))
                               (fun _ => sys_exit 1)
                     else ret tt) (fun _ =>
               ret (snapshot2_data, snap2)))
           | _ => ret (Some (PDict current), "current")
           end) (fun '(snapshot2_data, snap2_id) =>
     bind (as_dict snapshot1_data) (fun snapshot1 =>
     bind (as_dict snapshot2_data) (fun snapshot2 =>
     let diff := SnapshotDiff.compare snapshot1 snapshot2 in
     bind (print (format_diff diff snap1 snap2_id)) (fun _ =>
     if SnapshotDiff.has_changes diff then sys_exit 1 else ret tt))))))))
    (fun e =>
       bind (print (print_error ("Failed to compare snapshots: " ++ e)))
            (fun _ => sys_exit 1)).

End Compare.

(** The three ways a run of [compare] can turn out, read off what it
    printed last: an error message, or the diff it computed. *)
Inductive run_outcome : Type :=
| no_difference
| differences_found
| failure.

Definition outcome_of (run : block unit) : run_outcome :=
  match last (fst run) (print_error EmptyString) with
  | print_error _ => failure
  | format_diff diff _ _ =>
      if SnapshotDiff.has_changes diff then differences_found else no_difference
  end.

End Cli.

(** ** Sample data

    The snapshots of tests/test_diff.py and the scenarios of the
    specification, used to run the definitions above. *)

Module Samples.

Import DeepDiffLib.

(** [{"processes": [{"pid": 123, "name": "test"}], "env_vars": {"TEST": "value"}}] *)
Definition test_snapshot : dict pyvalue :=
  [("processes", PList [PDict [("pid", PInt 123); ("name", PStr "test")]]);
   ("env_vars", PDict [("TEST", PStr "value")])].

(** [{"cpu_percent": 10.0}] and [{"cpu_percent": 10}] *)
Definition system_float : dict pyvalue := [("cpu_percent", PFloat (10 # 1))].
Definition system_int : dict pyvalue := [("cpu_percent", PInt 10)].

(** [{"processes": [{"pid": 123}]}] and a snapshot without that category *)
Definition processes_only : dict pyvalue :=
  [("processes", PList [PDict [("pid", PInt 123)]])].
Definition env_vars_only : dict pyvalue :=
  [("env_vars", PDict [("TEST", PStr "value")])].

(** A key is simple when it holds neither a single quote nor an opening
    bracket; the path of a simple key cleans to the key itself. *)
Definition simple_key (k : string) : bool :=
  negb (has_char squote k) && negb (has_char "[" k).

Definition is_number (v : pyvalue) : bool :=
  match v with
  | PInt _ | PFloat _ | PInfinity _ => true
  | _ => false
  end.

(** A collector over a world that logs the calls made: [collect] appends
    the name of the class to the log and returns or raises as told. *)
Definition logging_collector (cls : string) (result : SnapshotEngine.outcome pyvalue)
  : SnapshotEngine.collector (list string) :=
  {| SnapshotEngine.class_name := cls;
     SnapshotEngine.collect := fun log => (result, log ++ [cls]) |}.

(** The mock collectors of tests/test_snapshot.py. *)
Definition test_collectors : list (SnapshotEngine.collector (list string)) :=
  [logging_collector "TestCollector" (SnapshotEngine.Returns (PDict [("test", PStr "data")]));
   logging_collector "FailingCollector" (SnapshotEngine.Raises "Test error")].

(** Two instances of one collector class, the first of which fails. *)
Definition twin_collectors : list (SnapshotEngine.collector (list string)) :=
  [logging_collector "ProcessCollector" (SnapshotEngine.Raises "boom");
   logging_collector "ProcessCollector" (SnapshotEngine.Returns (PList []))].

(** A store after [save_snapshot('first', 'x', {'k': 1})] and then
    [save_snapshot('x', 'second', {'k': 2})], at the clock readings 1
    and 2. *)
Definition name_clash_db : SnapshotStorage.database :=
  @SnapshotStorage.save_snapshot Json.integral_float_text 2 "x" "second" [("k", PInt 2)]
    (@SnapshotStorage.save_snapshot Json.integral_float_text 1 "first" "x" [("k", PInt 1)] []).

(** A store that holds the two [system] snapshots under the names [a]
    and [b], as the [snap] command saves them (the name is the id). *)
Definition system_db : SnapshotStorage.database :=
  @SnapshotStorage.save_snapshot Json.integral_float_text 2 "b" "b"
    [("system", PDict system_int)]
    (@SnapshotStorage.save_snapshot Json.integral_float_text 1 "a" "a"
       [("system", PDict system_float)] []).

End Samples.

(** ** Shapes of a category result *)

Module Shapes.

Import DeepDiffLib SnapshotDiff.

(** A result with the single member [removed], [added] or
    [type_changed]. *)
Definition only_removed (entries : dict pyvalue) : collector_diff :=
  {| added := None; removed := Some entries; changed := None;
     type_changed := None; items_added := None; items_removed := None |}.

Definition only_added (entries : dict pyvalue) : collector_diff :=
  {| added := Some entries; removed := None; changed := None;
     type_changed := None; items_added := None; items_removed := None |}.

(** The single entry [root] of [type_changed]: the whole category changed
    its type. *)
Definition root_type_changed (old_value new_value : pyvalue) : collector_diff :=
  {| added := None; removed := None; changed := None;
     type_changed :=
       Some [("root",
              {| old_type := type_str (get_type old_value);
                 new_type := type_str (get_type new_value);
                 old_value := old_value;
                 new_value := new_value |})];
     items_added := None; items_removed := None |}.

(** The single entry [root] of [changed]: the whole category is reported
    as one changed value. *)
Definition root_changed (old_value new_value : pyvalue) : collector_diff :=
  {| added := None; removed := None;
     changed := Some [("root", {| old := old_value; new := new_value |})];
     type_changed := None; items_added := None; items_removed := None |}.

(** The table the code builds from the top-level keys of a mapping all
    reported as added, or all as removed. *)
Definition top_level_entries (m : dict pyvalue) : dict pyvalue :=
  rekey clean_key (fun v => v)
        (map (fun e => (path_str [SKey (fst e)], snd e)) m).

(** The keys of a member of a category result; none when it is absent. *)
Definition member_keys {A : Type} (member : option (dict A)) : list string :=
  match member with
  | Some entries => dict_keys entries
  | None => []
  end.

(** The items of [items_added] or [items_removed]. *)
Definition member_items (member : option (list pyvalue)) : list pyvalue :=
  match member with
  | Some items => items
  | None => []
  end.

End Shapes.

(** ** More of Python's strings *)

Module PyStrings.

(** [s[:n]] *)
Definition slice_to (n : nat) (s : string) : string := String.substring 0 n s.

(** [sub in s] *)
Fixpoint contains (sub s : string) : bool :=
  String.prefix sub s
  || match s with
     | EmptyString => false
     | String _ s' => contains sub s'
     end.

(** [x in names] for a set or a list of strings *)
Definition in_strings (x : string) (names : list string) : bool :=
  existsb (String.eqb x) names.

End PyStrings.

Export PyStrings.

(** ** Fragments and results of a simple shape *)

Module Fragments.

Import DeepDiffLib SnapshotDiff Samples.

Definition is_scalar (v : pyvalue) : bool :=
  match v with
  | PList _ | PDict _ => false
  | _ => true
  end.

(** A mapping from distinct simple keys to scalars, such as the
    environment variables or the figures of the system. *)
Definition flat_fragment (m : dict pyvalue) : bool :=
  dict_wf m && forallb (fun e => simple_key (fst e) && is_scalar (snd e)) m.

(** A key with neither a quote nor a bracket. *)
Definition plain_key (k : string) : bool :=
  simple_key k && negb (has_char "]" k).

(** [member[k]] in a member of a category result; none when the member
    or the key is absent. *)
Definition member_get {A : Type} (member : option (dict A)) (k : string) : option A :=
  match member with
  | Some entries => dict_get k entries
  | None => None
  end.

(** What two flat fragments hold under a key, as an entry of [changed]:
    two different values of one type; and as an entry of
    [type_changed]: two values of different types. *)
Definition changed_at {heuristic : PairHeuristic} (m1 m2 : dict pyvalue) (k : string)
  : option changed_entry :=
  match dict_get k m1, dict_get k m2 with
  | Some v1, Some v2 =>
      if pytype_eqb (get_type v1) (get_type v2) && negb (same_hash v1 v2)
      then Some {| old := v1; new := v2 |}
      else None
  | _, _ => None
  end.

Definition type_changed_at (m1 m2 : dict pyvalue) (k : string) : option type_changed_entry :=
  match dict_get k m1, dict_get k m2 with
  | Some v1, Some v2 =>
      if pytype_eqb (get_type v1) (get_type v2)
      then None
      else Some {| old_type := type_str (get_type v1); new_type := type_str (get_type v2);
                   old_value := v1; new_value := v2 |}
  | _, _ => None
  end.



End Fragments.

(** ** Tables the commands build *)

Module Stores.

Import Json SnapshotStorage.

(** Every record is named by its id, as the commands save it. *)
Definition names_are_ids (db : database) : Prop :=
  forall r, In r db -> name r = id r.

(** Rows, and a listing, with the latest first. *)
Definition rows_latest_first (rows : list row) : Prop :=
  StronglySorted (fun a b => (timestamp b <= timestamp a)%Q) rows.

Definition latest_first (infos : list snapshot_info) : Prop :=
  StronglySorted (fun a b => (info_timestamp b <= info_timestamp a)%Q) infos.

Section History.

Context {float_text : FloatText}.

(** The tables the commands of cli.py build: [snap] and [watch] call
    [save_snapshot(snapshot_id, snapshot_id, data)] and [delete] calls
    [delete_snapshot(name)], on a table that [_init_db] created. *)
Inductive command_store : database -> Prop :=
| store_created : command_store (_init_db None)
| store_saved now snapshot_id data db :
    command_store db -> command_store (save_snapshot now snapshot_id snapshot_id data db)
| store_deleted name db :
    command_store db -> command_store (snd (delete_snapshot name db)).

(** The tables the methods of the store build from JSON data:
    [save_snapshot] with any id and name, and [delete_snapshot]. *)
Inductive saved_store : database -> Prop :=
| saved_created : saved_store (_init_db None)
| saved_saved now snapshot_id name data db :
    json_data (PDict data) = true -> saved_store db ->
    saved_store (save_snapshot now snapshot_id name data db)
| saved_deleted snapshot_id db :
    saved_store db -> saved_store (snd (delete_snapshot snapshot_id db)).

End History.

End Stores.

(** ** collectors/env_vars.py: [EnvVarsCollector] *)

Module EnvVars.

Definition EXCLUDED_VARS : list string :=
  ["PATH"; "PWD"; "OLDPWD"; "SHLVL"; "_"; "PS1"; "PS2"; "HISTFILE";
   "SSH_CLIENT"; "SSH_CONNECTION"; "SSH_TTY"].

Definition sensitive_keywords : list string :=
  ["password"; "secret"; "token"; "key"; "auth"].

(** [any(sensitive in key.lower() for sensitive in [...])] *)
Definition is_sensitive (key : string) : bool :=
  existsb (fun sensitive => contains sensitive (lower key)) sensitive_keywords.

(** The body of the loop over [os.environ.items()]. *)
Definition collect_step (env_vars : dict pyvalue) (item : string * string) : dict pyvalue :=
  let '(key, value) := item in
  if in_strings key EXCLUDED_VARS then env_vars
  else if is_sensitive key then dict_set key (PStr "[REDACTED]") env_vars
  else if (500 <? String.length value)%nat
       then dict_set key (PStr (slice_to 497 value ++ "...")) env_vars
       else dict_set key (PStr value) env_vars.

(** [collect], for the environment [environ]; reading the environment
    is taken not to fail. *)
Definition collect (environ : dict string) : pyvalue :=
  PDict (fold_left collect_step environ []).

End EnvVars.

(** ** collectors/processes.py: [ProcessCollector] *)

Module Processes.

Import SnapshotEngine.

(** [proc.info] for the attributes asked of [psutil.process_iter]; an
    attribute the system does not give is [None].  [memory_info] is kept
    as its field [rss]. *)
Record process_info : Type := {
  pid : Z;
  name : option string;
  cmdline : option (list string);
  cpu_percent : option Q;
  memory_info : option Z
}.

(** [x] for a string, [None] for none; the same for a float. *)
Definition str_or_none (x : option string) : pyvalue :=
  match x with
  | Some s => PStr s
  | None => PNone
  end.

Definition float_or_none (x : option Q) : pyvalue :=
  match x with
  | Some q => PFloat q
  | None => PNone
  end.

(** [if not info['cmdline']: continue] *)
Definition has_cmdline (info : process_info) : bool :=
  match cmdline info with
  | Some (_ :: _) => true
  | _ => false
  end.

(** A dictionary of the list [processes] with its sort key, the number
    under [mem_mb]; [key <= key'] compares them. *)
Definition keyed (A : Type) : Type := Q * A.

(** [list.sort(key=..., reverse=True)]: an item goes before the first
    item whose key is not greater; items of one key keep their order. *)
Fixpoint insert_descending {A : Type} (x : keyed A) (sorted : list (keyed A)) : list (keyed A) :=
  match sorted with
  | [] => [x]
  | y :: rest =>
      if Qle_bool (fst y) (fst x) then x :: y :: rest else y :: insert_descending x rest
  end.

Definition sort_descending {A : Type} (items : list (keyed A)) : list (keyed A) :=
  fold_right insert_descending [] items.

Section Collect.

(** The float [round(rss / 1024 / 1024, 1)]. *)
Variable rounded_mb : Z -> Q.

(** [mem_mb], and the number it is as a sort key. *)
Definition mem_mb (info : process_info) : pyvalue :=
  match memory_info info with
  | Some rss => PFloat (rounded_mb rss)
  | None => PInt 0
  end.

Definition sort_key (info : process_info) : Q :=
  match memory_info info with
  | Some rss => rounded_mb rss
  | None => 0%Q
  end.

(** The dictionary appended for a process, with its key. *)
Definition process_entry (info : process_info) : keyed pyvalue :=
  let cmdline :=
    match cmdline info with
    | Some (arg :: args) => String.concat " " (arg :: args)
    | _ => EmptyString
    end in
  (sort_key info,
   PDict [("pid", PInt (pid info));
          ("name", str_or_none (name info));
          ("cmdline", PStr cmdline);
          ("cpu", float_or_none (cpu_percent info));
          ("mem_mb", mem_mb info)]).

(** The list [processes] when the loop ends. *)
Definition process_entries (processes : list process_info) : list (keyed pyvalue) :=
  map process_entry (filter has_cmdline processes).

(** [collect]; [process_iter] is what the iteration over
    [psutil.process_iter] yields, or the exception it raises.  Reading
    [proc.info] is taken not to raise. *)
Definition collect (process_iter : outcome (list process_info)) : pyvalue :=
  match process_iter with
  | Raises e => PList [PDict [("error", PStr ("ProcessCollector failed: " ++ e))]]
  | Returns processes =>
      PList (map snd (firstn 100 (sort_descending (process_entries processes))))
  end.

End Collect.

End Processes.

(** ** collectors/network.py: [NetworkCollector] *)

Module Network.

Import SnapshotEngine.

(** A connection as [psutil.net_connections] gives it: an address is a
    pair of an ip and a port, or the empty tuple. *)
Record connection : Type := {
  laddr : option (string * Z);
  raddr : option (string * Z);
  status : string;
  pid : option Z
}.

(** [f"{addr.ip}:{addr.port}" if addr else ""] *)
Definition address (addr : option (string * Z)) : string :=
  match addr with
  | Some (ip, port) => ip ++ ":" ++ int_str port
  | None => EmptyString
  end.

(** The dictionary appended for a connection, with its sort key
    [(local, status)]. *)
Definition connection_entry (conn : connection) : (string * string) * pyvalue :=
  let local := address (laddr conn) in
  let remote := address (raddr conn) in
  let status :=
    match status conn with
    | EmptyString => "UNKNOWN"
    | String _ _ => status conn
    end in
  ((local, status),
   PDict [("local", PStr local);
          ("remote", PStr remote);
          ("status", PStr status);
          ("pid", match pid conn with
                  | Some p => if Z.eqb p 0 then PNone else PInt p
                  | None => PNone
                  end)]).

(** [key < key'] for two pairs of strings. *)
Definition key_ltb (k k' : string * string) : bool :=
  match String.compare (fst k) (fst k') with
  | Lt => true
  | Eq => match String.compare (snd k) (snd k') with Lt => true | _ => false end
  | Gt => false
  end.

(** [list.sort(key=...)]: an item goes after the items whose key is
    smaller; items of one key keep their order. *)
Fixpoint insert_ascending {A : Type} (x : (string * string) * A)
  (sorted : list ((string * string) * A)) : list ((string * string) * A) :=
  match sorted with
  | [] => [x]
  | y :: rest =>
      if key_ltb (fst y) (fst x) then y :: insert_ascending x rest else x :: y :: rest
  end.

Definition sort_ascending {A : Type} (items : list ((string * string) * A))
  : list ((string * string) * A) :=
  fold_right insert_ascending [] items.

(** [collect]; [net_connections] is what [psutil.net_connections]
    returns, or the exception it raises.  Reading the fields of a
    connection is taken not to raise. *)
Definition collect (net_connections : outcome (list connection)) : pyvalue :=
  match net_connections with
  | Raises e => PList [PDict [("error", PStr ("NetworkCollector failed: " ++ e))]]
  | Returns connections =>
      PList (map snd (firstn 200 (sort_ascending (map connection_entry connections))))
  end.

End Network.

(** ** collectors/__init__.py: [ALL_COLLECTORS] *)

Module Collectors.

Import SnapshotEngine.

Section Instances.

Variable World : Type.

(** What the [collect] methods of the six classes do to the machine. *)
Variables process network env_vars packages files system : action World pyvalue.

Definition ALL_COLLECTORS : list (collector World) :=
  [{| class_name := "ProcessCollector"; collect := process |};
   {| class_name := "NetworkCollector"; collect := network |};
   {| class_name := "EnvVarsCollector"; collect := env_vars |};
   {| class_name := "PackagesCollector"; collect := packages |};
   {| class_name := "FilesCollector"; collect := files |};
   {| class_name := "SystemCollector"; collect := system |}].

End Instances.

End Collectors.

(** ** formatters.py: [SnapshotFormatter] *)

Module Formatters.

Import DeepDiffLib Json SnapshotDiff SnapshotStorage.

Section Values.

Context {float_text : FloatText}.

(** [_format_value].  A [bool] is an [int] for [isinstance]; [str] of a
    [float] is its [repr], [inf] for an infinity. *)
Definition _format_value (value : pyvalue) : string :=
  match value with
  | PStr s =>
      if (50 <? String.length s)%nat
      then String dquote (slice_to 47 s ++ "..." ++ String dquote EmptyString)
      else String dquote (s ++ String dquote EmptyString)
  | PBool b => if b then "True" else "False"
  | PInt n => int_str n
  | PFloat x => float_repr x
  | PInfinity false => "inf"
  | PInfinity true => "-inf"
  | PList items => "[list with " ++ nat_str (List.length items) ++ " items]"
  | PDict entries => "[dict with " ++ nat_str (List.length entries) ++ " keys]"
  | PNone => "None"
  end.

(** A line of the content of a panel: its heading, or what it shows of
    an entry.  The text of a value is that of [_format_value]; an item
    is kept as it is, its text being that of [_format_list_item]. *)
Inductive content_line : Type :=
| added_heading
| added_line (key : string) (value : string)
| removed_heading
| removed_line (key : string) (value : string)
| changed_heading
| changed_line (key : string) (old new : string)
| items_added_heading
| item_added_line (item : pyvalue)
| items_removed_heading
| item_removed_line (item : pyvalue).

(** [if kind in changes and changes[kind]:] the heading, then a line
    for each entry. *)
Definition section_lines {A : Type} (member : option (list A))
  (heading : content_line) (line : A -> content_line) : list content_line :=
  match member with
  | Some (e :: entries) => heading :: map line (e :: entries)
  | _ => []
  end.

(** The list [content] that [format_diff] builds for a category. *)
Definition panel_content (changes : collector_diff) : list content_line :=
  section_lines (added changes) added_heading
    (fun e => added_line (fst e) (_format_value (snd e)))
  ++ section_lines (removed changes) removed_heading
       (fun e => removed_line (fst e) (_format_value (snd e)))
  ++ section_lines (changed changes) changed_heading
       (fun e => changed_line (fst e) (_format_value (old (snd e)))
                              (_format_value (new (snd e))))
  ++ section_lines (items_added changes) items_added_heading item_added_line
  ++ section_lines (items_removed changes) items_removed_heading item_removed_line.

(** What [format_diff] hands to the console, in order. *)
Inductive diff_output : Type :=
| comparing (snapshot1_id snapshot2_id : string)
| no_differences_found
| panel (category : string) (content : list content_line).

(** The body of the loop of [format_diff] over the categories. *)
Definition category_panel (entry : string * collector_diff) : list diff_output :=
  let '(category, changes) := entry in
  if negb (nonempty_result changes) then []
  else
    match panel_content changes with
    | [] => []
    | content => [panel category content]
    end.

Definition format_diff (diff : dict collector_diff) (snapshot1_id snapshot2_id : string)
  : list diff_output :=
  comparing snapshot1_id snapshot2_id
  :: match diff with
     | [] => [no_differences_found]
     | _ :: _ => flat_map category_panel diff
     end.

End Values.

(** The cell of the column [ID] in [format_snapshot_list]. *)
Definition id_cell (id : string) : string :=
  if (15 <? String.length id)%nat then slice_to 12 id ++ "..." else id.

(** What [format_snapshot_list] hands to the console: the message, or
    the table with a row of three cells for each snapshot. *)
Inductive list_output : Type :=
| no_snapshots_found
| snapshots_table (rows : list (string * string * string)).

Section Listing.

(** [datetime.fromtimestamp(t).strftime("%Y-%m-%d %H:%M:%S")], which
    depends on the time zone of the machine. *)
Variable formatted_time : Q -> string.

Definition format_snapshot_list (snapshots : list snapshot_info) : list_output :=
  match snapshots with
  | [] => no_snapshots_found
  | _ :: _ =>
      snapshots_table
        (map (fun snapshot =>
                (id_cell (info_id snapshot), info_name snapshot,
                 formatted_time (info_timestamp snapshot)))
             snapshots)
  end.

End Listing.

(** A row of the table of [format_snapshot_summary]. *)
Inductive summary_row : Type :=
| error_row (category : string) (details : pyvalue)
| count_row (category : string) (count : nat)
| system_row (category : string) (cpu mem disk : pyvalue).

(** The body of the loop of [format_snapshot_summary]. *)
Definition summary_rows_of (entry : string * pyvalue) : list summary_row :=
  let '(category, category_data) := entry in
  match category_data with
  | PDict entries =>
      match dict_get "error" entries with
      | Some details => [error_row category details]
      | None =>
          if String.eqb category "system"
          then [system_row category
                  (dict_get_default "cpu_percent" (PStr "N/A") entries)
                  (dict_get_default "mem_percent" (PStr "N/A") entries)
                  (dict_get_default "disk_percent" (PStr "N/A") entries)]
          else [count_row category (List.length entries)]
      end
  | PList items => [count_row category (List.length items)]
  | _ => []
  end.

(** The rows [format_snapshot_summary] adds to its table. *)
Definition format_snapshot_summary (data : dict pyvalue) : list summary_row :=
  flat_map summary_rows_of data.

End Formatters.

(** ** cli.py: the commands [snap], [list], [delete], [export] and [watch] *)

Module Commands.

Import Json SnapshotStorage SnapshotEngine Cli.

(** What a command asks the formatter, or [print], to show. *)
Inductive shown : Type :=
| error_message (message : string)
| success_message (message : string)
| info_message (message : string)
| snapshot_summary (snapshot_id : string) (data : dict pyvalue)
| snapshot_list (snapshots : list snapshot_info)
| diff_shown (diff : dict SnapshotDiff.collector_diff) (snapshot1_id snapshot2_id : string)
| standard_output (text : string).

(** The readings of the clock in one turn of the loop of [watch] that
    finds a change: [time.strftime('%Y-%m-%d %H:%M:%S')],
    [int(time.time())], and the [time.time()] of [save_snapshot]. *)
Record turn : Type := {
  clock_text : string;
  seconds : Z;
  saved_at : Q
}.

Section Machine.

(** The state of the machine the collectors observe. *)
Variable World : Type.

(** The machine a command runs on: the table the store opens, or the
    text of the exception that opening the database raises; what the
    coming calls of the store meet, one element for a call, [Some e]
    for a call whose connection, statement or commit raises [e] (a
    locked or read-only database), [None] for a call that runs, as
    every call does once the list is used up; and the rest of the
    machine. *)
Record machine : Type := {
  table : result database;
  faults : list (option string);
  world : World
}.

(** A block of a command: what it showed, how it ended, and the machine
    it leaves. *)
Definition run (A : Type) : Type := machine -> (list shown * control A) * machine.

Definition ret {A : Type} (a : A) : run A := fun m => (([], Normal a), m).

Definition raise {A : Type} (e : string) : run A := fun m => (([], Exception e), m).

Definition bind {A B : Type} (x : run A) (k : A -> run B) : run B :=
  fun m =>
    match x m with
    | ((out, Normal a), m') =>
        let '((out', c), m'') := k a m' in ((out ++ out', c), m'')
    | ((out, SystemExit code), m') => ((out, SystemExit code), m')
    | ((out, Exception e), m') => ((out, Exception e), m')
    end.

(** A call of the formatter, or of [print].  Showing is taken not to
    fail, in every command. *)
Definition show (s : shown) : run unit := fun m => (([s], Normal tt), m).

(** [sys.exit(code)] *)
Definition sys_exit {A : Type} (code : Z) : run A := fun m => (([], SystemExit code), m).

(** [try: body  except Exception as e: handler(str(e))]; [SystemExit] is
    not an [Exception] and passes through. *)
Definition try_except {A : Type} (body : run A) (handler : string -> run A) : run A :=
  fun m =>
    match body m with
    | ((out, Exception e), m') =>
        let '((out', c), m'') := handler e m' in ((out ++ out', c), m'')
    | other => other
    end.

(** A call of a method of the store.  Each one opens a connection of
    its own: it raises when the database cannot be opened, and when the
    call meets a fault, which leaves the table as it is (the connection
    rolls back). *)
Definition on_table {A : Type} (call : database -> result A * database) : run A :=
  fun m =>
    match table m with
    | Raise e => (([], Exception e), m)
    | Ok db =>
        match faults m with
        | Some e :: rest =>
            (([], Exception e), {| table := Ok db; faults := rest; world := world m |})
        | later =>
            match call db with
            | (Ok a, db') =>
                (([], Normal a), {| table := Ok db'; faults := tl later; world := world m |})
            | (Raise e, db') =>
                (([], Exception e), {| table := Ok db'; faults := tl later; world := world m |})
            end
        end
    end.

(** A call of a method of the engine. *)
Definition on_world {A : Type} (call : action World A) : run A :=
  fun m =>
    match call (world m) with
    | (Returns a, w) => (([], Normal a), {| table := table m; faults := faults m; world := w |})
    | (Raises e, w) => (([], Exception e), {| table := table m; faults := faults m; world := w |})
    end.

(** [time.sleep(interval)]; it raises [ValueError] for a negative
    length. *)
Definition sleep (interval : Z) : run unit :=
  if (interval <? 0)%Z then raise "sleep length must be non-negative" else ret tt.

Section Run.

Context {float_text : FloatText}.

(** The collectors of the module, and the readings of the clock during
    the run: [datetime.now()] formatted, and [time.time()]. *)
Variable ALL_COLLECTORS : list (collector World).
Variable stamp : string.
Variable now : Q.

(** [SnapshotStorage(storage)] *)
Definition open_storage : run unit := on_table (fun db => (Ok tt, _init_db (Some db))).

(** [snap(name, storage)].  Printing is taken not to fail. *)
Definition snap (name : option string) : run unit :=
  try_except
    (let engine := init_collectors World ALL_COLLECTORS None in
     bind open_storage (fun _ =>
     bind (on_world (capture_named World stamp engine name)) (fun '(snapshot_id, snapshot_data) =>
     bind (on_table (fun db =>
             (Ok tt, save_snapshot now snapshot_id snapshot_id snapshot_data db))) (fun _ =>
     bind (show (success_message ("Snapshot '" ++ snapshot_id ++ "' created successfully")))
          (fun _ =>
     show (snapshot_summary snapshot_id snapshot_data))))))
    (fun e =>
       bind (show (error_message ("Failed to create snapshot: " ++ e)))
            (fun _ => sys_exit 1)).

(** [list(storage)] *)
Definition list_command : run unit :=
  try_except
    (bind open_storage (fun _ =>
     bind (on_table (fun db => (Ok (list_snapshots db), db))) (fun snapshots =>
     show (snapshot_list snapshots))))
    (fun e =>
       bind (show (error_message ("Failed to list snapshots: " ++ e)))
            (fun _ => sys_exit 1)).

(** [delete(name, storage)] *)
Definition delete (name : string) : run unit :=
  try_except
    (bind open_storage (fun _ =>
     bind (on_table (fun db => (Ok (snapshot_exists name db), db))) (fun found =>
     bind (if negb found
           then bind (show (error_message ("Snapshot '" ++ name ++ "' not found")))
                     (fun _ => sys_exit 1)
           else ret tt) (fun _ =>
     bind (on_table (fun db =>
             (Ok (fst (delete_snapshot name db)), snd (delete_snapshot name db))))
          (fun deleted =>
     if deleted
     then show (success_message ("Snapshot '" ++ name ++ "' deleted"))
     else bind (show (error_message ("Failed to delete snapshot '" ++ name ++ "'")))
               (fun _ => sys_exit 1))))))
    (fun e =>
       bind (show (error_message ("Failed to delete snapshot: " ++ e)))
            (fun _ => sys_exit 1)).

(** The object a Python variable holds for what [get_snapshot]
    returned: [None] when it returned no snapshot. *)
Definition object_of (x : option pyvalue) : pyvalue :=
  match x with
  | Some v => v
  | None => PNone
  end.

(** [export(name, output_format, storage)]; [json] is the only format
    the option accepts. *)
Definition export (name : string) : run unit :=
  try_except
    (bind open_storage (fun _ =>
     bind (on_table (fun db => (get_snapshot name db, db))) (fun snapshot_data =>
     bind (if falsy snapshot_data
           then bind (show (error_message ("Snapshot '" ++ name ++ "' not found")))
                     (fun _ => sys_exit 1)
           else ret tt) (fun _ =>
     show (standard_output (dumps (object_of snapshot_data)))))))
    (fun e =>
       bind (show (error_message ("Failed to export snapshot: " ++ e)))
            (fun _ => sys_exit 1)).

End Run.

Section Watch.

Context {float_text : FloatText} {heuristic : DeepDiffLib.PairHeuristic}.

Variable ALL_COLLECTORS : list (collector World).

(** [datetime.now()] formatted.  [generate_snapshot_id] reads it only
    for a snapshot without a name, so [watch] never uses it. *)
Variable stamp : string.

(** The first lines of the [try] block of [watch(interval, storage)]:
    the baseline.  [now] is the [time.time()] of its [save_snapshot];
    the data returned is the first [last_snapshot_data]. *)
Definition watch_baseline (now : Q) : run (dict pyvalue) :=
  let engine := init_collectors World ALL_COLLECTORS None in
  bind open_storage (fun _ =>
  bind (on_world (capture_named World stamp engine (Some "watch-baseline")))
       (fun '(initial_id, initial_data) =>
  bind (on_table (fun db =>
          (Ok tt, save_snapshot now initial_id initial_id initial_data db))) (fun _ =>
  bind (show (success_message ("Baseline snapshot '" ++ initial_id ++ "' created")))
       (fun _ =>
  ret initial_data)))).

(** The body of the loop of [watch] after [time.sleep(interval)].  It
    returns the [last_snapshot_data] of the next turn. *)
Definition watch_iteration (t : turn) (last_snapshot_data : dict pyvalue)
  : run (dict pyvalue) :=
  let engine := init_collectors World ALL_COLLECTORS None in
  bind (on_world (capture engine)) (fun current_data =>
  let diff := SnapshotDiff.compare last_snapshot_data current_data in
  if SnapshotDiff.has_changes diff
  then
    bind (show (info_message ("Changes detected at " ++ clock_text t))) (fun _ =>
    bind (show (diff_shown diff "previous" "current")) (fun _ =>
    bind (on_world (capture_named World stamp engine
                      (Some ("watch-" ++ int_str (seconds t))%string)))
         (fun '(new_id, _) =>
    bind (on_table (fun db =>
            (Ok tt, save_snapshot (saved_at t) new_id new_id current_data db))) (fun _ =>
    ret current_data))))
  else ret last_snapshot_data).

(** The turns the loop [while True] makes, one for each element of
    [turns]. *)
Fixpoint watch_loop (interval : Z) (turns : list turn) (last_snapshot_data : dict pyvalue)
  : run (dict pyvalue) :=
  match turns with
  | [] => ret last_snapshot_data
  | t :: rest =>
      bind (sleep interval) (fun _ =>
      bind (watch_iteration t last_snapshot_data) (watch_loop interval rest))
  end.

(** [watch(interval, storage)], stopped from the keyboard: the loop
    makes the turns of [turns], and [KeyboardInterrupt] arrives in the
    [time.sleep] that follows them.  Printing is taken not to fail. *)
Definition watch (interval : Z) (now : Q) (turns : list turn) : run unit :=
  bind (show (info_message
                ("Starting continuous monitoring (interval: " ++ int_str interval ++ "s)")))
       (fun _ =>
  bind (show (info_message "Press Ctrl+C to stop")) (fun _ =>
  try_except
    (bind (watch_baseline now) (fun initial_data =>
     bind (watch_loop interval turns initial_data) (fun _ =>
     bind (sleep interval) (fun _ =>
     show (info_message "Monitoring stopped")))))
    (fun e =>
       bind (show (error_message ("Watch failed: " ++ e)))
            (fun _ => sys_exit 1)))).

End Watch.

End Machine.

Arguments table {World} m.
Arguments faults {World} m.
Arguments world {World} m.

(** No fault among the next [n] calls of the store. *)
Definition no_fault (n : nat) (coming : list (option string)) : bool :=
  forallb (fun f => match f with None => true | Some _ => false end) (firstn n coming).

End Commands.

(* ===================================================================== *)
(** * Part II: lemmas and theorems                                        *)
(* ===================================================================== *)

(** ** Facts about the data *)

Module PyFacts.

(** Induction over a value and, through its lists, over the values it
    holds. *)
Lemma pyvalue_ind (P : pyvalue -> Prop)
  (HNone : P PNone)
  (HBool : forall b, P (PBool b))
  (HInt : forall n, P (PInt n))
  (HFloat : forall x, P (PFloat x))
  (HInfinity : forall negative, P (PInfinity negative))
  (HStr : forall s, P (PStr s))
  (HList : forall items, Forall P items -> P (PList items))
  (HDict : forall entries, Forall (fun e => P (snd e)) entries -> P (PDict entries)) :
  forall v, P v.
Proof.
  exact (fix go (v : pyvalue) : P v :=
    match v with
    | PNone => HNone
    | PBool b => HBool b
    | PInt n => HInt n
    | PFloat x => HFloat x
    | PInfinity negative => HInfinity negative
    | PStr s => HStr s
    | PList items =>
        HList items
          ((fix go_list (l : list pyvalue) : Forall P l :=
              match l with
              | [] => Forall_nil P
              | x :: l' => Forall_cons x (go x) (go_list l')
              end) items)
    | PDict entries =>
        HDict entries
          ((fix go_entries (l : list (string * pyvalue)) : Forall (fun e => P (snd e)) l :=
              match l with
              | [] => Forall_nil _
              | e :: l' => Forall_cons e (go (snd e)) (go_entries l')
              end) entries)
    end).
Qed.

Section Dict.

Variable V : Type.

Implicit Types (d : dict V) (k : string) (v : V).

Lemma dict_mem_In k d : dict_mem k d = true <-> exists v, In (k, v) d.
Proof.
  unfold dict_mem. rewrite existsb_exists. split.
  - intros [[k' v] [Hin Heq]]. simpl in Heq. apply String.eqb_eq in Heq. subst.
    now exists v.
  - intros [v Hin]. exists (k, v). split; [assumption|]. simpl. apply String.eqb_refl.
Qed.

Lemma dict_get_In k v d : dict_get k d = Some v -> In (k, v) d.
Proof.
  induction d as [|[k' v'] d IH]; simpl; [discriminate|].
  destruct (String.eqb_spec k k') as [->|Hne].
  - intros [= ->]. now left.
  - intros H. right. now apply IH.
Qed.

Lemma dict_get_None k d : dict_get k d = None <-> dict_mem k d = false.
Proof.
  unfold dict_mem. induction d as [|[k' v'] d IH]; simpl; [tauto|].
  destruct (String.eqb_spec k k'); simpl; [split; discriminate | exact IH].
Qed.

Lemma dict_get_mem k v d : dict_get k d = Some v -> dict_mem k d = true.
Proof.
  intros H. apply dict_mem_In. exists v. now apply dict_get_In.
Qed.

Lemma dict_wf_get k v d : dict_wf d = true -> In (k, v) d -> dict_get k d = Some v.
Proof.
  induction d as [|[k' v'] d IH]; simpl; [easy|].
  intros Hwf Hin. apply andb_true_iff in Hwf as [Hfresh Hwf].
  destruct Hin as [[= -> ->]|Hin].
  - now rewrite String.eqb_refl.
  - destruct (String.eqb_spec k k') as [->|Hne]; [|now apply IH].
    apply negb_true_iff in Hfresh.
    assert (dict_mem k' d = true) by (apply dict_mem_In; now exists v).
    congruence.
Qed.

Lemma dict_get_set_same k v d : dict_get k (dict_set k v d) = Some v.
Proof.
  induction d as [|[k' v'] d IH]; simpl.
  - now rewrite String.eqb_refl.
  - destruct (String.eqb_spec k k') as [->|Hne]; simpl.
    + now rewrite String.eqb_refl.
    + destruct (String.eqb_spec k k'); [contradiction | exact IH].
Qed.

Lemma dict_get_set_other k k' v d : k <> k' -> dict_get k (dict_set k' v d) = dict_get k d.
Proof.
  intros Hne. induction d as [|[k0 v0] d IH]; simpl.
  - destruct (String.eqb_spec k k'); [contradiction | reflexivity].
  - destruct (String.eqb_spec k' k0) as [->|Hne0]; simpl.
    + destruct (String.eqb_spec k k0); [contradiction | reflexivity].
    + destruct (String.eqb_spec k k0); [reflexivity | exact IH].
Qed.

Lemma dict_mem_get k d : dict_mem k d = true <-> exists v, dict_get k d = Some v.
Proof.
  split.
  - intros H. destruct (dict_get k d) eqn:E; [now eexists|].
    apply dict_get_None in E. congruence.
  - intros [v H]. now apply dict_get_mem in H.
Qed.

Lemma dict_mem_set_same k v d : dict_mem k (dict_set k v d) = true.
Proof. apply dict_mem_get. exists v. apply dict_get_set_same. Qed.

Lemma dict_mem_set_mono k k' v d : dict_mem k d = true -> dict_mem k (dict_set k' v d) = true.
Proof.
  intros H. destruct (string_dec k k') as [->|Hne].
  - apply dict_mem_set_same.
  - apply dict_mem_get. rewrite dict_get_set_other by assumption. now apply dict_mem_get.
Qed.

Lemma dict_set_fresh k v d : dict_mem k d = false -> dict_set k v d = d ++ [(k, v)].
Proof.
  unfold dict_mem. induction d as [|[k' v'] d IH]; simpl; [reflexivity|].
  destruct (String.eqb_spec k k'); simpl; [discriminate|].
  intros H. now rewrite IH.
Qed.

Lemma dict_mem_app k d d' : dict_mem k (d ++ d') = dict_mem k d || dict_mem k d'.
Proof. unfold dict_mem. apply existsb_app. Qed.

End Dict.

Arguments dict_mem_In {V}.
Arguments dict_get_In {V}.
Arguments dict_get_None {V}.
Arguments dict_get_mem {V}.
Arguments dict_wf_get {V}.
Arguments dict_get_set_same {V}.
Arguments dict_get_set_other {V}.
Arguments dict_mem_get {V}.
Arguments dict_mem_set_same {V}.
Arguments dict_mem_set_mono {V}.
Arguments dict_set_fresh {V}.
Arguments dict_mem_app {V}.

End PyFacts.

(** ** Facts about the diff engine *)

Module DiffFacts.

Import DeepDiffLib SnapshotDiff PyFacts.

Section WithHeuristic.

Context {heuristic : PairHeuristic}.

Lemma same_hash_refl v : same_hash v v = true.
Proof.
  induction v as [| | | | | |items IH|entries IH] using pyvalue_ind; simpl.
  - reflexivity.
  - apply Bool.eqb_reflx.
  - apply Z.eqb_refl.
  - apply Qeq_bool_iff. reflexivity.
  - apply Bool.eqb_reflx.
  - apply String.eqb_refl.
  - assert (H : forallb (fun x => existsb (fun y => same_hash x y) items) items = true).
    { apply forallb_forall. intros x Hx. apply existsb_exists. exists x. split; [assumption|].
      rewrite Forall_forall in IH. now apply IH. }
    rewrite H. simpl. apply forallb_forall. intros y Hy. apply existsb_exists.
    exists y. split; [assumption|]. rewrite Forall_forall in IH. now apply IH.
  - rewrite Forall_forall in IH.
    assert (H : forall e, In e entries ->
              String.eqb (fst e) (fst e) && (let '(_, v1) := e in same_hash v1 (snd e)) = true).
    { intros [k v] Hin. simpl. rewrite String.eqb_refl. simpl. exact (IH _ Hin). }
    apply andb_true_iff. split; apply forallb_forall; intros e He; apply orb_true_iff; right;
      apply existsb_exists; exists e; (split; [assumption | now apply H]).
Qed.

Lemma create_hashtable_from_In i seen items n x :
  In (n, x) (create_hashtable_from i seen items) -> In x items.
Proof.
  revert i seen. induction items as [|y items IH]; simpl; intros i seen; [easy|].
  destruct (existsb (same_hash y) seen).
  - intros H. right. eapply IH; eassumption.
  - intros [[= _ ->]|H]; [now left | right; eapply IH; eassumption].
Qed.

Lemma hashes_only_in_same items : hashes_only_in items items = [].
Proof.
  unfold hashes_only_in, create_hashtable.
  assert (H : forall e, In e (create_hashtable_from 0 [] items) ->
            negb (existsb (same_hash (snd e)) items) = false).
  { intros [n x] Hin. simpl. apply negb_false_iff. apply existsb_exists. exists x.
    split; [eapply create_hashtable_from_In; eassumption | apply same_hash_refl]. }
  induction (create_hashtable_from 0 [] items) as [|e l IH]; simpl; [reflexivity|].
  rewrite (H e) by now left. apply IH. intros e' He'. apply H. now right.
Qed.

(** The comparison of two mappings: one changed value when they are
    too far apart, else the keys only one of them has, then the keys
    they share. *)
Lemma diff_level_dict_cases path m1 m2 :
  diff_level path (PDict m1) (PDict m2)
  = if too_far_apart m1 m2 then report_values_changed path (PDict m1) (PDict m2)
    else merge (report_dict_items path m1 m2) (diff_common path m1 m2).
Proof.
  simpl. destruct (too_far_apart m1 m2); [reflexivity|].
  f_equal. induction m2 as [|[k v2] rest IH]; simpl; [reflexivity|].
  now rewrite IH.
Qed.

Lemma diff_level_dict path m1 m2 :
  too_far_apart m1 m2 = false ->
  diff_level path (PDict m1) (PDict m2)
  = merge (report_dict_items path m1 m2) (diff_common path m1 m2).
Proof. intros H. now rewrite diff_level_dict_cases, H. Qed.

Lemma diff_level_dict_apart path m1 m2 :
  too_far_apart m1 m2 = true ->
  diff_level path (PDict m1) (PDict m2) = report_values_changed path (PDict m1) (PDict m2).
Proof. intros H. now rewrite diff_level_dict_cases, H. Qed.

Lemma filter_all_true {A : Type} (f : A -> bool) l :
  (forall x, In x l -> f x = true) -> filter f l = l.
Proof.
  induction l as [|a l IH]; intros H; simpl; [reflexivity|].
  rewrite (H a (or_introl eq_refl)). f_equal. apply IH. intros x Hx. apply H. now right.
Qed.

Lemma filter_all_false {A : Type} (f : A -> bool) l :
  (forall x, In x l -> f x = false) -> filter f l = [].
Proof.
  induction l as [|a l IH]; intros H; simpl; [reflexivity|].
  rewrite (H a (or_introl eq_refl)). apply IH. intros x Hx. apply H. now right.
Qed.

Lemma public_keys_mem m k : In k (public_keys m) -> dict_mem k m = true.
Proof.
  unfold public_keys, dict_keys. intros H. apply filter_In in H as [H _].
  apply in_map_iff in H as ([k' v] & <- & Hin). apply dict_mem_In. now exists v.
Qed.

(** A mapping is not too far apart from itself. *)
Lemma too_far_apart_same m : too_far_apart m m = false.
Proof.
  unfold too_far_apart. cbv zeta.
  rewrite (filter_all_true (fun k => dict_mem k m)) by apply public_keys_mem.
  rewrite (filter_all_false (fun k => negb (dict_mem k m)))
    by (intros k Hk; now rewrite (public_keys_mem m k Hk)).
  simpl List.length. rewrite Nat.add_0_r.
  apply andb_false_iff. right. apply Nat.ltb_ge. lia.
Qed.

Lemma keys_only_in_same path m : keys_only_in path m m = [].
Proof.
  unfold keys_only_in.
  rewrite filter_all_false; [reflexivity|].
  intros [k v] Hin. simpl.
  assert (E : dict_mem k m = true) by (apply dict_mem_In; now exists v).
  rewrite E. apply andb_false_r.
Qed.

Lemma merge_no_diff_l r : merge no_diff r = r.
Proof. now destruct r. Qed.

(** A well-formed value does not differ from itself. *)
Lemma diff_level_same v : forall path, value_wf v = true -> diff_level path v v = no_diff.
Proof.
  induction v as [| | | | | |items IH|entries IH] using pyvalue_ind; intros path Hwf.
  - reflexivity.
  - simpl. now rewrite Bool.eqb_reflx.
  - simpl. now rewrite Z.eqb_refl.
  - simpl. assert (E : Qeq_bool x x = true) by (apply Qeq_bool_iff; reflexivity). now rewrite E.
  - simpl. now rewrite Bool.eqb_reflx.
  - simpl. now rewrite String.eqb_refl.
  - simpl. unfold diff_iterable_with_deephash. now rewrite hashes_only_in_same.
  - rewrite diff_level_dict by apply too_far_apart_same.
    unfold report_dict_items. rewrite keys_only_in_same.
    simpl in Hwf. apply andb_true_iff in Hwf as [Hkeys Hvals].
    rewrite forallb_forall in Hvals. rewrite Forall_forall in IH.
    assert (H : forall es, incl es entries -> diff_common path entries es = no_diff).
    { induction es as [|[k v2] rest IHes]; intros Hincl; simpl; [reflexivity|].
      assert (Hrest : diff_common path entries rest = no_diff)
        by (apply IHes; intros e He; apply Hincl; now right).
      destruct (is_private k); [exact Hrest|].
      assert (Hin : In (k, v2) entries) by (apply Hincl; now left).
      rewrite (dict_wf_get k v2 entries Hkeys Hin).
      rewrite (IH (k, v2) Hin) by exact (Hvals (k, v2) Hin).
      rewrite merge_no_diff_l. exact Hrest. }
    rewrite H by apply incl_refl. reflexivity.
Qed.

Lemma compare_collector_data_same v :
  value_wf v = true -> _compare_collector_data v v = empty_result.
Proof.
  intros Hwf. unfold _compare_collector_data, DeepDiff. now rewrite diff_level_same.
Qed.

Lemma compare_loop_other snapshot1 snapshot2 name names acc :
  ~ In name names ->
  dict_get name (fold_left (compare_step snapshot1 snapshot2) names acc) = dict_get name acc.
Proof.
  revert acc. induction names as [|n names IH]; intros acc Hnin; simpl; [reflexivity|].
  rewrite IH by (intros H; apply Hnin; now right).
  unfold compare_step. destruct (nonempty_result _); [|reflexivity].
  apply dict_get_set_other. intros ->. apply Hnin. now left.
Qed.

(** What the loop of [compare] leaves under a category name: the result
    for that category when it is not empty. *)
Lemma compare_loop_get snapshot1 snapshot2 name names acc :
  NoDup names -> In name names ->
  dict_get name (fold_left (compare_step snapshot1 snapshot2) names acc)
  = let r := _compare_collector_data
               (dict_get_default name (PDict []) snapshot1)
               (dict_get_default name (PDict []) snapshot2) in
    if nonempty_result r then Some r else dict_get name acc.
Proof.
  revert acc. induction names as [|n names IH]; intros acc Hnd Hin; simpl; [easy|].
  inversion Hnd as [|? ? Hnotin Hnd']; subst.
  destruct (string_dec n name) as [->|Hne].
  - rewrite compare_loop_other by assumption.
    unfold compare_step. destruct (nonempty_result _); [apply dict_get_set_same | reflexivity].
  - destruct Hin as [->|Hin]; [contradiction|].
    rewrite IH by assumption. simpl.
    destruct (nonempty_result (_compare_collector_data
                (dict_get_default name (PDict []) snapshot1) _)); [reflexivity|].
    unfold compare_step. destruct (nonempty_result _); [|reflexivity].
    apply dict_get_set_other. congruence.
Qed.

Lemma compare_get snapshot1 snapshot2 name :
  dict_mem name snapshot1 || dict_mem name snapshot2 = true ->
  dict_get name (compare snapshot1 snapshot2)
  = let r := _compare_collector_data
               (dict_get_default name (PDict []) snapshot1)
               (dict_get_default name (PDict []) snapshot2) in
    if nonempty_result r then Some r else None.
Proof.
  intros Hmem. unfold compare. rewrite compare_loop_get; [reflexivity | apply NoDup_nodup |].
  unfold collector_names. apply nodup_In. apply in_app_iff.
  apply orb_true_iff in Hmem as [H|H]; apply dict_mem_In in H as [v Hv];
    [left | right]; unfold dict_keys; change name with (fst (name, v)); now apply in_map.
Qed.

End WithHeuristic.

End DiffFacts.

(** ** Cleaning the path of a simple key *)

Module PathFacts.

Import DeepDiffLib SnapshotDiff Samples.

Lemma append_assoc (a b c : string) : ((a ++ b) ++ c)%string = (a ++ (b ++ c))%string.
Proof. induction a as [|x a IH]; simpl; [reflexivity | now rewrite IH]. Qed.

Lemma has_char_append c a b : has_char c (a ++ b) = has_char c a || has_char c b.
Proof.
  induction a as [|x a IH]; simpl; [reflexivity|]. rewrite IH. now rewrite orb_assoc.
Qed.

Lemma prefix_has_char c p s :
  String.prefix p s = true -> has_char c p = true -> has_char c s = true.
Proof.
  revert s. induction p as [|a p IH]; intros s; [discriminate|].
  destruct s as [|b s]; [discriminate|].
  change (String.prefix (String a p) (String b s))
    with (if ascii_dec a b then String.prefix p s else false).
  destruct (ascii_dec a b) as [->|]; [|discriminate].
  intros Hp Hc. simpl in Hc |- *. apply orb_true_iff in Hc as [Hc|Hc].
  - now rewrite Hc.
  - rewrite (IH s Hp Hc). apply orb_true_r.
Qed.

Lemma prefix_head a p b s :
  String.prefix (String a p) (String b s)
  = if ascii_dec a b then String.prefix p s else false.
Proof. reflexivity. Qed.

Lemma prefix_app p x : String.prefix p (p ++ x) = true.
Proof.
  induction p as [|a p IH]; [now destruct x|].
  change (String a p ++ x)%string with (String a (p ++ x)). rewrite prefix_head.
  destruct (ascii_dec a a); [exact IH | contradiction].
Qed.

Lemma remove_from_head pat c s :
  remove_from pat 0 (String c s)
  = if String.prefix pat (String c s)
    then remove_from pat (String.length pat - 1) s
    else String c (remove_from pat 0 s).
Proof. reflexivity. Qed.

(** Nothing is dropped from a string that lacks a character of the
    pattern. *)
Lemma str_remove_absent c pat s :
  has_char c pat = true -> has_char c s = false -> str_remove pat s = s.
Proof.
  intros Hpat. unfold str_remove. induction s as [|x s IH]; intros Hs; [reflexivity|].
  rewrite remove_from_head.
  destruct (String.prefix pat (String x s)) eqn:E.
  - rewrite (prefix_has_char c _ _ E Hpat) in Hs. discriminate.
  - simpl in Hs. apply orb_false_iff in Hs as [_ Hs]. now rewrite IH.
Qed.

Lemma str_remove_closing k :
  has_char squote k = false -> str_remove "']" (k ++ "']") = k.
Proof.
  unfold str_remove. induction k as [|x k IH]; intros Hk; [reflexivity|].
  cbn [has_char] in Hk. apply orb_false_iff in Hk as [Hx Hk].
  change ((String x k ++ "']")%string) with (String x (k ++ "']")).
  rewrite remove_from_head.
  assert (E : String.prefix "']" (String x (k ++ "']")) = false).
  { change "']" with (String squote "]"). rewrite prefix_head.
    destruct (ascii_dec squote x) as [E|]; [|reflexivity].
    apply Ascii.eqb_neq in Hx. contradiction. }
  rewrite E. now rewrite IH.
Qed.

Lemma path_str_key k :
  has_char squote k = false -> path_str [SKey k] = ("root['" ++ k ++ "']")%string.
Proof.
  intros Hk. unfold path_str. cbn [map String.concat].
  unfold segment_str, stringify_element. rewrite Hk. cbn [append].
  now rewrite append_assoc.
Qed.

(** The path of a simple top-level key cleans to the key. *)
Lemma clean_key_simple k : simple_key k = true -> clean_key (path_str [SKey k]) = k.
Proof.
  unfold simple_key. intros H. apply andb_true_iff in H as [Hq Hb].
  apply negb_true_iff in Hq. apply negb_true_iff in Hb.
  rewrite path_str_key by assumption. unfold clean_key.
  assert (E : str_remove "root['" ("root['" ++ k ++ "']") = (k ++ "']")%string).
  { unfold str_remove.
    change ("root['" ++ k ++ "']")%string with (String "r" ("oot['" ++ k ++ "']")).
    rewrite remove_from_head.
    change (String "r" ("oot['" ++ k ++ "']")) with ("root['" ++ k ++ "']")%string.
    rewrite prefix_app.
    change (remove_from "root['" (String.length "root['" - 1) ("oot['" ++ k ++ "']"))
      with (str_remove "root['" (k ++ "']")).
    apply (str_remove_absent "["); [reflexivity|].
    rewrite has_char_append, Hb. reflexivity. }
  rewrite E. now apply str_remove_closing.
Qed.

Lemma clean_path_simple k : simple_key k = true -> clean_path (path_str [SKey k]) = k.
Proof.
  intros H. change (clean_path (path_str [SKey k]))
    with (str_remove "'" (clean_key (path_str [SKey k]))).
  rewrite clean_key_simple by assumption.
  apply (str_remove_absent squote); [reflexivity|].
  unfold simple_key in H. apply andb_true_iff in H as [Hq _]. now apply negb_true_iff in Hq.
Qed.

End PathFacts.

(** ** What the diff engine reports *)

Module DiffReports.

Import DeepDiffLib SnapshotDiff PyFacts DiffFacts PathFacts Samples Shapes Fragments.

Lemma rekey_loop_mem {A B : Type} (clean : string -> string) (entry : A -> B)
  (table : dict A) (acc : dict B) p :
  dict_mem p table = true \/ dict_mem (clean p) acc = true ->
  dict_mem (clean p)
    (fold_left (fun acc e => dict_set (clean (fst e)) (entry (snd e)) acc) table acc) = true.
Proof.
  revert acc. induction table as [|[q x] table IH]; intros acc H; simpl.
  - destruct H as [H|H]; [discriminate | assumption].
  - apply IH. destruct H as [H|H].
    + unfold dict_mem in H. simpl in H. apply orb_true_iff in H as [H|H].
      * apply String.eqb_eq in H. subst q. right. apply dict_mem_set_same.
      * now left.
    + right. now apply dict_mem_set_mono.
Qed.

(** Every key of a table is found, cleaned, in the rebuilt table. *)
Lemma rekey_mem {A B : Type} (clean : string -> string) (entry : A -> B) (table : dict A) p :
  dict_mem p table = true -> dict_mem (clean p) (rekey clean entry table) = true.
Proof. intros H. unfold rekey. apply rekey_loop_mem. now left. Qed.

Lemma rekey_loop_lookup_none {A B : Type} (clean : string -> string) (entry : A -> B)
  (table : dict A) (acc : dict B) k :
  (forall p x, In (p, x) table -> clean p <> k) ->
  dict_get k (fold_left (fun acc e => dict_set (clean (fst e)) (entry (snd e)) acc) table acc)
  = dict_get k acc.
Proof.
  revert acc. induction table as [|[p x] table IH]; intros acc H; simpl; [reflexivity|].
  rewrite IH by (intros q y Hq; apply (H q y); now right).
  apply dict_get_set_other. intros E. apply (H p x); [now left | now symmetry].
Qed.

(** No key of the rebuilt table when no key of the table cleans to it. *)
Lemma rekey_lookup_none {A B : Type} (clean : string -> string) (entry : A -> B)
  (table : dict A) k :
  (forall p x, In (p, x) table -> clean p <> k) ->
  dict_get k (rekey clean entry table) = None.
Proof. intros H. unfold rekey. now rewrite rekey_loop_lookup_none. Qed.

Lemma rekey_loop_lookup_some {A B : Type} (clean : string -> string) (entry : A -> B)
  (table : dict A) (acc : dict B) k x :
  (forall p y, In (p, y) table -> clean p = k -> y = x) ->
  (exists p, In (p, x) table /\ clean p = k) \/ dict_get k acc = Some (entry x) ->
  dict_get k (fold_left (fun acc e => dict_set (clean (fst e)) (entry (snd e)) acc) table acc)
  = Some (entry x).
Proof.
  revert acc. induction table as [|[p y] table IH]; intros acc Hfun H; simpl.
  - destruct H as [(p & [] & _)|H]; exact H.
  - apply IH; [intros q z Hq; apply (Hfun q z); now right|].
    destruct (string_dec (clean p) k) as [E|E].
    + right. rewrite (Hfun p y (or_introl eq_refl) E). simpl. rewrite E.
      apply dict_get_set_same.
    + destruct H as [(q & [[= -> ->]|Hq] & Hk)|H].
      * contradiction.
      * left. now exists q.
      * right. simpl. rewrite dict_get_set_other by congruence. exact H.
Qed.

(** The entry of the rebuilt table under a cleaned key, when the keys
    that clean to it all hold one value. *)
Lemma rekey_lookup_some {A B : Type} (clean : string -> string) (entry : A -> B)
  (table : dict A) p x :
  In (p, x) table ->
  (forall q y, In (q, y) table -> clean q = clean p -> y = x) ->
  dict_get (clean p) (rekey clean entry table) = Some (entry x).
Proof.
  intros Hin Hfun. unfold rekey. apply rekey_loop_lookup_some; [assumption|].
  left. now exists p.
Qed.

Lemma member_get_if_reported {A B : Type} (clean : string -> string) (entry : A -> B)
  (table : dict A) k :
  member_get (if_reported table (rekey clean entry)) k = dict_get k (rekey clean entry table).
Proof. now destruct table. Qed.

Lemma member_true_mem {A : Type} k (l : dict A) :
  dict_mem k l = true -> member_true (Some l) = true.
Proof. now destruct l. Qed.

Lemma has_changes_get name r (diff : dict collector_diff) :
  dict_get name diff = Some r -> any_member r = true -> has_changes diff = true.
Proof.
  intros Hget Hany. apply dict_get_In in Hget. destruct diff as [|e diff]; [easy|].
  unfold has_changes. apply existsb_exists. exists r. split; [|assumption].
  unfold dict_values. change r with (snd (name, r)). now apply in_map.
Qed.

Lemma is_empty_tables r :
  is_empty r = true ->
  dictionary_item_added r = [] /\ dictionary_item_removed r = []
  /\ iterable_item_added r = [] /\ iterable_item_removed r = [].
Proof.
  unfold is_empty.
  destruct (type_changes r), (values_changed r), (dictionary_item_added r),
    (dictionary_item_removed r), (iterable_item_added r), (iterable_item_removed r);
    try discriminate. now repeat split.
Qed.

Lemma is_empty_changes r :
  is_empty r = true -> values_changed r = [] /\ type_changes r = [].
Proof.
  unfold is_empty. destruct (type_changes r), (values_changed r); try discriminate.
  now split.
Qed.

(** The keys that are compared, and the mappings without the others. *)
Lemma public_keys_In m k :
  In k (public_keys m) <-> is_private k = false /\ dict_mem k m = true.
Proof.
  unfold public_keys, dict_keys. rewrite filter_In, negb_true_iff, in_map_iff. split.
  - intros [([k' v] & <- & Hin) Hk]. split; [assumption|]. apply dict_mem_In. now exists v.
  - intros [Hk Hm]. apply dict_mem_In in Hm as [v Hin]. split; [|assumption]. now exists (k, v).
Qed.

Lemma dict_get_public k m :
  is_private k = false -> dict_get k (public_entries m) = dict_get k m.
Proof.
  intros Hk. unfold public_entries. induction m as [|[k' v] m IH]; simpl; [reflexivity|].
  destruct (is_private k') eqn:E; simpl.
  - destruct (String.eqb_spec k k') as [->|_]; [congruence | exact IH].
  - destruct (String.eqb k k'); [reflexivity | exact IH].
Qed.

Lemma dict_mem_public k m :
  is_private k = false -> dict_mem k (public_entries m) = dict_mem k m.
Proof.
  intros Hk.
  destruct (dict_get k m) as [v|] eqn:G.
  - rewrite (dict_get_mem _ _ _ G). apply (dict_get_mem k v). now rewrite dict_get_public.
  - apply dict_get_None in G as G'. rewrite G'. apply dict_get_None. now rewrite dict_get_public.
Qed.

Lemma public_keys_public m : public_keys (public_entries m) = public_keys m.
Proof.
  unfold public_keys, public_entries, dict_keys.
  induction m as [|[k v] m IH]; simpl; [reflexivity|].
  destruct (is_private k) eqn:E; simpl; rewrite ?E; simpl; now rewrite IH.
Qed.

Lemma public_entries_keys m : dict_keys (public_entries m) = public_keys m.
Proof.
  unfold public_keys, public_entries, dict_keys.
  induction m as [|[k v] m IH]; simpl; [reflexivity|].
  destruct (is_private k); simpl; now rewrite IH.
Qed.

Lemma too_far_apart_public m1 m2 :
  too_far_apart (public_entries m1) (public_entries m2) = too_far_apart m1 m2.
Proof.
  unfold too_far_apart. cbv zeta. rewrite !public_keys_public.
  rewrite (filter_ext_in (fun k => dict_mem k (public_entries m1)) (fun k => dict_mem k m1))
    by (intros k Hk; apply dict_mem_public; now apply public_keys_In in Hk).
  rewrite (filter_ext_in (fun k => negb (dict_mem k (public_entries m1)))
             (fun k => negb (dict_mem k m1)))
    by (intros k Hk; f_equal; apply dict_mem_public; now apply public_keys_In in Hk).
  reflexivity.
Qed.

Lemma keys_only_in_public path d other :
  keys_only_in path (public_entries d) (public_entries other) = keys_only_in path d other.
Proof.
  unfold keys_only_in, public_entries at 1. f_equal.
  induction d as [|[k v] d IH]; simpl; [reflexivity|].
  destruct (is_private k) eqn:E; simpl; [exact IH|].
  rewrite E, dict_mem_public by assumption. simpl.
  destruct (dict_mem k other); simpl; now rewrite IH.
Qed.

Lemma keys_only_in_entries path d other :
  keys_only_in path d other
  = map (fun e => (path_str (path ++ [SKey (fst e)]), snd e))
        (filter (fun e => negb (dict_mem (fst e) other)) (public_entries d)).
Proof.
  unfold keys_only_in, public_entries. f_equal.
  induction d as [|[k v] d IH]; simpl; [reflexivity|].
  destruct (is_private k); simpl; [exact IH|].
  destruct (dict_mem k other); simpl; now rewrite IH.
Qed.

(** Against the empty mapping, two or more compared keys are too far
    apart and fewer are not. *)
Lemma too_far_apart_empty m :
  too_far_apart m [] = (1 <? List.length (public_keys m))%nat
  /\ too_far_apart [] m = (1 <? List.length (public_keys m))%nat.
Proof.
  unfold too_far_apart. cbv zeta.
  change (public_keys []) with (@nil string). cbn [filter List.length].
  rewrite (filter_all_false (fun k => dict_mem k [])) by reflexivity.
  rewrite (filter_all_true (fun k => negb (dict_mem k []))) by reflexivity.
  cbn [List.length]. rewrite Nat.add_0_r, Nat.mul_0_r. cbn [Nat.add].
  assert (E : forall n, ((1 <? n) && (0 <? 33 * n))%nat = (1 <? n)%nat).
  { intros n. destruct (Nat.ltb_spec 1 n) as [H|H]; [|reflexivity].
    simpl andb. apply Nat.ltb_lt. lia. }
  now rewrite !E.
Qed.

Section WithHeuristic.

Context {heuristic : PairHeuristic}.

(** Values of different types are reported as a change of type. *)
Lemma diff_level_type_mismatch path t1 t2 :
  get_type t1 <> get_type t2 -> diff_level path t1 t2 = report_type_changes path t1 t2.
Proof.
  intros H. destruct t1, t2; try reflexivity; exfalso; apply H; reflexivity.
Qed.

Lemma diff_level_scalar path v1 v2 :
  is_scalar v2 = true ->
  diff_level path v1 v2
  = if pytype_eqb (get_type v1) (get_type v2)
    then if same_hash v1 v2 then no_diff else report_values_changed path v1 v2
    else report_type_changes path v1 v2.
Proof. intros H. destruct v1, v2; try discriminate; reflexivity. Qed.

Lemma diff_common_type_changes path m1 es2 k v1 v2 :
  is_private k = false ->
  In (k, v2) es2 -> dict_get k m1 = Some v1 -> get_type v1 <> get_type v2 ->
  dict_mem (path_str (path ++ [SKey k])) (type_changes (diff_common path m1 es2)) = true.
Proof.
  intros Hk Hin Hget Hty. induction es2 as [|[k' v'] rest IH]; [easy|].
  simpl. destruct Hin as [[= -> ->]|Hin].
  - rewrite Hk, Hget. rewrite diff_level_type_mismatch by assumption.
    simpl. unfold dict_mem. simpl. now rewrite String.eqb_refl.
  - specialize (IH Hin). destruct (is_private k'); [assumption|].
    destruct (dict_get k' m1); [|assumption].
    simpl. rewrite dict_mem_app, IH. apply orb_true_r.
Qed.

Lemma diff_common_empty_first path es2 : diff_common path [] es2 = no_diff.
Proof.
  induction es2 as [|[k v] rest IH]; simpl; [reflexivity|].
  destruct (is_private k); exact IH.
Qed.

Lemma diff_common_public path m1 es2 :
  diff_common path (public_entries m1) (public_entries es2) = diff_common path m1 es2.
Proof.
  unfold public_entries at 2. induction es2 as [|[k v2] rest IH]; simpl; [reflexivity|].
  destruct (is_private k) eqn:E; simpl; [exact IH|].
  rewrite E, dict_get_public by assumption. now rewrite IH.
Qed.

(** The keys that start with two underscores play no part in the
    comparison of two mappings that are compared key by key. *)
Lemma diff_level_public path m1 m2 :
  too_far_apart m1 m2 = false ->
  diff_level path (PDict (public_entries m1)) (PDict (public_entries m2))
  = diff_level path (PDict m1) (PDict m2).
Proof.
  intros H. rewrite !diff_level_dict by (rewrite ?too_far_apart_public; exact H).
  unfold report_dict_items. now rewrite !keys_only_in_public, diff_common_public.
Qed.

Lemma type_changed_reported a b p :
  dict_mem p (type_changes (DeepDiff a b)) = true ->
  exists l, type_changed (_compare_collector_data a b) = Some l
            /\ dict_mem (clean_path p) l = true.
Proof.
  intros H. unfold _compare_collector_data. cbv zeta.
  destruct (type_changes (DeepDiff a b)) as [|e l] eqn:E; [discriminate|].
  assert (Hne : is_empty (DeepDiff a b) = false) by (unfold is_empty; now rewrite E).
  rewrite Hne. cbn [type_changed if_reported].
  eexists. split; [reflexivity|].
  apply (rekey_mem clean_path type_changed_of (e :: l)). exact H.
Qed.

(** The member of a category result under a key, read in the table of
    the library. *)
Lemma member_get_added a b k :
  member_get (added (_compare_collector_data a b)) k
  = dict_get k (rekey clean_key (fun v => v) (dictionary_item_added (DeepDiff a b))).
Proof.
  unfold _compare_collector_data. cbv zeta.
  destruct (is_empty (DeepDiff a b)) eqn:E.
  - apply is_empty_tables in E as (-> & _). reflexivity.
  - cbn [added]. apply member_get_if_reported.
Qed.

Lemma member_get_removed a b k :
  member_get (removed (_compare_collector_data a b)) k
  = dict_get k (rekey clean_key (fun v => v) (dictionary_item_removed (DeepDiff a b))).
Proof.
  unfold _compare_collector_data. cbv zeta.
  destruct (is_empty (DeepDiff a b)) eqn:E.
  - apply is_empty_tables in E as (_ & -> & _). reflexivity.
  - cbn [removed]. apply member_get_if_reported.
Qed.

Lemma member_get_changed a b k :
  member_get (changed (_compare_collector_data a b)) k
  = dict_get k (rekey clean_path changed_of (values_changed (DeepDiff a b))).
Proof.
  unfold _compare_collector_data. cbv zeta.
  destruct (is_empty (DeepDiff a b)) eqn:E.
  - apply is_empty_changes in E as (-> & _). reflexivity.
  - cbn [changed]. apply member_get_if_reported.
Qed.

Lemma member_get_type_changed a b k :
  member_get (type_changed (_compare_collector_data a b)) k
  = dict_get k (rekey clean_path type_changed_of (type_changes (DeepDiff a b))).
Proof.
  unfold _compare_collector_data. cbv zeta.
  destruct (is_empty (DeepDiff a b)) eqn:E.
  - apply is_empty_changes in E as (_ & ->). reflexivity.
  - cbn [type_changed]. apply member_get_if_reported.
Qed.

(** Two mappings too far apart: the result is the single entry [root]
    of [changed], which holds the two mappings. *)
Lemma mappings_too_far_apart m1 m2 :
  too_far_apart m1 m2 = true ->
  _compare_collector_data (PDict m1) (PDict m2) = root_changed (PDict m1) (PDict m2).
Proof.
  intros H. unfold _compare_collector_data, DeepDiff. rewrite diff_level_dict_apart by exact H.
  reflexivity.
Qed.

(** The tables of the keys two mappings share, when the compared values
    of the second are scalars. *)
Lemma diff_common_scalars_items m1 es2 :
  (forall e, In e es2 -> is_private (fst e) = false -> is_scalar (snd e) = true) ->
  dictionary_item_added (diff_common [] m1 es2) = []
  /\ dictionary_item_removed (diff_common [] m1 es2) = []
  /\ iterable_item_added (diff_common [] m1 es2) = []
  /\ iterable_item_removed (diff_common [] m1 es2) = [].
Proof.
  induction es2 as [|[k v2] rest IH]; intros Hs; [now repeat split|].
  destruct IH as (Ia & Ir & Iia & Iir); [intros e He; apply Hs; now right|].
  simpl. destruct (is_private k) eqn:Ek; [now repeat split|].
  destruct (dict_get k m1) as [v1|]; [|now repeat split].
  rewrite diff_level_scalar by exact (Hs (k, v2) (or_introl eq_refl) Ek).
  destruct (pytype_eqb (get_type v1) (get_type v2)); [destruct (same_hash v1 v2)|];
    simpl; now repeat split.
Qed.

Lemma diff_common_scalars_changed m1 es2 p c :
  (forall e, In e es2 -> is_private (fst e) = false -> is_scalar (snd e) = true) ->
  In (p, c) (values_changed (diff_common [] m1 es2)) <->
  exists k v1 v2, In (k, v2) es2 /\ is_private k = false /\ dict_get k m1 = Some v1
    /\ pytype_eqb (get_type v1) (get_type v2) = true /\ same_hash v1 v2 = false
    /\ p = path_str [SKey k]
    /\ c = {| vc_old_value := v1; vc_new_value := v2 |}.
Proof.
  induction es2 as [|[k v2] rest IH]; intros Hs.
  - simpl. split; [intros [] | intros (k & v1 & v2 & [] & _)].
  - assert (Hrest : forall e, In e rest -> is_private (fst e) = false -> is_scalar (snd e) = true)
      by (intros e He; apply Hs; now right).
    specialize (IH Hrest).
    assert (Hlift : In (p, c) (values_changed (diff_common [] m1 rest)) ->
              exists k0 v1 v0, In (k0, v0) ((k, v2) :: rest) /\ is_private k0 = false
                /\ dict_get k0 m1 = Some v1
                /\ pytype_eqb (get_type v1) (get_type v0) = true /\ same_hash v1 v0 = false
                /\ p = path_str [SKey k0]
                /\ c = {| vc_old_value := v1; vc_new_value := v0 |}).
    { intros H. apply IH in H as (k' & a & b & Hin & H). exists k', a, b.
      split; [now right | exact H]. }
    simpl. destruct (is_private k) eqn:Ek.
    { split; [exact Hlift|].
      intros (k' & a & b & [[= -> ->]|Hin] & Ek' & Hrem); [congruence|].
      apply IH. exists k', a, b. now split. }
    destruct (dict_get k m1) as [v1|] eqn:G.
    + rewrite diff_level_scalar by exact (Hs (k, v2) (or_introl eq_refl) Ek).
      destruct (pytype_eqb (get_type v1) (get_type v2)) eqn:Et;
        [destruct (same_hash v1 v2) eqn:Eh|]; simpl; split.
      * exact Hlift.
      * intros (k' & a & b & [[= -> ->]|Hin] & Ek' & G' & Et' & Eh' & Hp & Hc).
        -- rewrite G in G'. injection G' as <-. congruence.
        -- apply IH. exists k', a, b. now repeat split.
      * intros [E|Hin]; [|now apply Hlift]. injection E as <- <-.
        exists k, v1, v2. repeat split; try assumption. now left.
      * intros (k' & a & b & [[= -> ->]|Hin] & Ek' & G' & Et' & Eh' & Hp & Hc).
        -- rewrite G in G'. injection G' as <-. left. now rewrite Hp, Hc.
        -- right. apply IH. exists k', a, b. now repeat split.
      * exact Hlift.
      * intros (k' & a & b & [[= -> ->]|Hin] & Ek' & G' & Et' & Eh' & Hp & Hc).
        -- rewrite G in G'. injection G' as <-. congruence.
        -- apply IH. exists k', a, b. now repeat split.
    + split; [exact Hlift|].
      intros (k' & a & b & [[= -> ->]|Hin] & Ek' & G' & Hrem); [congruence|].
      apply IH. exists k', a, b. now split.
Qed.

Lemma diff_common_scalars_type_changes m1 es2 p c :
  (forall e, In e es2 -> is_private (fst e) = false -> is_scalar (snd e) = true) ->
  In (p, c) (type_changes (diff_common [] m1 es2)) <->
  exists k v1 v2, In (k, v2) es2 /\ is_private k = false /\ dict_get k m1 = Some v1
    /\ pytype_eqb (get_type v1) (get_type v2) = false
    /\ p = path_str [SKey k]
    /\ c = {| tc_old_type := get_type v1; tc_new_type := get_type v2;
              tc_old_value := v1; tc_new_value := v2 |}.
Proof.
  induction es2 as [|[k v2] rest IH]; intros Hs.
  - simpl. split; [intros [] | intros (k & v1 & v2 & [] & _)].
  - assert (Hrest : forall e, In e rest -> is_private (fst e) = false -> is_scalar (snd e) = true)
      by (intros e He; apply Hs; now right).
    specialize (IH Hrest).
    assert (Hlift : In (p, c) (type_changes (diff_common [] m1 rest)) ->
              exists k0 v1 v0, In (k0, v0) ((k, v2) :: rest) /\ is_private k0 = false
                /\ dict_get k0 m1 = Some v1
                /\ pytype_eqb (get_type v1) (get_type v0) = false
                /\ p = path_str [SKey k0]
                /\ c = {| tc_old_type := get_type v1; tc_new_type := get_type v0;
                          tc_old_value := v1; tc_new_value := v0 |}).
    { intros H. apply IH in H as (k' & a & b & Hin & H). exists k', a, b.
      split; [now right | exact H]. }
    simpl. destruct (is_private k) eqn:Ek.
    { split; [exact Hlift|].
      intros (k' & a & b & [[= -> ->]|Hin] & Ek' & Hrem); [congruence|].
      apply IH. exists k', a, b. now split. }
    destruct (dict_get k m1) as [v1|] eqn:G.
    + rewrite diff_level_scalar by exact (Hs (k, v2) (or_introl eq_refl) Ek).
      destruct (pytype_eqb (get_type v1) (get_type v2)) eqn:Et;
        [destruct (same_hash v1 v2) eqn:Eh|]; simpl; split.
      * exact Hlift.
      * intros (k' & a & b & [[= -> ->]|Hin] & Ek' & G' & Et' & Hp & Hc).
        -- rewrite G in G'. injection G' as <-. congruence.
        -- apply IH. exists k', a, b. now repeat split.
      * exact Hlift.
      * intros (k' & a & b & [[= -> ->]|Hin] & Ek' & G' & Et' & Hp & Hc).
        -- rewrite G in G'. injection G' as <-. congruence.
        -- apply IH. exists k', a, b. now repeat split.
      * intros [E|Hin]; [|now apply Hlift]. injection E as <- <-.
        exists k, v1, v2. repeat split; try assumption. now left.
      * intros (k' & a & b & [[= -> ->]|Hin] & Ek' & G' & Et' & Hp & Hc).
        -- rewrite G in G'. injection G' as <-. left. now rewrite Hp, Hc.
        -- right. apply IH. exists k', a, b. now repeat split.
    + split; [exact Hlift|].
      intros (k' & a & b & [[= -> ->]|Hin] & Ek' & G' & Hrem); [congruence|].
      apply IH. exists k', a, b. now split.
Qed.

Lemma pytype_eqb_neq a b : pytype_eqb a b = false <-> a <> b.
Proof. destruct a, b; simpl; split; intros H; try congruence; try discriminate. Qed.

(** The entry of [type_changed] under a simple key whose values differ
    in type, when the second mapping has distinct keys and its compared
    keys are simple and hold scalars. *)
Lemma type_changed_entry m1 m2 k v1 v2 :
  too_far_apart m1 m2 = false -> is_private k = false ->
  dict_get k m1 = Some v1 -> dict_get k m2 = Some v2 -> get_type v1 <> get_type v2 ->
  dict_wf m2 = true ->
  (forall k' v', In (k', v') m2 -> is_private k' = false ->
     simple_key k' = true /\ is_scalar v' = true) ->
  member_get (type_changed (_compare_collector_data (PDict m1) (PDict m2))) k
  = Some {| old_type := type_str (get_type v1); new_type := type_str (get_type v2);
            old_value := v1; new_value := v2 |}.
Proof.
  intros Hfar Hk G1 G2 Hty Hwf Hflat.
  assert (Hs2 : forall e, In e m2 -> is_private (fst e) = false -> is_scalar (snd e) = true).
  { intros [k' v'] He Hp. now apply (Hflat k' v'). }
  pose proof (dict_get_In _ _ _ G2) as Hin2.
  destruct (Hflat k v2 Hin2 Hk) as [Hsimple _].
  rewrite member_get_type_changed. unfold DeepDiff. rewrite diff_level_dict by exact Hfar.
  cbn [merge type_changes report_dict_items app].
  rewrite <- (clean_path_simple k Hsimple) at 1.
  apply (rekey_lookup_some clean_path type_changed_of _ (path_str [SKey k])
           {| tc_old_type := get_type v1; tc_new_type := get_type v2;
              tc_old_value := v1; tc_new_value := v2 |}).
  - apply (diff_common_scalars_type_changes m1 m2 _ _ Hs2). exists k, v1, v2.
    repeat split; try assumption. now apply pytype_eqb_neq.
  - intros q y Hq Heq.
    apply (diff_common_scalars_type_changes m1 m2 _ _ Hs2) in Hq
      as (k' & a & b & Hin & Hp & Hget & _ & -> & ->).
    destruct (Hflat k' b Hin Hp) as [Hsimple' _].
    rewrite (clean_path_simple k' Hsimple'), (clean_path_simple k Hsimple) in Heq. subst k'.
    apply (dict_wf_get _ _ _ Hwf) in Hin. congruence.
Qed.

End WithHeuristic.

End DiffReports.

(** ** Claims about the diff engine *)

Module DiffClaims.

Import DeepDiffLib SnapshotDiff PyFacts DiffFacts PathFacts DiffReports Samples Shapes Fragments.

Section WithHeuristic.

Context {heuristic : PairHeuristic}.

Lemma compare_loop_same snapshot names :
  value_wf (PDict snapshot) = true ->
  fold_left (compare_step snapshot snapshot) names [] = [].
Proof.
  intros Hwf. induction names as [|n names IH]; simpl; [reflexivity|].
  assert (E : compare_step snapshot snapshot [] n = []); [|now rewrite E].
  unfold compare_step. rewrite compare_collector_data_same; [reflexivity|].
  unfold dict_get_default. destruct (dict_get n snapshot) as [v|] eqn:G; [|reflexivity].
  simpl in Hwf. apply andb_true_iff in Hwf as [_ Hvals]. rewrite forallb_forall in Hvals.
  exact (Hvals (n, v) (dict_get_In _ _ _ G)).
Qed.

(** C6 (identity).  Comparing a snapshot with an identical copy of
    itself yields the empty change set, and [has_changes] is false on
    it, whatever the snapshot holds. *)
Theorem compare_identical_is_empty snapshot :
  value_wf (PDict snapshot) = true ->
  compare snapshot snapshot = [] /\ has_changes (compare snapshot snapshot) = false.
Proof.
  intros Hwf. unfold compare. rewrite compare_loop_same by assumption. now split.
Qed.

(** A category that both snapshots hold is in the change set with the
    result of its comparison, when that result has a member. *)
Lemma compare_get_category category snapshot1 snapshot2 a b :
  dict_get category snapshot1 = Some a -> dict_get category snapshot2 = Some b ->
  dict_get category (compare snapshot1 snapshot2)
  = (let r := _compare_collector_data a b in if nonempty_result r then Some r else None).
Proof.
  intros C1 C2. rewrite compare_get by (now rewrite (dict_get_mem _ _ _ C1)).
  unfold dict_get_default. now rewrite C1, C2.
Qed.

Lemma any_member_nonempty r : any_member r = true -> nonempty_result r = true.
Proof.
  unfold any_member, nonempty_result, member_true.
  destruct (added r), (removed r), (changed r), (type_changed r), (items_added r),
    (items_removed r); try reflexivity. discriminate.
Qed.

(** C2, as the code has it.  A key holds numbers of different
    representation in the two fragments (an [int] in one, a [float] in
    the other), equal in value or not.  When the key does not start with
    two underscores and the two mappings are compared key by key, the
    category result has a [type_changed] entry under the cleaned path
    of that key, the key itself when it is simple, and [has_changes] is
    true; when, besides, the keys of the second mapping are distinct
    and its compared keys are simple and hold scalars, the entry under
    the key holds the two types and the two values.  When the two
    mappings are too far apart to be compared key by key, the result is
    the single entry [root] of [changed], which holds the two mappings,
    and [has_changes] is true.  When the key starts with two
    underscores, the value it holds plays no part: the result is that
    of the two mappings without such keys. *)
Theorem numeric_representation_change_is_reported category k m1 m2 v1 v2 snapshot1 snapshot2 :
  dict_get k m1 = Some v1 -> dict_get k m2 = Some v2 ->
  is_number v1 = true -> is_number v2 = true -> get_type v1 <> get_type v2 ->
  dict_get category snapshot1 = Some (PDict m1) ->
  dict_get category snapshot2 = Some (PDict m2) ->
  let r := _compare_collector_data (PDict m1) (PDict m2) in
  (is_private k = false -> too_far_apart m1 m2 = false ->
     (exists entries,
         type_changed r = Some entries
         /\ dict_mem (clean_path (path_str [SKey k])) entries = true
         /\ (simple_key k = true -> dict_mem k entries = true))
     /\ (dict_wf m2 = true ->
         (forall k' v', In (k', v') m2 -> is_private k' = false ->
            simple_key k' = true /\ is_scalar v' = true) ->
         member_get (type_changed r) k
         = Some {| old_type := type_str (get_type v1); new_type := type_str (get_type v2);
                   old_value := v1; new_value := v2 |})
     /\ any_member r = true
     /\ dict_get category (compare snapshot1 snapshot2) = Some r
     /\ has_changes (compare snapshot1 snapshot2) = true)
  /\ (too_far_apart m1 m2 = true ->
        r = root_changed (PDict m1) (PDict m2)
        /\ dict_get category (compare snapshot1 snapshot2) = Some r
        /\ has_changes (compare snapshot1 snapshot2) = true)
  /\ (is_private k = true -> too_far_apart m1 m2 = false ->
        r = _compare_collector_data (PDict (public_entries m1)) (PDict (public_entries m2))).
Proof.
  intros G1 G2 _ _ Hty C1 C2. cbv zeta.
  set (r := _compare_collector_data (PDict m1) (PDict m2)).
  pose proof (compare_get_category category snapshot1 snapshot2 _ _ C1 C2) as Hcat.
  cbv zeta in Hcat. fold r in Hcat.
  split; [|split].
  - intros Hk Hfar.
    assert (Hmem : dict_mem (path_str [SKey k])
                     (type_changes (DeepDiff (PDict m1) (PDict m2))) = true).
    { unfold DeepDiff. rewrite diff_level_dict by exact Hfar. simpl.
      apply (diff_common_type_changes [] m1 m2 k v1 v2); [assumption| |assumption..].
      now apply dict_get_In. }
    destruct (type_changed_reported _ _ _ Hmem) as [entries [E Hin]]. fold r in E.
    assert (Hany : any_member r = true).
    { unfold any_member. rewrite E. rewrite (member_true_mem _ _ Hin).
      now rewrite !orb_true_r. }
    assert (Hget : dict_get category (compare snapshot1 snapshot2) = Some r)
      by now rewrite Hcat, (any_member_nonempty r Hany).
    split; [|split; [|split; [assumption | split; [assumption|]]]].
    + exists entries. split; [assumption | split; [assumption|]].
      intros Hs. now rewrite <- (clean_path_simple k Hs).
    + intros Hwf Hflat. now apply type_changed_entry.
    + exact (has_changes_get _ _ _ Hget Hany).
  - intros Hfar. pose proof (mappings_too_far_apart m1 m2 Hfar) as E. fold r in E.
    assert (Hget : dict_get category (compare snapshot1 snapshot2) = Some r)
      by now rewrite Hcat, E.
    split; [exact E | split; [exact Hget|]].
    apply (has_changes_get _ _ _ Hget). now rewrite E.
  - intros Hk Hfar. unfold r, _compare_collector_data, DeepDiff.
    now rewrite diff_level_public.
Qed.

End WithHeuristic.

(** Witness of [numeric_representation_change_is_reported]: the scenario
    [cpu_percent: 10.0] against [cpu_percent: 10]. *)
Lemma numeric_representation_change_witness :
  let r := @_compare_collector_data never_pair (PDict system_float) (PDict system_int) in
  member_get (type_changed r) "cpu_percent"
  = Some {| old_type := "<class 'float'>"; new_type := "<class 'int'>";
            old_value := PFloat (10 # 1); new_value := PInt 10 |}
  /\ any_member r = true
  /\ dict_get "system"
       (@compare never_pair [("system", PDict system_float)] [("system", PDict system_int)])
     = Some r
  /\ has_changes
       (@compare never_pair [("system", PDict system_float)] [("system", PDict system_int)])
     = true.
Proof.
  assert (Hty : get_type (PFloat (10 # 1)) <> get_type (PInt 10)) by discriminate.
  destruct (proj1 (@numeric_representation_change_is_reported never_pair
                     "system" "cpu_percent" system_float system_int (PFloat (10 # 1)) (PInt 10)
                     [("system", PDict system_float)] [("system", PDict system_int)]
                     eq_refl eq_refl eq_refl eq_refl Hty eq_refl eq_refl) eq_refl eq_refl)
    as (_ & Hentry & Hany & Hget & Hchanges).
  cbv zeta. split; [|now repeat split].
  apply Hentry; [reflexivity|].
  intros k' v' [[= <- <-]|[]] _. now split.
Defined.

(** Witness of [compare_identical_is_empty]: the snapshot of
    [test_no_differences]. *)
Lemma compare_identical_witness :
  value_wf (PDict test_snapshot) = true
  /\ @compare never_pair test_snapshot test_snapshot = []
  /\ has_changes (@compare never_pair test_snapshot test_snapshot) = false.
Proof.
  split; [reflexivity|].
  apply (@compare_identical_is_empty never_pair test_snapshot). reflexivity.
Defined.

(** C2 fails on the code: [10.0] and [10] denote the same number, yet the
    category result has a [type_changed] entry for the key and
    [has_changes] is true. *)
Lemma equal_numbers_type_changed_counterexample :
  (exists x y, numeric_value (PFloat (10 # 1)) = Some x
               /\ numeric_value (PInt 10) = Some y /\ Qeq x y)
  /\ dict_get "cpu_percent" system_float = Some (PFloat (10 # 1))
  /\ dict_get "cpu_percent" system_int = Some (PInt 10)
  /\ type_changed (@_compare_collector_data never_pair (PDict system_float) (PDict system_int))
     = Some [("cpu_percent",
              {| old_type := "<class 'float'>"; new_type := "<class 'int'>";
                 old_value := PFloat (10 # 1); new_value := PInt 10 |})]
  /\ has_changes
       (@compare never_pair [("system", PDict system_float)] [("system", PDict system_int)])
     = true.
Proof.
  split; [|repeat split; reflexivity].
  exists (10 # 1)%Q, (inject_Z 10). repeat split; reflexivity.
Qed.

End DiffClaims.

(** ** A category that one snapshot lacks *)

Module AbsentCategory.

Import DeepDiffLib SnapshotDiff PyFacts DiffFacts PathFacts DiffReports Samples Shapes.

Lemma keys_only_in_empty path m :
  keys_only_in path m []
  = map (fun e => (path_str (path ++ [SKey (fst e)]), snd e)) (public_entries m).
Proof.
  rewrite keys_only_in_entries. f_equal. now apply filter_all_true.
Qed.

Lemma top_level_entries_mem m k :
  dict_mem k m = true -> dict_mem (clean_key (path_str [SKey k])) (top_level_entries m) = true.
Proof.
  intros H. unfold top_level_entries. apply rekey_mem.
  apply dict_mem_In in H as [v Hin]. apply dict_mem_In. exists v.
  change (path_str [SKey k], v)
    with ((fun e : string * pyvalue => (path_str [SKey (fst e)], snd e)) (k, v)).
  now apply in_map.
Qed.

Lemma public_entries_nil m : public_keys m = [] -> public_entries m = [].
Proof.
  rewrite <- public_entries_keys. unfold dict_keys. now destruct (public_entries m).
Qed.

Lemma few_keys_not_apart m :
  (List.length (public_keys m) <= 1)%nat ->
  too_far_apart m [] = false /\ too_far_apart [] m = false.
Proof.
  intros H. destruct (too_far_apart_empty m) as [-> ->].
  split; apply Nat.ltb_ge; exact H.
Qed.

Lemma many_keys_apart m :
  (2 <= List.length (public_keys m))%nat ->
  too_far_apart m [] = true /\ too_far_apart [] m = true.
Proof.
  intros H. destruct (too_far_apart_empty m) as [-> ->].
  split; apply Nat.ltb_lt; exact H.
Qed.

Section WithHeuristic.

Context {heuristic : PairHeuristic}.

(** A mapping of one compared key against the empty mapping: the key is
    removed. *)
Lemma mapping_vs_empty m :
  List.length (public_keys m) = 1%nat ->
  _compare_collector_data (PDict m) (PDict [])
  = only_removed (top_level_entries (public_entries m)).
Proof.
  intros Hone. unfold _compare_collector_data, DeepDiff.
  rewrite diff_level_dict by (apply few_keys_not_apart; lia).
  unfold report_dict_items. rewrite keys_only_in_empty.
  rewrite <- public_entries_keys in Hone. unfold dict_keys in Hone.
  destruct (public_entries m) as [|e es]; [discriminate|].
  unfold only_removed, top_level_entries. simpl. now rewrite List.app_nil_r.
Qed.

(** The empty mapping against a mapping of one compared key: the key is
    added. *)
Lemma empty_vs_mapping m :
  List.length (public_keys m) = 1%nat ->
  _compare_collector_data (PDict []) (PDict m)
  = only_added (top_level_entries (public_entries m)).
Proof.
  intros Hone. unfold _compare_collector_data, DeepDiff.
  rewrite diff_level_dict by (apply few_keys_not_apart; lia).
  rewrite diff_common_empty_first.
  unfold report_dict_items. rewrite keys_only_in_empty.
  rewrite <- public_entries_keys in Hone. unfold dict_keys in Hone.
  destruct (public_entries m) as [|e es]; [discriminate|].
  unfold only_added, top_level_entries. simpl. now rewrite List.app_nil_r.
Qed.

(** A mapping without a compared key does not differ from the empty
    mapping. *)
Lemma no_key_vs_empty m :
  public_keys m = [] ->
  _compare_collector_data (PDict m) (PDict []) = empty_result
  /\ _compare_collector_data (PDict []) (PDict m) = empty_result.
Proof.
  intros Hnone.
  assert (Hlen : (List.length (public_keys m) <= 1)%nat) by (rewrite Hnone; simpl; lia).
  destruct (few_keys_not_apart m Hlen) as [F1 F2].
  unfold _compare_collector_data, DeepDiff.
  rewrite !diff_level_dict by assumption. rewrite diff_common_empty_first.
  unfold report_dict_items. rewrite !keys_only_in_empty, (public_entries_nil m Hnone).
  split; reflexivity.
Qed.

(** A value of another type against the empty mapping, and the reverse:
    one change of type at the root. *)
Lemma other_type_vs_empty v :
  get_type v <> dict_t ->
  _compare_collector_data v (PDict []) = root_type_changed v (PDict [])
  /\ _compare_collector_data (PDict []) v = root_type_changed (PDict []) v.
Proof.
  intros Hty. unfold _compare_collector_data, DeepDiff.
  rewrite !diff_level_type_mismatch by (simpl; congruence). split; reflexivity.
Qed.

(** C4, as the code has it.  A category that one snapshot has and the
    other lacks is compared with the empty mapping, whatever the kind of
    the fragment.  Of a mapping fragment the keys that start with two
    underscores are not compared.  With one compared key, that key is
    reported as removed (added, when the second snapshot is the one that
    has the category), under the cleaned path of the key, the key itself
    when it is simple.  With two compared keys or more, the fragment is
    reported whole, as the single entry [root] of [changed], and no key
    is listed.  With no compared key nothing is reported and the
    category is not in the change set.  A fragment of any other kind, a
    sequence included, is reported as one change of type at the root,
    and none of its items is listed. *)
Theorem absent_category_is_compared_with_empty_mapping present absent name v :
  dict_get name present = Some v -> dict_get name absent = None ->
  dict_get name (compare present absent)
  = (let r := _compare_collector_data v (PDict []) in
     if nonempty_result r then Some r else None)
  /\ dict_get name (compare absent present)
     = (let r := _compare_collector_data (PDict []) v in
        if nonempty_result r then Some r else None)
  /\ (forall m, v = PDict m ->
        (List.length (public_keys m) = 1%nat ->
           _compare_collector_data v (PDict [])
           = only_removed (top_level_entries (public_entries m))
           /\ _compare_collector_data (PDict []) v
              = only_added (top_level_entries (public_entries m))
           /\ forall k, In k (public_keys m) ->
                dict_mem (clean_key (path_str [SKey k])) (top_level_entries (public_entries m))
                = true
                /\ (simple_key k = true ->
                    dict_mem k (top_level_entries (public_entries m)) = true))
        /\ ((2 <= List.length (public_keys m))%nat ->
              _compare_collector_data v (PDict []) = root_changed v (PDict [])
              /\ _compare_collector_data (PDict []) v = root_changed (PDict []) v)
        /\ (public_keys m = [] ->
              dict_get name (compare present absent) = None
              /\ dict_get name (compare absent present) = None))
  /\ (get_type v <> dict_t ->
        _compare_collector_data v (PDict []) = root_type_changed v (PDict [])
        /\ _compare_collector_data (PDict []) v = root_type_changed (PDict []) v).
Proof.
  intros Hp Ha.
  assert (Hmem : dict_mem name present = true) by exact (dict_get_mem _ _ _ Hp).
  assert (H1 : dict_get name (compare present absent)
               = (let r := _compare_collector_data v (PDict []) in
                  if nonempty_result r then Some r else None)).
  { rewrite compare_get by (now rewrite Hmem). unfold dict_get_default. now rewrite Hp, Ha. }
  assert (H2 : dict_get name (compare absent present)
               = (let r := _compare_collector_data (PDict []) v in
                  if nonempty_result r then Some r else None)).
  { rewrite compare_get by (rewrite Hmem; apply orb_true_r).
    unfold dict_get_default. now rewrite Hp, Ha. }
  split; [exact H1 | split; [exact H2 | split]].
  - intros m ->. split; [|split].
    + intros Hone. split; [now apply mapping_vs_empty|].
      split; [now apply empty_vs_mapping|].
      intros k Hk.
      assert (Hk' : dict_mem k (public_entries m) = true).
      { apply public_keys_In in Hk as [Hpub Hin]. now rewrite dict_mem_public. }
      pose proof (top_level_entries_mem _ k Hk') as H. split; [exact H|].
      intros Hs. now rewrite <- (clean_key_simple k Hs).
    + intros Hmany. destruct (many_keys_apart m Hmany) as [F1 F2].
      split; now apply mappings_too_far_apart.
    + intros Hnone. destruct (no_key_vs_empty m Hnone) as [E1 E2].
      rewrite H1, H2. cbv zeta. rewrite E1, E2. now split.
  - apply other_type_vs_empty.
Qed.

End WithHeuristic.

(** Witness of [absent_category_is_compared_with_empty_mapping]: the
    snapshots of [test_missing_collector_data] and their category
    [env_vars], a mapping of one key. *)
Lemma absent_category_witness :
  dict_get "env_vars" (@compare never_pair env_vars_only processes_only)
  = Some (only_removed [("TEST", PStr "value")])
  /\ dict_get "env_vars" (@compare never_pair processes_only env_vars_only)
     = Some (only_added [("TEST", PStr "value")]).
Proof.
  destruct (@absent_category_is_compared_with_empty_mapping never_pair
              env_vars_only processes_only "env_vars" (PDict [("TEST", PStr "value")])
              eq_refl eq_refl) as (H1 & H2 & Hmapping & _).
  destruct (Hmapping _ eq_refl) as (Hone & _ & _).
  destruct (Hone eq_refl) as (E1 & E2 & _).
  cbv zeta in H1, H2. rewrite E1 in H1. rewrite E2 in H2.
  split; [exact H1 | exact H2].
Defined.

(** C4 fails on the code.  The category [processes], a sequence of one
    item that only the first snapshot has, is not reported item by item:
    [items_removed] is absent and the result is a single change of type
    at the root, from [list] to [dict].  And the category [system], a
    mapping of two keys that only the first snapshot has, is not
    reported key by key: [removed] is absent and the result is the
    single entry [root] of [changed]. *)
Lemma absent_sequence_counterexample :
  (dict_get "processes" processes_only = Some (PList [PDict [("pid", PInt 123)]])
   /\ dict_get "processes" env_vars_only = None
   /\ exists r,
        dict_get "processes" (@compare never_pair processes_only env_vars_only) = Some r
        /\ items_removed r = None
        /\ items_added r = None
        /\ type_changed r
           = Some [("root",
                    {| old_type := "<class 'list'>"; new_type := "<class 'dict'>";
                       old_value := PList [PDict [("pid", PInt 123)]];
                       new_value := PDict [] |})])
  /\ (let system := PDict [("cpu_percent", PInt 10); ("mem_percent", PInt 20)] in
      exists r,
        dict_get "system" (@compare never_pair [("system", system)] []) = Some r
        /\ removed r = None
        /\ added r = None
        /\ changed r = Some [("root", {| old := system; new := PDict [] |})]).
Proof.
  split.
  - split; [reflexivity|]. split; [reflexivity|].
    eexists. split; [reflexivity|]. repeat split; reflexivity.
  - cbv zeta. eexists. split; [reflexivity|]. repeat split; reflexivity.
Qed.

End AbsentCategory.

(** ** Claims about the store: lookup and listing *)

Module StorageClaims.

Import Json SnapshotStorage Samples.

Lemma fetchone_none s db :
  (forall r, In r db -> id r <> s /\ name r <> s) -> fetchone s db = None.
Proof.
  intros H. unfold fetchone. induction db as [|r db IH]; simpl; [reflexivity|].
  destruct (H r (or_introl eq_refl)) as [Hid Hname].
  unfold id_or_name at 1.
  apply String.eqb_neq in Hid. apply String.eqb_neq in Hname. rewrite Hid, Hname. simpl.
  apply IH. intros r' Hr'. apply H. now right.
Qed.

Lemma fetchone_some s db r :
  fetchone s db = Some r -> In r db /\ (id r = s \/ name r = s).
Proof.
  unfold fetchone. intros H. apply find_some in H as [Hin Hm]. split; [assumption|].
  unfold id_or_name in Hm. apply orb_true_iff in Hm as [Hm|Hm]; apply String.eqb_eq in Hm; tauto.
Qed.

(** The first row, in storage order, that matches by id or by name. *)
Lemma fetchone_first s before r after :
  (forall r', In r' before -> id r' <> s /\ name r' <> s) ->
  id r = s \/ name r = s ->
  fetchone s (before ++ r :: after) = Some r.
Proof.
  intros Hbefore Hr. unfold fetchone. induction before as [|r' before IH]; simpl.
  - assert (E : id_or_name s r = true); [|now rewrite E].
    unfold id_or_name. apply orb_true_iff.
    destruct Hr as [Hr|Hr]; [left | right]; now apply String.eqb_eq.
  - destruct (Hbefore r' (or_introl eq_refl)) as [Hid Hname].
    unfold id_or_name at 1.
    apply String.eqb_neq in Hid. apply String.eqb_neq in Hname. rewrite Hid, Hname. simpl.
    apply IH. intros r0 Hr0. apply Hbefore. now right.
Qed.


Section WithFloatText.

Context {float_text : FloatText}.





End WithFloatText.


Lemma name_clash_db_unique : unique_ids name_clash_db.
Proof.
  unfold unique_ids. vm_compute. repeat constructor; simpl; intuition discriminate.
Qed.



End StorageClaims.

(** ** Claims about the store: the time stamp of a save *)

Module ListingClaims.

Import Json SnapshotStorage Samples.

(** A row later than every row of the list sorts to the front. *)
Lemma order_latest_first (latest : row) rows tail :
  (forall r, In r rows -> (timestamp r < timestamp latest)%Q) ->
  fold_right insert_desc (latest :: tail) rows
  = latest :: fold_right insert_desc tail rows.
Proof.
  intros H. induction rows as [|r rows IH]; simpl; [reflexivity|].
  rewrite IH by (intros r' Hr'; apply H; now right). simpl.
  assert (E : Qle_bool (timestamp latest) (timestamp r) = false); [|now rewrite E].
  destruct (Qle_bool (timestamp latest) (timestamp r)) eqn:E; [|reflexivity].
  apply Qle_bool_iff in E. exfalso.
  exact (Qlt_not_le _ _ (H r (or_introl eq_refl)) E).
Qed.

Lemma order_by_timestamp_desc_latest (latest : row) rows :
  (forall r, In r rows -> (timestamp r < timestamp latest)%Q) ->
  order_by_timestamp_desc (rows ++ [latest]) = latest :: order_by_timestamp_desc rows.
Proof.
  intros H. unfold order_by_timestamp_desc. rewrite fold_right_app. simpl.
  now apply order_latest_first.
Qed.

(** Where a row goes in a list that is the join of two. *)
Lemma insert_desc_app r l1 l2 :
  insert_desc r (l1 ++ l2)
  = if existsb (fun r' => Qle_bool (timestamp r') (timestamp r)) l1
    then insert_desc r l1 ++ l2
    else l1 ++ insert_desc r l2.
Proof.
  induction l1 as [|a l1 IH]; simpl; [reflexivity|].
  destruct (Qle_bool (timestamp a) (timestamp r)); simpl; [reflexivity|].
  rewrite IH. now destruct (existsb _ l1).
Qed.

Lemma insert_desc_In r l x : In x (insert_desc r l) <-> x = r \/ In x l.
Proof.
  induction l as [|a l IH]; simpl; [intuition|].
  destruct (Qle_bool (timestamp a) (timestamp r)); simpl; [intuition|].
  rewrite IH. intuition.
Qed.

Lemma order_by_timestamp_desc_In rows x :
  In x (order_by_timestamp_desc rows) <-> In x rows.
Proof.
  unfold order_by_timestamp_desc. induction rows as [|r rows IH]; simpl; [reflexivity|].
  rewrite insert_desc_In, IH. intuition.
Qed.

(** The row saved last stands, in the listing, after the rows that are
    not earlier than it and before the rows that are not later. *)
Lemma order_by_timestamp_desc_last (latest : row) rows :
  exists ahead behind,
    order_by_timestamp_desc (rows ++ [latest]) = ahead ++ latest :: behind
    /\ order_by_timestamp_desc rows = ahead ++ behind
    /\ (forall r, In r ahead -> (timestamp latest <= timestamp r)%Q)
    /\ (forall r, In r behind -> (timestamp r < timestamp latest)%Q).
Proof.
  unfold order_by_timestamp_desc. rewrite fold_right_app. simpl.
  induction rows as [|r rows (ahead & behind & E1 & E2 & Hahead & Hbehind)]; simpl.
  - exists [], []. repeat split; intros r [].
  - rewrite E1, E2, !insert_desc_app.
    destruct (existsb (fun r' => Qle_bool (timestamp r') (timestamp r)) ahead) eqn:Ein.
    + exists (insert_desc r ahead), behind.
      split; [reflexivity|]. split; [reflexivity|]. split; [|assumption].
      intros x Hx. destruct (proj1 (insert_desc_In r ahead x) Hx) as [->|Hin];
        [|now apply Hahead].
      apply existsb_exists in Ein as (r' & Hr' & Hle). apply Qle_bool_iff in Hle.
      apply Qle_trans with (timestamp r'); [now apply Hahead | exact Hle].
    + simpl. destruct (Qle_bool (timestamp latest) (timestamp r)) eqn:Ele.
      * apply Qle_bool_iff in Ele. exists (ahead ++ [r]), behind.
        rewrite <- !List.app_assoc. simpl. split; [reflexivity|]. split.
        -- f_equal. destruct behind as [|b behind]; [reflexivity|]. simpl.
           assert (Hb : Qle_bool (timestamp b) (timestamp r) = true); [|now rewrite Hb].
           apply Qle_bool_iff. apply Qlt_le_weak.
           apply Qlt_le_trans with (timestamp latest); [apply Hbehind; now left | exact Ele].
        -- split; [|assumption].
           intros x Hx. apply in_app_iff in Hx as [Hx|[<-|[]]]; [now apply Hahead | exact Ele].
      * exists ahead, (insert_desc r behind). split; [reflexivity|]. split; [reflexivity|].
        split; [assumption|].
        intros x Hx. destruct (proj1 (insert_desc_In r behind x) Hx) as [->|Hin];
          [|now apply Hbehind].
        apply Qnot_le_lt. intros H. apply Qle_bool_iff in H. congruence.
Qed.

Section WithFloatText.

Context {float_text : FloatText}.

(** C10, as the code has it.  [save_snapshot] stamps the row with the
    clock reading of the save, whatever the data holds, and leaves a
    single row under the id.  In [list_snapshots] the record just
    saved, new or saved again, stands after the records whose time
    stamp is not earlier than the save and before the records whose
    time stamp is earlier, the other records keeping their listing.  So
    it is the first when every other record carries an earlier time
    stamp; a record stamped later, by a clock that has since stepped
    back, stays ahead of it. *)
Theorem save_snapshot_stamps_with_clock now snapshot_id name data db :
  let saved :=
    {| id := snapshot_id; name := name; timestamp := now; data := dumps (PDict data) |} in
  let others := filter (fun r => negb (String.eqb (id r) snapshot_id)) db in
  In saved (save_snapshot now snapshot_id name data db)
  /\ (forall r, In r (save_snapshot now snapshot_id name data db) ->
        id r = snapshot_id -> r = saved)
  /\ (exists ahead behind,
        list_snapshots (save_snapshot now snapshot_id name data db)
        = ahead ++ info_of saved :: behind
        /\ list_snapshots others = ahead ++ behind
        /\ (forall i, In i ahead -> (now <= info_timestamp i)%Q)
        /\ (forall i, In i behind -> (info_timestamp i < now)%Q))
  /\ ((forall r, In r db -> id r <> snapshot_id -> (timestamp r < now)%Q) ->
      list_snapshots (save_snapshot now snapshot_id name data db)
      = info_of saved :: list_snapshots others)
  /\ (forall r, In r db -> id r <> snapshot_id -> (now < timestamp r)%Q ->
      exists ahead behind,
        list_snapshots (save_snapshot now snapshot_id name data db)
        = ahead ++ info_of saved :: behind
        /\ In (info_of r) ahead).
Proof.
  cbv zeta. unfold save_snapshot.
  set (saved := {| id := snapshot_id; name := name; timestamp := now;
                   data := dumps (PDict data) |}).
  set (others := filter (fun r => negb (String.eqb (id r) snapshot_id)) db).
  destruct (order_by_timestamp_desc_last saved others)
    as (ahead & behind & E1 & E2 & Hahead & Hbehind).
  assert (Hlist : list_snapshots (others ++ [saved])
                  = map info_of ahead ++ info_of saved :: map info_of behind).
  { unfold list_snapshots. now rewrite E1, map_app. }
  split; [|split; [|split; [|split]]].
  - apply in_app_iff. right. now left.
  - intros r Hin Hid. apply in_app_iff in Hin as [Hin|[<-|[]]]; [|reflexivity].
    apply filter_In in Hin as [_ Hne]. apply negb_true_iff in Hne.
    apply String.eqb_neq in Hne. contradiction.
  - exists (map info_of ahead), (map info_of behind). split; [exact Hlist|]. split.
    + unfold list_snapshots. now rewrite E2, map_app.
    + split; intros i Hi; apply in_map_iff in Hi as (r & <- & Hr); simpl;
        [now apply Hahead | now apply Hbehind].
  - intros Hearlier. unfold list_snapshots. rewrite order_by_timestamp_desc_latest; [reflexivity|].
    intros r Hin. apply filter_In in Hin as [Hin Hne]. simpl.
    apply negb_true_iff in Hne. apply String.eqb_neq in Hne. now apply Hearlier.
  - intros r Hin Hid Hlater.
    exists (map info_of ahead), (map info_of behind). split; [exact Hlist|].
    apply in_map.
    assert (Hr : In r (order_by_timestamp_desc others)).
    { apply order_by_timestamp_desc_In.
      apply filter_In. split; [assumption|]. apply negb_true_iff. now apply String.eqb_neq. }
    rewrite E2 in Hr. apply in_app_iff in Hr as [Hr|Hr]; [assumption|].
    exfalso. apply (Qlt_irrefl now).
    apply Qlt_trans with (timestamp r); [exact Hlater | exact (Hbehind r Hr)].
Qed.

End WithFloatText.

(** [save_snapshot_stamps_with_clock] on the sample store: the record
    [a], saved at the instant 1, is saved again at the instant 3 with
    other data; it moves ahead of [b], saved at the instant 2. *)
Lemma save_snapshot_stamps_witness :
  (forall r, In r system_db -> id r <> "a" -> (timestamp r < 3)%Q)
  /\ list_snapshots (@save_snapshot integral_float_text 3 "a" "a"
                       [("timestamp", PInt 0)] system_db)
     = [{| info_id := "a"; info_name := "a"; info_timestamp := 3 |};
        {| info_id := "b"; info_name := "b"; info_timestamp := 2 |}]
  /\ list_snapshots system_db
     = [{| info_id := "b"; info_name := "b"; info_timestamp := 2 |};
        {| info_id := "a"; info_name := "a"; info_timestamp := 1 |}].
Proof.
  assert (H : forall r, In r system_db -> id r <> "a" -> (timestamp r < 3)%Q).
  { intros r [<-|[<-|[]]] Hid; [now elim Hid | reflexivity]. }
  split; [exact H|]. split; [|reflexivity].
  exact (proj1 (proj2 (proj2 (proj2 (@save_snapshot_stamps_with_clock integral_float_text
                                        3 "a" "a" [("timestamp", PInt 0)] system_db)))) H).
Defined.

(** C10 fails on the code when the clock does not advance.  [b] is saved
    at the clock reading 5, then [a], saved before it, is saved again at
    the clock reading 3, the clock having stepped back: the record saved
    again is stamped 3 and stays behind [b], a record saved earlier than
    this save.  It stays behind [b] as well when the two saves read the
    same time, 3. *)
Lemma resaved_record_is_not_ahead_counterexample :
  (let db := @save_snapshot integral_float_text 5 "b" "b" []
               (@save_snapshot integral_float_text 1 "a" "a" [] []) in
   list_snapshots db
   = [{| info_id := "b"; info_name := "b"; info_timestamp := 5 |};
      {| info_id := "a"; info_name := "a"; info_timestamp := 1 |}]
   /\ list_snapshots (@save_snapshot integral_float_text 3 "a" "a" [] db)
      = [{| info_id := "b"; info_name := "b"; info_timestamp := 5 |};
         {| info_id := "a"; info_name := "a"; info_timestamp := 3 |}])
  /\ (let db := @save_snapshot integral_float_text 3 "b" "b" []
                  (@save_snapshot integral_float_text 1 "a" "a" [] []) in
      list_snapshots (@save_snapshot integral_float_text 3 "a" "a" [] db)
      = [{| info_id := "b"; info_name := "b"; info_timestamp := 3 |};
         {| info_id := "a"; info_name := "a"; info_timestamp := 3 |}]).
Proof. split; [split|]; reflexivity. Qed.

End ListingClaims.

(** ** Claims about the capture *)

Module CaptureClaims.

Import PyFacts SnapshotEngine Samples.

Section WithWorld.

Variable World : Type.

Implicit Types (collectors : list (collector World)) (w : World).

(** [capture] returns, and has then run each collector once, in order. *)
Lemma capture_loop_returns collectors : forall snapshot w,
  capture_loop World collectors snapshot w
  = (Returns (captured collectors snapshot w), run_collectors collectors w).
Proof.
  induction collectors as [|c rest IH]; intros snapshot w; [reflexivity|].
  simpl. unfold bind at 1. unfold capture_step, try_except, bind, ret, category_of.
  destruct (collect c w) as [[data|e] w']; simpl; apply IH.
Qed.

Lemma captured_get_other collectors : forall snapshot w k,
  (forall c, In c collectors -> collector_name c <> k) ->
  dict_get k (captured collectors snapshot w) = dict_get k snapshot.
Proof.
  induction collectors as [|c rest IH]; intros snapshot w k H; simpl; [reflexivity|].
  rewrite IH by (intros c' Hc'; apply H; now right).
  apply dict_get_set_other. intros ->. now apply (H c (or_introl eq_refl)).
Qed.

Lemma captured_get collectors : forall snapshot w i c,
  NoDup (map collector_name collectors) ->
  nth_error collectors i = Some c ->
  dict_get (collector_name c) (captured collectors snapshot w)
  = Some (category_of c (run_collectors (firstn i collectors) w)).
Proof.
  induction collectors as [|a rest IH]; intros snapshot w i c Hnd Hnth.
  - now destruct i.
  - simpl in Hnd. inversion Hnd as [|? ? Hfresh Hnd']; subst.
    destruct i as [|i]; simpl in Hnth.
    + injection Hnth as ->. simpl.
      rewrite captured_get_other; [apply dict_get_set_same|].
      intros c' Hc' Heq. apply Hfresh. rewrite <- Heq. now apply in_map.
    + simpl. now apply IH.
Qed.

Lemma captured_keys collectors : forall snapshot w,
  NoDup (map collector_name collectors) ->
  (forall c, In c collectors -> dict_mem (collector_name c) snapshot = false) ->
  dict_keys (captured collectors snapshot w)
  = dict_keys snapshot ++ map collector_name collectors.
Proof.
  induction collectors as [|a rest IH]; intros snapshot w Hnd Hfresh; simpl.
  - now rewrite List.app_nil_r.
  - inversion Hnd as [|? ? Hnotin Hnd']; subst.
    rewrite dict_set_fresh by (apply Hfresh; now left).
    rewrite IH; [|assumption|].
    + unfold dict_keys. rewrite map_app. simpl. now rewrite <- List.app_assoc.
    + intros c Hc. rewrite dict_mem_app, (Hfresh c (or_intror Hc)). simpl.
      unfold dict_mem. simpl. rewrite orb_false_r. apply String.eqb_neq.
      intros Heq. apply Hnotin. rewrite <- Heq. now apply in_map.
Qed.

(** The category of a name holds what the last collector of that name
    left. *)
Lemma captured_get_last collectors : forall snapshot w i c,
  nth_error collectors i = Some c ->
  (forall c', In c' (skipn (S i) collectors) -> collector_name c' <> collector_name c) ->
  dict_get (collector_name c) (captured collectors snapshot w)
  = Some (category_of c (run_collectors (firstn i collectors) w)).
Proof.
  induction collectors as [|a rest IH]; intros snapshot w i c Hnth Hlast.
  - now destruct i.
  - destruct i as [|i]; simpl in Hnth.
    + injection Hnth as ->. simpl.
      rewrite captured_get_other; [apply dict_get_set_same|].
      intros c' Hc'. now apply Hlast.
    + simpl. now apply IH.
Qed.

Lemma captured_mem collectors : forall snapshot w k,
  dict_mem k (captured collectors snapshot w) = true
  <-> dict_mem k snapshot = true \/ In k (map collector_name collectors).
Proof.
  induction collectors as [|a rest IH]; intros snapshot w k; simpl; [tauto|].
  rewrite IH.
  destruct (String.eqb_spec k (collector_name a)) as [->|Hne].
  - rewrite dict_mem_set_same. tauto.
  - assert (E : dict_mem k (dict_set (collector_name a) (category_of a w) snapshot)
               = dict_mem k snapshot).
    { destruct (dict_mem k snapshot) eqn:M.
      - now apply dict_mem_set_mono.
      - destruct (dict_mem k (dict_set _ _ snapshot)) eqn:M'; [|reflexivity].
        apply dict_mem_get in M' as (v & Hv).
        rewrite dict_get_set_other in Hv by assumption.
        now rewrite (dict_get_mem _ _ _ Hv) in M. }
    rewrite E. intuition congruence.
Qed.

(** C8, as the code has it.  For every list of collectors [capture]
    returns, whatever the collectors raise, having invoked each
    collector once, in order; the categories of the snapshot are the
    category names of the collectors, and the category of a name holds
    what the last collector of that name left: its data, or, when its
    [collect] raised, the mapping with the key [error] and the message
    of the exception.  When the collectors stand for distinct
    categories, the snapshot has one category per collector, in order,
    and no category is touched by another collector. *)
Theorem capture_isolates_collectors collectors w :
  exists snapshot,
    capture collectors w = (Returns snapshot, run_collectors collectors w)
    /\ (forall k, dict_mem k snapshot = true <-> In k (map collector_name collectors))
    /\ (forall i c, nth_error collectors i = Some c ->
          (forall c', In c' (skipn (S i) collectors) ->
             collector_name c' <> collector_name c) ->
          (forall data,
              fst (collect c (run_collectors (firstn i collectors) w)) = Returns data ->
              dict_get (collector_name c) snapshot = Some data)
          /\ (forall e,
                 fst (collect c (run_collectors (firstn i collectors) w)) = Raises e ->
                 dict_get (collector_name c) snapshot
                 = Some (PDict [("error", PStr ("Collection failed: " ++ e))])))
    /\ (NoDup (map collector_name collectors) ->
        dict_keys snapshot = map collector_name collectors
        /\ forall i c, nth_error collectors i = Some c ->
             (forall data,
                 fst (collect c (run_collectors (firstn i collectors) w)) = Returns data ->
                 dict_get (collector_name c) snapshot = Some data)
             /\ (forall e,
                    fst (collect c (run_collectors (firstn i collectors) w)) = Raises e ->
                    dict_get (collector_name c) snapshot
                    = Some (PDict [("error", PStr ("Collection failed: " ++ e))]))).
Proof.
  exists (captured collectors [] w). split; [|split; [|split]].
  - apply capture_loop_returns.
  - intros k. rewrite captured_mem. simpl. intuition discriminate.
  - intros i c Hnth Hlast. rewrite (captured_get_last collectors [] w i c Hnth Hlast).
    unfold category_of. split.
    + intros data ->. reflexivity.
    + intros e ->. reflexivity.
  - intros Hnd. split; [now rewrite captured_keys|].
    intros i c Hnth. rewrite (captured_get collectors [] w i c Hnd Hnth).
    unfold category_of. split.
    + intros data ->. reflexivity.
    + intros e ->. reflexivity.
Qed.

End WithWorld.

(** The two mock collectors of the tests, the second of which raises. *)
Example capture_test_collectors :
  capture test_collectors []
  = (Returns [("test", PDict [("test", PStr "data")]);
              ("failing", PDict [("error", PStr "Collection failed: Test error")])],
     ["TestCollector"; "FailingCollector"]).
Proof. reflexivity. Qed.

(** [capture_isolates_collectors] on these collectors, which stand for
    distinct categories. *)
Lemma capture_isolates_witness :
  NoDup (map collector_name test_collectors)
  /\ exists snapshot,
       capture test_collectors [] = (Returns snapshot, run_collectors test_collectors [])
       /\ dict_keys snapshot = map collector_name test_collectors
       /\ forall i c, nth_error test_collectors i = Some c ->
            (forall data,
                fst (collect c (run_collectors (firstn i test_collectors) [])) = Returns data ->
                dict_get (collector_name c) snapshot = Some data)
            /\ (forall e,
                   fst (collect c (run_collectors (firstn i test_collectors) [])) = Raises e ->
                   dict_get (collector_name c) snapshot
                   = Some (PDict [("error", PStr ("Collection failed: " ++ e))])).
Proof.
  assert (H : NoDup (map collector_name test_collectors)).
  { repeat constructor; simpl; intuition discriminate. }
  split; [exact H|].
  destruct (capture_isolates_collectors (list string) test_collectors [])
    as (snapshot & Hreturns & _ & _ & Hdistinct).
  exists snapshot. split; [exact Hreturns|]. exact (Hdistinct H).
Defined.

(** C8 fails on the code for collectors of one class: both are invoked,
    yet the snapshot has a single category, and the first collector,
    which raised, has left no error marker in it. *)
Lemma collectors_of_one_class_counterexample :
  List.length twin_collectors = 2
  /\ (exists c, nth_error twin_collectors 0 = Some c
                /\ collector_name c = "process"
                /\ fst (collect c []) = Raises "boom")
  /\ capture twin_collectors []
     = (Returns [("process", PList [])], ["ProcessCollector"; "ProcessCollector"]).
Proof.
  split; [reflexivity|]. split; [|reflexivity].
  eexists. split; [reflexivity|]. split; reflexivity.
Qed.

End CaptureClaims.

(** ** Claims about the [compare] command *)

Module CliClaims.

Import DeepDiffLib Json SnapshotStorage Cli Samples.


Section WithLibraries.

Context {float_text : FloatText} {heuristic : PairHeuristic}.


End WithLibraries.


(** The three outcomes occur: here a run that finds no difference. *)
Example compare_no_difference :
  outcome_of (@compare integral_float_text never_pair (Some system_db) [] "a" (Some "a"))
  = no_difference
  /\ exit_status (snd (@compare integral_float_text never_pair (Some system_db) [] "a" (Some "a")))
     = 0%Z.
Proof. split; vm_compute; reflexivity. Qed.

End CliClaims.

(** ** Facts about the JSON text *)

Module JsonText.

Import DeepDiffLib Json PathFacts.

#[local] Open Scope string_scope.

Lemma length_append (a b : string) :
  String.length (a ++ b) = String.length a + String.length b.
Proof. induction a as [|x a IH]; simpl; [reflexivity | now rewrite IH]. Qed.

Lemma append_nil_r (a : string) : a ++ EmptyString = a.
Proof. induction a as [|x a IH]; simpl; [reflexivity | now rewrite IH]. Qed.

Lemma skip_ws_spaces n s : skip_ws (spaces n ++ s) = skip_ws s.
Proof. induction n as [|n IH]; simpl; [reflexivity | exact IH]. Qed.

Lemma skip_ws_newline_indent level s : skip_ws (newline_indent level ++ s) = skip_ws s.
Proof. unfold newline_indent. simpl. apply skip_ws_spaces. Qed.

Lemma skip_ws_space s : skip_ws (" " ++ s) = skip_ws s.
Proof. reflexivity. Qed.

Lemma skip_ws_head c s : is_ws c = false -> skip_ws (String c s) = String c s.
Proof. intros H. simpl. now rewrite H. Qed.

(** *** String literals *)

(** An escaped character is read back as the character. *)
Lemma scanstring_escape_char c rest :
  scanstring (escape_char c ++ rest) = cons_char c (scanstring rest).
Proof.
  destruct c as [[|] [|] [|] [|] [|] [|] [|] [|]]; reflexivity.
Qed.

Lemma scanstring_escape s rest :
  scanstring (escape s ++ String dquote rest) = Some (s, rest).
Proof.
  induction s as [|c s IH]; [reflexivity|].
  simpl escape. rewrite append_assoc, scanstring_escape_char, IH. reflexivity.
Qed.

Lemma scanstring_literal s rest :
  exists text, (encode_basestring_ascii s ++ rest)%string = String dquote text
               /\ scanstring text = Some (s, rest).
Proof.
  exists (escape s ++ String dquote rest). split; [|apply scanstring_escape].
  unfold encode_basestring_ascii. simpl. now rewrite append_assoc.
Qed.


(** *** Numbers *)

Lemma value_end_comma r : value_end (String "," r).
Proof. right. exists r. now left. Qed.

Lemma value_end_newline_indent level r : value_end (newline_indent level ++ r).
Proof. right. exists (spaces (2 * level) ++ r). now right. Qed.

Lemma value_end_nil : value_end EmptyString.
Proof. now left. Qed.

Lemma span_digits_append s ds r rest :
  span_digits s = (ds, r) -> value_end rest -> span_digits (s ++ rest) = (ds, r ++ rest).
Proof.
  revert ds r. induction s as [|c s IH]; intros ds r Hs Hrest.
  - simpl in Hs. injection Hs as <- <-. simpl.
    destruct Hrest as [->|[r' [->| ->]]]; reflexivity.
  - simpl in Hs |- *. destruct (is_digit c).
    + destruct (span_digits s) as [ds' r'] eqn:E. injection Hs as <- <-.
      now rewrite (IH ds' r' eq_refl Hrest).
    + now injection Hs as <- <-.
Qed.

Lemma match_integer_append s integer r rest :
  match_integer s = Some (integer, r) -> value_end rest ->
  match_integer (s ++ rest) = Some (integer, r ++ rest).
Proof.
  intros Hs Hrest. unfold match_integer in *.
  assert (Hdigits : forall sign s1,
    match s1 with
    | String c s2 =>
        if Ascii.eqb c "0" then Some (sign ++ "0", s2)
        else if is_digit c
             then let '(ds, rest0) := span_digits s2 in Some (sign ++ String c ds, rest0)
             else None
    | EmptyString => None
    end = Some (integer, r) ->
    match (s1 ++ rest) with
    | String c s2 =>
        if Ascii.eqb c "0" then Some (sign ++ "0", s2)
        else if is_digit c
             then let '(ds, rest0) := span_digits s2 in Some (sign ++ String c ds, rest0)
             else None
    | EmptyString => None
    end = Some (integer, r ++ rest)).
  { intros sign [|c s2]; [discriminate|]. simpl.
    destruct (Ascii.eqb c "0"); [now intros [= <- <-]|].
    destruct (is_digit c); [|discriminate].
    destruct (span_digits s2) as [ds r0] eqn:E. intros [= <- <-].
    now rewrite (span_digits_append s2 ds r0 rest E Hrest). }
  destruct s as [|c s]; [discriminate|].
  change (String c s ++ rest) with (String c (s ++ rest)).
  cbv beta iota in Hs |- *.
  destruct (Ascii.eqb c "-").
  - exact (Hdigits "-" s Hs).
  - exact (Hdigits EmptyString (String c s) Hs).
Qed.

Lemma match_frac_append s frac r rest :
  match_frac s = (frac, r) -> value_end rest ->
  match_frac (s ++ rest) = (frac, r ++ rest).
Proof.
  intros Hs Hrest. destruct s as [|c s].
  - injection Hs as <- <-. destruct Hrest as [->|[r' [->| ->]]]; reflexivity.
  - simpl in Hs |- *. destruct (Ascii.eqb c "."); [|now injection Hs as <- <-].
    destruct (span_digits s) as [ds r0] eqn:E.
    rewrite (span_digits_append s ds r0 rest E Hrest).
    destruct ds; now injection Hs as <- <-.
Qed.

Lemma match_exp_append s exp r rest :
  match_exp s = (exp, r) -> value_end rest ->
  match_exp (s ++ rest) = (exp, r ++ rest).
Proof.
  intros Hs Hrest. destruct s as [|c s].
  - injection Hs as <- <-. destruct Hrest as [->|[r' [->| ->]]]; reflexivity.
  - simpl in Hs |- *. destruct (Ascii.eqb c "e" || Ascii.eqb c "E"); [|now injection Hs as <- <-].
    destruct s as [|g s].
    + simpl in Hs |- *. injection Hs as <- <-.
      destruct Hrest as [->|[r' [->| ->]]]; reflexivity.
    + simpl in Hs |- *. destruct (Ascii.eqb g "-" || Ascii.eqb g "+").
      * destruct (span_digits s) as [ds r0] eqn:E.
        rewrite (span_digits_append s ds r0 rest E Hrest).
        destruct ds; now injection Hs as <- <-.
      * destruct (span_digits (String g s)) as [ds r0] eqn:E.
        change (String g (s ++ rest)) with (String g s ++ rest).
        rewrite (span_digits_append (String g s) ds r0 rest E Hrest).
        destruct ds; now injection Hs as <- <-.
Qed.

(** A number that fills its text is found again when more text follows. *)
Lemma match_number_append s integer frac exp rest :
  match_number s = Some (integer, frac, exp, EmptyString) -> value_end rest ->
  match_number (s ++ rest) = Some (integer, frac, exp, rest).
Proof.
  unfold match_number. intros Hs Hrest.
  destruct (match_integer s) as [[i r1]|] eqn:E1; [|discriminate].
  rewrite (match_integer_append s i r1 rest E1 Hrest).
  destruct (match_frac r1) as [f r2] eqn:E2.
  rewrite (match_frac_append r1 f r2 rest E2 Hrest).
  destruct (match_exp r2) as [e r3] eqn:E3.
  rewrite (match_exp_append r2 e r3 rest E3 Hrest).
  now injection Hs as <- <- <- ->.
Qed.

Lemma match_integer_head s integer r :
  match_integer s = Some (integer, r) ->
  exists c s', s = String c s' /\ (c = "-"%char \/ is_digit c = true).
Proof.
  unfold match_integer. destruct s as [|c s]; [discriminate|].
  intros H. exists c, s. split; [reflexivity|].
  destruct (Ascii.eqb_spec c "-"); [now left | right].
  destruct (Ascii.eqb_spec c "0") as [->|]; [reflexivity|].
  now destruct (is_digit c).
Qed.


(** *** Integers *)

Lemma span_digits_uint u :
  span_digits (NilEmpty.string_of_uint u) = (NilEmpty.string_of_uint u, EmptyString).
Proof. induction u; simpl; try rewrite IHu; reflexivity. Qed.

(** A normalised numeral other than zero does not start with a zero. *)
Lemma unorm_no_leading_zero u u' :
  Decimal.unorm u = u -> u = Decimal.D0 u' -> u' = Decimal.Nil.
Proof.
  intros Hnorm ->. rewrite unorm_D0 in Hnorm.
  destruct (Decimal.uint_eq_dec u' Decimal.Nil) as [|Hne]; [assumption|].
  pose proof (nb_digits_unorm u' Hne) as H. rewrite Hnorm in H. simpl in H. lia.
Qed.

Lemma to_uint_normal p : Decimal.unorm (Pos.to_uint p) = Pos.to_uint p.
Proof.
  pose proof (DecimalPos.Unsigned.to_of (Pos.to_uint p)) as H.
  rewrite DecimalPos.Unsigned.of_to in H. simpl in H. now symmetry.
Qed.

Lemma match_integer_to_uint p sign :
  (sign = EmptyString \/ sign = "-") ->
  match_integer (sign ++ NilEmpty.string_of_uint (Pos.to_uint p))
  = Some (sign ++ NilEmpty.string_of_uint (Pos.to_uint p), EmptyString).
Proof.
  intros Hsign.
  pose proof (to_uint_normal p) as Hnorm.
  pose proof (DecimalPos.Unsigned.to_uint_nonzero p) as Hnz.
  pose proof (DecimalPos.Unsigned.to_uint_nonnil p) as Hnn.
  destruct (Pos.to_uint p) as [|u|u|u|u|u|u|u|u|u|u] eqn:E; [contradiction| |..].
  - rewrite (unorm_no_leading_zero _ u Hnorm eq_refl) in Hnz. now elim Hnz.
  - destruct Hsign as [-> | ->]; unfold match_integer; simpl; now rewrite span_digits_uint.
  - destruct Hsign as [-> | ->]; unfold match_integer; simpl; now rewrite span_digits_uint.
  - destruct Hsign as [-> | ->]; unfold match_integer; simpl; now rewrite span_digits_uint.
  - destruct Hsign as [-> | ->]; unfold match_integer; simpl; now rewrite span_digits_uint.
  - destruct Hsign as [-> | ->]; unfold match_integer; simpl; now rewrite span_digits_uint.
  - destruct Hsign as [-> | ->]; unfold match_integer; simpl; now rewrite span_digits_uint.
  - destruct Hsign as [-> | ->]; unfold match_integer; simpl; now rewrite span_digits_uint.
  - destruct Hsign as [-> | ->]; unfold match_integer; simpl; now rewrite span_digits_uint.
  - destruct Hsign as [-> | ->]; unfold match_integer; simpl; now rewrite span_digits_uint.
Qed.

Lemma string_of_to_uint p :
  NilZero.string_of_uint (Pos.to_uint p) = NilEmpty.string_of_uint (Pos.to_uint p).
Proof.
  pose proof (DecimalPos.Unsigned.to_uint_nonnil p) as Hnn.
  now destruct (Pos.to_uint p).
Qed.

Lemma match_integer_int_str n : match_integer (int_str n) = Some (int_str n, EmptyString).
Proof.
  unfold int_str. destruct n as [|p|p]; [reflexivity| |].
  - simpl. rewrite string_of_to_uint.
    apply (match_integer_to_uint p EmptyString). now left.
  - simpl. rewrite string_of_to_uint.
    apply (match_integer_to_uint p "-"). now right.
Qed.

Lemma int_of_literal_int_str n : int_of_literal (int_str n) = Some n.
Proof.
  unfold int_of_literal, int_str. rewrite NilZero.isi.
  - simpl. now rewrite DecimalZ.of_to.
  - destruct n as [|p|p]; simpl; try discriminate.
    intros [= H]. exact (DecimalPos.Unsigned.to_uint_nonnil p H).
  - destruct n as [|p|p]; simpl; try discriminate.
    intros [= H]. exact (DecimalPos.Unsigned.to_uint_nonnil p H).
Qed.

Section Numbers.

Context {float_text : FloatText}.

Lemma scan_number_int n rest :
  value_end rest -> scan_number (int_str n ++ rest) = Some (PInt n, rest).
Proof.
  intros Hrest. unfold scan_number.
  assert (H : match_number (int_str n)
              = Some (int_str n, EmptyString, EmptyString, EmptyString)).
  { unfold match_number. now rewrite match_integer_int_str. }
  rewrite (match_number_append _ _ _ _ rest H Hrest).
  now rewrite int_of_literal_int_str.
Qed.

Lemma scan_number_float x rest :
  float_text_ok x = true -> value_end rest ->
  scan_number (float_repr x ++ rest) = Some (PFloat x, rest).
Proof.
  unfold float_text_ok. intros Hok Hrest.
  destruct (match_number (float_repr x)) as [[[[integer frac] exp] r]|] eqn:E; [|discriminate].
  destruct r; [|discriminate].
  apply andb_true_iff in Hok as [Hshape Hval].
  destruct (float_of_literal (integer ++ frac ++ exp)) as [y|] eqn:F; [|discriminate].
  assert (y = x) as ->.
  { unfold Q_same in Hval. apply andb_true_iff in Hval as [Hn Hd].
    apply Z.eqb_eq in Hn. apply Pos.eqb_eq in Hd.
    destruct y, x. simpl in *. now subst. }
  unfold scan_number. rewrite (match_number_append _ _ _ _ rest E Hrest).
  destruct frac, exp; try discriminate; now rewrite F.
Qed.

(** A number is not taken for a string, an object, an array or a name. *)
Lemma scan_once_number fuel c s r :
  c = "-"%char \/ is_digit c = true ->
  scan_number (String c s) = Some r ->
  scan_once (S fuel) (String c s) = Some r.
Proof.
  intros Hc Hnum.
  assert (E : scan_once (S fuel) (String c s)
              = match match_number (String c s) with
                | Some _ => scan_number (String c s)
                | None => scan_constant (String c s)
                end).
  { destruct Hc as [->|H]; [reflexivity|].
    destruct c as [[|] [|] [|] [|] [|] [|] [|] [|]]; try discriminate H; reflexivity. }
  rewrite E. unfold scan_number in Hnum |- *.
  destruct (match_number (String c s)); [exact Hnum | discriminate].
Qed.

End Numbers.

End JsonText.

(** ** Decoding what was encoded *)

Module JsonRoundTrip.

Import DeepDiffLib Json PyFacts PathFacts JsonText.

#[local] Open Scope string_scope.

Lemma number_head c :
  c = "-"%char \/ is_digit c = true -> is_ws c = false /\ Ascii.eqb c "]" = false.
Proof.
  intros [->|H]; [now split|].
  destruct c as [[|] [|] [|] [|] [|] [|] [|] [|]]; try discriminate H; now split.
Qed.

Lemma concat_joined sep close chunk chunks :
  String.concat sep (chunk :: chunks) ++ close = chunk ++ joined_rest sep close chunks.
Proof.
  revert chunk. induction chunks as [|c cs IH]; intros chunk; simpl; [reflexivity|].
  rewrite !append_assoc. f_equal. f_equal. apply IH.
Qed.

Lemma dict_wf_app_fresh {V : Type} (a b : dict V) k v :
  dict_wf (a ++ (k, v) :: b)%list = true -> dict_mem k a = false.
Proof.
  induction a as [|[k' v'] a IH]; simpl; [reflexivity|].
  intros H. apply andb_true_iff in H as [Hfresh Hwf].
  change (dict_mem k ((k', v') :: a)) with (String.eqb k k' || dict_mem k a).
  rewrite (IH Hwf), orb_false_r.
  apply negb_true_iff in Hfresh. rewrite dict_mem_app in Hfresh.
  apply orb_false_iff in Hfresh as [_ Hfresh].
  change (dict_mem k' ((k, v) :: b)) with (String.eqb k' k || dict_mem k' b) in Hfresh.
  apply orb_false_iff in Hfresh as [Hne _]. now rewrite String.eqb_sym.
Qed.

Lemma dict_of_pairs_loop_wf {V : Type} (l acc : dict V) :
  dict_wf (acc ++ l)%list = true ->
  fold_left (fun d kv => dict_set (fst kv) (snd kv) d) l acc = (acc ++ l)%list.
Proof.
  revert acc. induction l as [|[k v] l IH]; intros acc Hwf; simpl.
  - now rewrite List.app_nil_r.
  - rewrite (dict_set_fresh k v acc (dict_wf_app_fresh acc l k v Hwf)).
    rewrite IH; rewrite <- List.app_assoc; [reflexivity | exact Hwf].
Qed.

(** [dict(pairs)] is [pairs] when no key comes twice. *)
Lemma dict_of_pairs_wf {V : Type} (l : dict V) : dict_wf l = true -> dict_of_pairs l = l.
Proof. intros H. unfold dict_of_pairs. now rewrite dict_of_pairs_loop_wf. Qed.

Section WithFloatText.

Context {float_text : FloatText}.

Lemma float_repr_head x :
  float_text_ok x = true ->
  exists c s, float_repr x = String c s /\ (c = "-"%char \/ is_digit c = true).
Proof.
  unfold float_text_ok, match_number. intros H.
  destruct (match_integer (float_repr x)) as [[i r]|] eqn:E; [|discriminate].
  exact (match_integer_head _ _ _ E).
Qed.

(** The text of a value starts with a character that is neither white
    space nor a closing bracket. *)
Lemma iterencode_head v level :
  json_data v = true ->
  exists c s, iterencode level v = String c s
              /\ is_ws c = false /\ Ascii.eqb c "]" = false.
Proof.
  intros Hdata. destruct v as [|[|]|n|x|[|]|s|[|i items]|[|e entries]];
    try (simpl; eexists; eexists; split; [reflexivity | now split]).
  - destruct (match_integer_head _ _ _ (match_integer_int_str n)) as [c [s [E Hc]]].
    exists c, s. split; [exact E | now apply number_head].
  - destruct (float_repr_head x Hdata) as [c [s [E Hc]]].
    exists c, s. split; [exact E | now apply number_head].
Qed.

Lemma skip_ws_iterencode v level rest :
  json_data v = true -> skip_ws (iterencode level v ++ rest) = iterencode level v ++ rest.
Proof.
  intros Hdata. destruct (iterencode_head v level Hdata) as [c [s [E [Hws _]]]].
  rewrite E. simpl. now rewrite Hws.
Qed.

Lemma array_values_close fuel s acc x s1 rest :
  scan_once fuel s = Some (x, s1) -> skip_ws s1 = String "]" rest ->
  array_values (S fuel) s acc = Some (PList (acc ++ [x])%list, rest).
Proof. intros H1 H2. cbn [array_values]. now rewrite H1, H2. Qed.

Lemma array_values_comma fuel s acc x s1 s2 :
  scan_once fuel s = Some (x, s1) -> skip_ws s1 = String "," s2 ->
  array_values (S fuel) s acc = array_values fuel (skip_ws s2) (acc ++ [x])%list.
Proof. intros H1 H2. cbn [array_values]. now rewrite H1, H2. Qed.

Lemma array_values_items level rest xs : forall x acc fuel,
  Forall (fun y => json_data y = true /\ decodes y) (x :: xs) ->
  fold_right (fun y n => 1 + calls_needed y + n) 0 (x :: xs) <= fuel ->
  array_values fuel
    (iterencode (S level) x
     ++ joined_rest ("," ++ newline_indent (S level))
                    (newline_indent level ++ "]" ++ rest)
                    (map (iterencode (S level)) xs))
    acc
  = Some (PList (acc ++ x :: xs)%list, rest).
Proof.
  induction xs as [|y ys IH]; intros x acc fuel Hall Hfuel.
  - inversion Hall as [|? ? [Hx Hdec] _]; subst. simpl in Hfuel.
    destruct fuel as [|fuel]; [lia|]. cbn [map joined_rest].
    apply (array_values_close fuel _ acc x (newline_indent level ++ "]" ++ rest)).
    + apply Hdec; [lia | apply value_end_newline_indent].
    + now rewrite skip_ws_newline_indent.
  - inversion Hall as [|? ? [Hx Hdec] Hall']; subst.
    inversion Hall' as [|? ? [Hy _] _]; subst.
    cbn [fold_right] in Hfuel.
    destruct fuel as [|fuel]; [lia|].
    cbn [map joined_rest].
    set (tail := joined_rest _ _ (map _ ys)).
    rewrite (array_values_comma fuel _ acc x
               (String "," (newline_indent (S level) ++ iterencode (S level) y ++ tail))
               (newline_indent (S level) ++ iterencode (S level) y ++ tail)).
    + rewrite skip_ws_newline_indent, skip_ws_iterencode by assumption.
      unfold tail. rewrite (IH y (acc ++ [x])%list fuel Hall') by (cbn [fold_right]; lia).
      now rewrite <- List.app_assoc.
    + change (("," ++ newline_indent (S level)) ++ iterencode (S level) y ++ tail)
        with (String "," (newline_indent (S level) ++ iterencode (S level) y ++ tail)).
      apply Hdec; [lia | apply value_end_comma].
    + reflexivity.
Qed.

Lemma object_pairs_close fuel s pairs key s1 s2 value s3 rest :
  scanstring s = Some (key, s1) -> skip_ws s1 = String ":" s2 ->
  scan_once fuel (skip_ws s2) = Some (value, s3) -> skip_ws s3 = String "}" rest ->
  object_pairs (S fuel) s pairs
  = Some (PDict (dict_of_pairs (pairs ++ [(key, value)])%list), rest).
Proof. intros H1 H2 H3 H4. cbn [object_pairs]. now rewrite H1, H2, H3, H4. Qed.

Lemma object_pairs_comma fuel s pairs key s1 s2 value s3 s4 s5 :
  scanstring s = Some (key, s1) -> skip_ws s1 = String ":" s2 ->
  scan_once fuel (skip_ws s2) = Some (value, s3) -> skip_ws s3 = String "," s4 ->
  skip_ws s4 = String dquote s5 ->
  object_pairs (S fuel) s pairs = object_pairs fuel s5 (pairs ++ [(key, value)])%list.
Proof. intros H1 H2 H3 H4 H5. cbn [object_pairs]. now rewrite H1, H2, H3, H4, H5. Qed.

Lemma entry_chunk level k x tail :
  (encode_basestring_ascii k ++ ": " ++ iterencode (S level) x) ++ tail
  = String dquote (entry_text level k x tail).
Proof.
  unfold entry_text, encode_basestring_ascii.
  rewrite !append_assoc. cbn [append]. rewrite !append_assoc. reflexivity.
Qed.

Lemma object_pairs_entries level rest es : forall k x pairs fuel,
  Forall (fun e => json_data (snd e) = true /\ decodes (snd e)) ((k, x) :: es) ->
  fold_right (fun e n => 1 + (let '(_, y) := e in calls_needed y) + n) 0 ((k, x) :: es)
  <= fuel ->
  object_pairs fuel
    (entry_text level k x
       (joined_rest ("," ++ newline_indent (S level))
          (newline_indent level ++ "}" ++ rest)
          (map (fun e => encode_basestring_ascii (fst e) ++ ": "
                         ++ (let '(_, v) := e in iterencode (S level) v)) es)))
    pairs
  = Some (PDict (dict_of_pairs (pairs ++ (k, x) :: es)%list), rest).
Proof.
  induction es as [|[k2 y] es IH]; intros k x pairs fuel Hall Hfuel.
  - inversion Hall as [|? ? [Hx Hdec] _]; subst. simpl in Hx, Hdec, Hfuel.
    destruct fuel as [|fuel]; [lia|]. cbn [map joined_rest].
    unfold entry_text.
    set (close := newline_indent level ++ "}" ++ rest).
    apply (object_pairs_close fuel _ pairs k
             (": " ++ iterencode (S level) x ++ close)
             (" " ++ iterencode (S level) x ++ close) x close rest
             (scanstring_escape k _) eq_refl).
    + rewrite skip_ws_space, skip_ws_iterencode by assumption.
      apply Hdec; [lia | apply value_end_newline_indent].
    + unfold close. now rewrite skip_ws_newline_indent.
  - inversion Hall as [|? ? [Hx Hdec] Hall']; subst. simpl in Hx, Hdec.
    cbn [fold_right] in Hfuel.
    destruct fuel as [|fuel]; [lia|].
    cbn [map joined_rest fst].
    set (tail := joined_rest _ _ (map _ es)).
    unfold entry_text at 1. rewrite entry_chunk.
    change (("," ++ newline_indent (S level)) ++ String dquote (entry_text level k2 y tail))
      with (String "," (newline_indent (S level) ++ String dquote (entry_text level k2 y tail))).
    rewrite (object_pairs_comma fuel _ pairs k
               (": " ++ iterencode (S level) x
                ++ String "," (newline_indent (S level)
                               ++ String dquote (entry_text level k2 y tail)))
               (" " ++ iterencode (S level) x
                ++ String "," (newline_indent (S level)
                               ++ String dquote (entry_text level k2 y tail))) x
               (String "," (newline_indent (S level)
                            ++ String dquote (entry_text level k2 y tail)))
               (newline_indent (S level) ++ String dquote (entry_text level k2 y tail))
               (entry_text level k2 y tail)
               (scanstring_escape k _) eq_refl).
    + unfold tail. rewrite (IH k2 y (pairs ++ [(k, x)])%list fuel Hall')
        by (cbn [fold_right] in *; lia).
      now rewrite <- List.app_assoc.
    + rewrite skip_ws_space, skip_ws_iterencode by assumption.
      apply Hdec; [lia | apply value_end_comma].
    + reflexivity.
    + now rewrite skip_ws_newline_indent.
Qed.

Lemma list_text level x xs rest :
  iterencode level (PList (x :: xs)) ++ rest
  = String "[" (newline_indent (S level) ++ iterencode (S level) x
                ++ joined_rest ("," ++ newline_indent (S level))
                     (newline_indent level ++ "]" ++ rest)
                     (map (iterencode (S level)) xs)).
Proof.
  change (iterencode level (PList (x :: xs)))
    with ("[" ++ newline_indent (S level)
          ++ String.concat ("," ++ newline_indent (S level))
               (map (iterencode (S level)) (x :: xs))
          ++ newline_indent level ++ "]").
  rewrite !append_assoc. cbn [map]. rewrite concat_joined. reflexivity.
Qed.

Lemma dict_text level k x es rest :
  iterencode level (PDict ((k, x) :: es)) ++ rest
  = String "{" (newline_indent (S level)
                ++ String dquote
                     (entry_text level k x
                        (joined_rest ("," ++ newline_indent (S level))
                           (newline_indent level ++ "}" ++ rest)
                           (map (fun e => encode_basestring_ascii (fst e) ++ ": "
                                          ++ (let '(_, v) := e in iterencode (S level) v))
                                es)))).
Proof.
  change (iterencode level (PDict ((k, x) :: es)))
    with ("{" ++ newline_indent (S level)
          ++ String.concat ("," ++ newline_indent (S level))
               (map (fun e => encode_basestring_ascii (fst e) ++ ": "
                              ++ (let '(_, v) := e in iterencode (S level) v))
                    ((k, x) :: es))
          ++ newline_indent level ++ "}").
  rewrite !append_assoc. cbn [map fst]. rewrite concat_joined, entry_chunk. reflexivity.
Qed.

Lemma JSONArray_values fuel text c s :
  skip_ws text = String c s -> Ascii.eqb c "]" = false ->
  JSONArray (S fuel) text = array_values fuel (String c s) [].
Proof. intros H1 H2. cbn [JSONArray]. now rewrite H1, H2. Qed.

Lemma JSONObject_pairs fuel text s :
  skip_ws text = String dquote s ->
  JSONObject (S fuel) text = object_pairs fuel s [].
Proof. intros H. cbn [JSONObject]. now rewrite H. Qed.

(** The reader decodes the text of every value of the data model. *)
Lemma scan_once_iterencode v : json_data v = true -> decodes v.
Proof.
  induction v as [|b|n|x|inf|s|items IH|entries IH] using pyvalue_ind;
    intros Hdata level rest fuel Hfuel Hend.
  - destruct fuel as [|fuel]; [simpl in Hfuel; lia | reflexivity].
  - destruct fuel as [|fuel]; [simpl in Hfuel; lia | now destruct b].
  - destruct fuel as [|fuel]; [simpl in Hfuel; lia|].
    destruct (match_integer_head _ _ _ (match_integer_int_str n)) as [c [s [E Hc]]].
    cbn [iterencode].
    pose proof (scan_number_int n rest Hend) as H. rewrite E in H |- *.
    exact (scan_once_number fuel c (s ++ rest) _ Hc H).
  - destruct fuel as [|fuel]; [simpl in Hfuel; lia|].
    destruct (float_repr_head x Hdata) as [c [s [E Hc]]].
    cbn [iterencode].
    pose proof (scan_number_float x rest Hdata Hend) as H. rewrite E in H |- *.
    exact (scan_once_number fuel c (s ++ rest) _ Hc H).
  - destruct fuel as [|fuel]; [simpl in Hfuel; lia|]. now destruct inf.
  - destruct fuel as [|fuel]; [simpl in Hfuel; lia|].
    destruct (scanstring_literal s rest) as [text [E Hs]].
    cbn [iterencode]. rewrite E. cbn [scan_once]. now rewrite Ascii.eqb_refl, Hs.
  - destruct items as [|x xs].
    + destruct fuel as [|[|fuel]]; [simpl in Hfuel; lia.. | reflexivity].
    + cbn [calls_needed] in Hfuel.
      destruct fuel as [|[|fuel]]; [lia.. |].
      assert (Hall : Forall (fun y => json_data y = true /\ decodes y) (x :: xs)).
      { cbn [json_data] in Hdata. rewrite forallb_forall in Hdata.
        rewrite Forall_forall in IH |- *. intros y Hy. split; [now apply Hdata|].
        apply IH; [assumption | now apply Hdata]. }
      rewrite list_text.
      change (scan_once (S (S fuel)) (String "[" ?t)) with (JSONArray (S fuel) t).
      inversion Hall as [|? ? [Hx _] _]; subst.
      destruct (iterencode_head x (S level) Hx) as [c [s [E [Hws Hclose]]]].
      set (tail := joined_rest _ _ _).
      assert (Hskip : skip_ws (newline_indent (S level) ++ iterencode (S level) x ++ tail)
                      = String c (s ++ tail)).
      { rewrite skip_ws_newline_indent, skip_ws_iterencode by assumption. now rewrite E. }
      rewrite (JSONArray_values fuel _ c (s ++ tail) Hskip Hclose).
      change (String c (s ++ tail)) with (String c s ++ tail). rewrite <- E. unfold tail.
      rewrite (array_values_items level rest xs x [] fuel Hall) by lia. reflexivity.
    - destruct entries as [|[k x] es].
    + destruct fuel as [|[|fuel]]; [simpl in Hfuel; lia.. | reflexivity].
    + cbn [calls_needed] in Hfuel.
      destruct fuel as [|[|fuel]]; [lia.. |].
      cbn [json_data] in Hdata. apply andb_true_iff in Hdata as [Hkeys Hvals].
      assert (Hall : Forall (fun e => json_data (snd e) = true /\ decodes (snd e))
                            ((k, x) :: es)).
      { rewrite forallb_forall in Hvals. rewrite Forall_forall in IH |- *.
        intros [k' y] Hy. specialize (Hvals _ Hy). simpl in Hvals |- *.
        split; [assumption|]. exact (IH _ Hy Hvals). }
      rewrite dict_text.
      change (scan_once (S (S fuel)) (String "{" ?t)) with (JSONObject (S fuel) t).
      set (text := entry_text level k x _).
      assert (Hskip : skip_ws (newline_indent (S level) ++ String dquote text)
                      = String dquote text)
        by now rewrite skip_ws_newline_indent.
      rewrite (JSONObject_pairs fuel _ _ Hskip). unfold text.
      rewrite (object_pairs_entries level rest es k x [] fuel Hall) by lia.
      cbn [app]. now rewrite (dict_of_pairs_wf _ Hkeys).
Qed.

Lemma joined_rest_length {A : Type} (f : A -> string) (g : A -> nat) sep close l :
  1 <= String.length sep ->
  Forall (fun a => g a <= String.length (f a)) l ->
  fold_right (fun a n => 1 + g a + n) 0 l + String.length close
  <= String.length (joined_rest sep close (map f l)).
Proof.
  intros Hsep Hall. induction Hall as [|a l Ha _ IH]; cbn [map joined_rest fold_right]; [lia|].
  rewrite !length_append. lia.
Qed.

Lemma newline_indent_length level : 1 <= String.length (newline_indent level).
Proof. unfold newline_indent. simpl. lia. Qed.

(** The text of a value is at least as long as the calls it takes. *)
Lemma calls_needed_le_length v :
  json_data v = true -> forall level, calls_needed v <= String.length (iterencode level v).
Proof.
  induction v as [|b|n|x|inf|s|items IH|entries IH] using pyvalue_ind; intros Hdata level;
    try (destruct (iterencode_head _ level Hdata) as [c [s' [E _]]]; rewrite E; simpl; lia).
  - destruct items as [|x xs]; [simpl; lia|].
    cbn [json_data] in Hdata. rewrite forallb_forall in Hdata. rewrite Forall_forall in IH.
    rewrite <- (append_nil_r (iterencode level (PList (x :: xs)))), list_text.
    cbn [calls_needed fold_right String.length]. rewrite !length_append.
    pose proof (IH x (or_introl eq_refl) (Hdata x (or_introl eq_refl)) (S level)) as Hx.
    pose proof (newline_indent_length (S level)) as Hnl.
    pose proof (joined_rest_length (iterencode (S level)) calls_needed
                  ("," ++ newline_indent (S level))
                  (newline_indent level ++ "]" ++ EmptyString) xs) as Hrest.
    assert (Hall : Forall (fun a => calls_needed a <= String.length (iterencode (S level) a)) xs).
    { apply Forall_forall. intros y Hy. apply IH; [now right|]. apply Hdata. now right. }
    specialize (Hrest ltac:(simpl; lia) Hall).
    rewrite (length_append (newline_indent level)) in Hrest.
    pose proof (newline_indent_length level). lia.
  - destruct entries as [|[k x] es]; [simpl; lia|].
    cbn [json_data] in Hdata. apply andb_true_iff in Hdata as [_ Hdata].
    rewrite forallb_forall in Hdata. rewrite Forall_forall in IH.
    rewrite <- (append_nil_r (iterencode level (PDict ((k, x) :: es)))), dict_text.
    unfold entry_text.
    cbn [calls_needed fold_right].
    do 4 (cbn [String.length]; rewrite ?length_append).
    pose proof (IH (k, x) (or_introl eq_refl) (Hdata (k, x) (or_introl eq_refl)) (S level)) as Hx.
    simpl in Hx.
    pose proof (newline_indent_length (S level)) as Hnl.
    pose proof (joined_rest_length
                  (fun e : string * pyvalue =>
                     encode_basestring_ascii (fst e) ++ ": "
                     ++ (let '(_, v) := e in iterencode (S level) v))
                  (fun e : string * pyvalue => let '(_, y) := e in calls_needed y)
                  ("," ++ newline_indent (S level))
                  (newline_indent level ++ "}" ++ EmptyString) es) as Hrest.
    assert (Hall : Forall (fun e : string * pyvalue =>
                     (let '(_, y) := e in calls_needed y)
                     <= String.length (encode_basestring_ascii (fst e) ++ ": "
                                       ++ (let '(_, v) := e in iterencode (S level) v))) es).
    { apply Forall_forall. intros [k' y] Hy. rewrite !length_append.
      pose proof (IH (k', y) (or_intror Hy) (Hdata (k', y) (or_intror Hy)) (S level)) as H'.
      simpl in H'. lia. }
    specialize (Hrest ltac:(simpl; lia) Hall).
    rewrite (length_append (newline_indent level)) in Hrest.
    pose proof (newline_indent_length level). lia.
Qed.

(** Round trip of the serialisation: [loads] gives back what [dumps]
    was given. *)
Theorem loads_dumps v : json_data v = true -> loads (dumps v) = Some v.
Proof.
  intros Hdata. unfold loads, dumps.
  rewrite <- (append_nil_r (iterencode 0 v)) at 2.
  rewrite skip_ws_iterencode by assumption.
  rewrite (scan_once_iterencode v Hdata 0 EmptyString).
  - reflexivity.
  - pose proof (calls_needed_le_length v Hdata 0). lia.
  - apply value_end_nil.
Qed.

End WithFloatText.

End JsonRoundTrip.

(** ** The calls the reader is allowed *)

Module JsonFuel.

Import DeepDiffLib Json.

#[local] Open Scope string_scope.

Lemma skip_ws_length s : String.length (skip_ws s) <= String.length s.
Proof. induction s as [|c s IH]; simpl; [lia|]. destruct (is_ws c); simpl; lia. Qed.

Lemma skip_ws_head_length s c rest :
  skip_ws s = String c rest -> S (String.length rest) <= String.length s.
Proof. intros H. pose proof (skip_ws_length s) as L. rewrite H in L. exact L. Qed.

Lemma cons_char_rest c r str rest :
  cons_char c r = Some (str, rest) -> exists str', r = Some (str', rest).
Proof. destruct r as [[a b]|]; simpl; [|discriminate]. intros [= <- <-]. now exists a. Qed.

Lemma scanstring_length_within n : forall s str rest,
  String.length s <= n -> scanstring s = Some (str, rest) ->
  String.length rest < String.length s.
Proof.
  induction n as [|n IH]; intros s str rest Hn H.
  - destruct s; [discriminate | simpl in Hn; lia].
  - destruct s as [|c s1]; [discriminate|]. cbn [scanstring] in H.
    destruct (Ascii.eqb c dquote).
    { injection H as <- <-. simpl. lia. }
    destruct (Ascii.eqb c backslash).
    + destruct s1 as [|e s2]; [discriminate|].
      destruct (Ascii.eqb e "u").
      * destruct s2 as [|h1 [|h2 [|h3 [|h4 s6]]]]; try discriminate.
        destruct (hex_value h1), (hex_value h2), (hex_value h3), (hex_value h4);
          try discriminate.
        match type of H with (if ?b then _ else _) = _ => destruct b end; [|discriminate].
        apply cons_char_rest in H as [str' H]. simpl in Hn.
        apply IH in H; [simpl; lia | simpl in *; lia].
      * destruct (unescape e); [|discriminate].
        apply cons_char_rest in H as [str' H]. simpl in Hn.
        apply IH in H; [simpl; lia | simpl in *; lia].
    + destruct (nat_of_ascii c <? 32)%nat; [discriminate|].
      apply cons_char_rest in H as [str' H]. simpl in Hn.
      apply IH in H; [simpl; lia | lia].
Qed.

Lemma scanstring_length s str rest :
  scanstring s = Some (str, rest) -> String.length rest < String.length s.
Proof. apply (scanstring_length_within (String.length s)). lia. Qed.

Lemma span_digits_length s : String.length (snd (span_digits s)) <= String.length s.
Proof.
  induction s as [|c s IH]; simpl; [lia|].
  destruct (is_digit c); [|simpl; lia].
  destruct (span_digits s) as [ds rest]. simpl in *. lia.
Qed.

Lemma match_integer_length s integer rest :
  match_integer s = Some (integer, rest) -> String.length rest <= String.length s.
Proof.
  unfold match_integer.
  assert (H : forall t i r,
            match t with
            | String c s2 =>
                if Ascii.eqb c "0" then Some (i ++ "0", s2)
                else if is_digit c
                     then let '(ds, rest) := span_digits s2 in Some (i ++ String c ds, rest)
                     else None
            | EmptyString => None
            end = Some (integer, r) -> String.length r <= String.length t).
  { intros [|c s2] i r; [discriminate|].
    destruct (Ascii.eqb c "0"); [intros [= _ <-]; simpl; lia|].
    destruct (is_digit c); [|discriminate].
    pose proof (span_digits_length s2) as L. destruct (span_digits s2) as [ds r'].
    intros [= _ <-]. simpl in *. lia. }
  destruct s as [|c s']; [discriminate|].
  destruct (Ascii.eqb c "-"); intros E.
  - apply (H s' "-" rest) in E. simpl. lia.
  - apply (H (String c s') EmptyString rest) in E. exact E.
Qed.

Lemma match_frac_length s : String.length (snd (match_frac s)) <= String.length s.
Proof.
  destruct s as [|c s']; simpl; [lia|].
  destruct (Ascii.eqb c "."); [|simpl; lia].
  pose proof (span_digits_length s') as L.
  destruct (span_digits s') as [[|d ds] rest]; simpl in *; lia.
Qed.

Lemma match_exp_length s : String.length (snd (match_exp s)) <= String.length s.
Proof.
  destruct s as [|c s']; simpl; [lia|].
  destruct (Ascii.eqb c "e" || Ascii.eqb c "E"); [|simpl; lia].
  destruct s' as [|g s''].
  - simpl. lia.
  - destruct (Ascii.eqb g "-" || Ascii.eqb g "+").
    + pose proof (span_digits_length s'') as L.
      destruct (span_digits s'') as [[|d ds] rest]; simpl in *; lia.
    + pose proof (span_digits_length (String g s'')) as L.
      destruct (span_digits (String g s'')) as [[|d ds] rest]; simpl in *; lia.
Qed.

Lemma match_number_length s integer frac exp rest :
  match_number s = Some (integer, frac, exp, rest) -> String.length rest <= String.length s.
Proof.
  unfold match_number. destruct (match_integer s) as [[i s1]|] eqn:E; [|discriminate].
  apply match_integer_length in E.
  pose proof (match_frac_length s1) as F. destruct (match_frac s1) as [fr s2].
  pose proof (match_exp_length s2) as G. destruct (match_exp s2) as [ex s3].
  intros [= _ _ _ <-]. simpl in *. lia.
Qed.

Lemma strip_prefix_length p : forall s rest,
  strip_prefix p s = Some rest -> String.length rest <= String.length s.
Proof.
  induction p as [|a p IH]; intros s rest; simpl.
  - intros [= <-]. lia.
  - destruct s as [|b s']; [discriminate|]. destruct (Ascii.eqb a b); [|discriminate].
    intros H. apply IH in H. simpl. lia.
Qed.

Lemma scan_constant_length s v rest :
  scan_constant s = Some (v, rest) -> String.length rest <= String.length s.
Proof.
  unfold scan_constant.
  destruct (strip_prefix "Infinity" s) eqn:E1.
  - intros [= _ <-]. now apply strip_prefix_length in E1.
  - destruct (strip_prefix "-Infinity" s) eqn:E2; [|discriminate].
    intros [= _ <-]. now apply strip_prefix_length in E2.
Qed.

Section WithFloatText.

Context {float_text : FloatText}.

Lemma scan_number_length s v rest :
  scan_number s = Some (v, rest) -> String.length rest <= String.length s.
Proof.
  unfold scan_number.
  destruct (match_number s) as [[[[integer frac] exp] r]|] eqn:E; [|discriminate].
  apply match_number_length in E.
  destruct frac, exp;
    [destruct (int_of_literal integer) | destruct (float_of_literal _)..];
    simpl; try discriminate; intros [= _ <-]; exact E.
Qed.

(** What a reader leaves is no longer than what it was given. *)
Lemma scan_rest_length fuel :
  (forall s v rest, scan_once fuel s = Some (v, rest) ->
     String.length rest <= String.length s)
  /\ (forall s v rest, JSONObject fuel s = Some (v, rest) ->
        String.length rest <= String.length s)
  /\ (forall s pairs v rest, object_pairs fuel s pairs = Some (v, rest) ->
        String.length rest <= String.length s)
  /\ (forall s v rest, JSONArray fuel s = Some (v, rest) ->
        String.length rest <= String.length s)
  /\ (forall s values v rest, array_values fuel s values = Some (v, rest) ->
        String.length rest <= String.length s).
Proof.
  induction fuel as [|fuel (IHs & IHo & IHp & IHa & IHv)].
  - repeat split; intros; discriminate.
  - split; [|split; [|split; [|split]]].
    + intros s v rest H. cbn [scan_once] in H. destruct s as [|c s']; [discriminate|].
      destruct (Ascii.eqb c dquote).
      { destruct (scanstring s') as [[str r]|] eqn:E; [|discriminate].
        injection H as <- <-. apply scanstring_length in E. simpl. lia. }
      destruct (Ascii.eqb c "{"); [apply IHo in H; simpl; lia|].
      destruct (Ascii.eqb c "["); [apply IHa in H; simpl; lia|].
      destruct (strip_prefix "null" (String c s')) eqn:E1;
        [injection H as <- <-; now apply strip_prefix_length in E1|].
      destruct (strip_prefix "true" (String c s')) eqn:E2;
        [injection H as <- <-; now apply strip_prefix_length in E2|].
      destruct (strip_prefix "false" (String c s')) eqn:E3;
        [injection H as <- <-; now apply strip_prefix_length in E3|].
      destruct (match_number (String c s'));
        [now apply scan_number_length in H | now apply scan_constant_length in H].
    + intros s v rest H. cbn [JSONObject] in H.
      destruct (skip_ws s) as [|c r] eqn:E; [discriminate|].
      apply skip_ws_head_length in E.
      destruct (Ascii.eqb c "}"); [injection H as <- <-; lia|].
      destruct (Ascii.eqb c dquote); [|discriminate].
      apply IHp in H. lia.
    + intros s pairs v rest H. cbn [object_pairs] in H.
      destruct (scanstring s) as [[key s1]|] eqn:E; [|discriminate].
      apply scanstring_length in E.
      destruct (skip_ws s1) as [|c1 s2] eqn:E1; [discriminate|].
      apply skip_ws_head_length in E1.
      destruct (Ascii.eqb c1 ":"); [|discriminate].
      destruct (scan_once fuel (skip_ws s2)) as [[value s3]|] eqn:E2; [|discriminate].
      apply IHs in E2. pose proof (skip_ws_length s2) as L2.
      destruct (skip_ws s3) as [|c2 s4] eqn:E3; [discriminate|].
      apply skip_ws_head_length in E3.
      destruct (Ascii.eqb c2 "}"); [injection H as <- <-; lia|].
      destruct (Ascii.eqb c2 ","); [|discriminate].
      destruct (skip_ws s4) as [|c3 s5] eqn:E4; [discriminate|].
      apply skip_ws_head_length in E4.
      destruct (Ascii.eqb c3 dquote); [|discriminate].
      apply IHp in H. lia.
    + intros s v rest H. cbn [JSONArray] in H.
      destruct (skip_ws s) as [|c r] eqn:E; [discriminate|].
      pose proof (skip_ws_length s) as L. rewrite E in L.
      destruct (Ascii.eqb c "]"); [injection H as <- <-; simpl in L; lia|].
      apply IHv in H. lia.
    + intros s values v rest H. cbn [array_values] in H.
      destruct (scan_once fuel s) as [[value s1]|] eqn:E; [|discriminate].
      apply IHs in E.
      destruct (skip_ws s1) as [|c s2] eqn:E1; [discriminate|].
      apply skip_ws_head_length in E1.
      destruct (Ascii.eqb c "]"); [injection H as <- <-; lia|].
      destruct (Ascii.eqb c ","); [|discriminate].
      apply IHv in H. pose proof (skip_ws_length s2). lia.
Qed.

(** The readers do not fail for want of calls: with three calls for a
    character of the text and one more, further calls change nothing. *)
Lemma more_fuel k fuel :
  (forall s, 3 * String.length s + 1 <= fuel -> scan_once (fuel + k) s = scan_once fuel s)
  /\ (forall s, 3 * String.length s + 3 <= fuel ->
        JSONObject (fuel + k) s = JSONObject fuel s)
  /\ (forall s pairs, 3 * String.length s + 2 <= fuel ->
        object_pairs (fuel + k) s pairs = object_pairs fuel s pairs)
  /\ (forall s, 3 * String.length s + 3 <= fuel ->
        JSONArray (fuel + k) s = JSONArray fuel s)
  /\ (forall s values, 3 * String.length s + 2 <= fuel ->
        array_values (fuel + k) s values = array_values fuel s values).
Proof.
  induction fuel as [|fuel (IHs & IHo & IHp & IHa & IHv)].
  - repeat split; intros; lia.
  - destruct (scan_rest_length fuel) as (Ls & _).
    change (S fuel + k) with (S (fuel + k)).
    split; [|split; [|split; [|split]]].
    + intros s Hs. cbn [scan_once]. destruct s as [|c s']; [reflexivity|].
      simpl in Hs.
      destruct (Ascii.eqb c dquote); [reflexivity|].
      destruct (Ascii.eqb c "{"); [apply IHo; lia|].
      destruct (Ascii.eqb c "["); [apply IHa; lia|].
      reflexivity.
    + intros s Hs. cbn [JSONObject].
      destruct (skip_ws s) as [|c r] eqn:E; [reflexivity|].
      apply skip_ws_head_length in E.
      destruct (Ascii.eqb c "}"); [reflexivity|].
      destruct (Ascii.eqb c dquote); [|reflexivity].
      apply IHp. lia.
    + intros s pairs Hs. cbn [object_pairs].
      destruct (scanstring s) as [[key s1]|] eqn:E; [|reflexivity].
      apply scanstring_length in E.
      destruct (skip_ws s1) as [|c1 s2] eqn:E1; [reflexivity|].
      apply skip_ws_head_length in E1.
      destruct (Ascii.eqb c1 ":"); [|reflexivity].
      pose proof (skip_ws_length s2) as L2.
      rewrite IHs by lia.
      destruct (scan_once fuel (skip_ws s2)) as [[value s3]|] eqn:E2; [|reflexivity].
      apply Ls in E2.
      destruct (skip_ws s3) as [|c2 s4] eqn:E3; [reflexivity|].
      apply skip_ws_head_length in E3.
      destruct (Ascii.eqb c2 "}"); [reflexivity|].
      destruct (Ascii.eqb c2 ","); [|reflexivity].
      destruct (skip_ws s4) as [|c3 s5] eqn:E4; [reflexivity|].
      apply skip_ws_head_length in E4.
      destruct (Ascii.eqb c3 dquote); [|reflexivity].
      apply IHp. lia.
    + intros s Hs. cbn [JSONArray].
      destruct (skip_ws s) as [|c r] eqn:E; [reflexivity|].
      pose proof (skip_ws_length s) as L. rewrite E in L.
      destruct (Ascii.eqb c "]"); [reflexivity|].
      apply IHv. lia.
    + intros s values Hs. cbn [array_values].
      rewrite IHs by lia.
      destruct (scan_once fuel s) as [[value s1]|] eqn:E; [|reflexivity].
      apply Ls in E.
      destruct (skip_ws s1) as [|c s2] eqn:E1; [reflexivity|].
      apply skip_ws_head_length in E1.
      destruct (Ascii.eqb c "]"); [reflexivity|].
      destruct (Ascii.eqb c ","); [|reflexivity].
      apply IHv. pose proof (skip_ws_length s2). lia.
Qed.

(** [loads] gives what the reader gives with any number of calls beyond
    the calls it allows. *)
Theorem loads_has_calls_enough s k :
  scan_once (S (3 * String.length s) + k) (skip_ws s)
  = scan_once (S (3 * String.length s)) (skip_ws s).
Proof.
  apply (more_fuel k (S (3 * String.length s))).
  pose proof (skip_ws_length s). lia.
Qed.

End WithFloatText.

End JsonFuel.

(** ** Claims about the store: round trip *)

Module RoundTripClaims.

Import Json SnapshotStorage JsonRoundTrip StorageClaims Samples.

Section WithFloatText.

Context {float_text : FloatText}.


End WithFloatText.


(** The infinities, an error marker and nested sequences are read back as
    they were saved; a text without line feeds is read as well. *)
Example save_then_get_infinities :
  let data := [("system", PDict [("load", PInfinity false); ("low", PInfinity true)]);
               ("processes", PDict [("error", PStr "Collection failed: boom")]);
               ("files", PList [PList [PInt 1; PNone]; PList []])] in
  @get_snapshot integral_float_text "c" (@save_snapshot integral_float_text 3 "c" "c" data [])
  = Ok (Some (PDict data))
  /\ @loads integral_float_text "[[1],[[-Infinity,null]],[]]"
     = Some (PList [PList [PInt 1]; PList [PList [PInfinity true; PNone]]; PList []]).
Proof. split; reflexivity. Qed.


End RoundTripClaims.

(** ** Exchange of added and removed *)

Module SwapFacts.

Import DeepDiffLib SnapshotDiff PyFacts DiffFacts DiffReports Samples Shapes.

Section WithHeuristic.

Context {heuristic : PairHeuristic}.

Lemma pairing_free_dict m1 m2 :
  pairing_free (PDict m1) (PDict m2) = too_far_apart m1 m2 || pairing_free_common m1 m2.
Proof.
  simpl. f_equal. induction m2 as [|[k v2] rest IH]; simpl; [reflexivity|]. now rewrite IH.
Qed.

Lemma pairing_free_common_In m1 es2 k v1 v2 :
  pairing_free_common m1 es2 = true -> is_private k = false ->
  In (k, v2) es2 -> dict_get k m1 = Some v1 ->
  pairing_free v1 v2 = true.
Proof.
  induction es2 as [|[k' v'] rest IH]; simpl; [easy|].
  intros Hfree Hk [[= -> ->]|Hin] Hget.
  - rewrite Hk, Hget in Hfree. now apply andb_true_iff in Hfree as [H _].
  - apply IH; [|assumption..].
    destruct (is_private k'); [assumption|].
    destruct (dict_get k' m1); [now apply andb_true_iff in Hfree as [_ H] | assumption].
Qed.

Lemma dict_wf_NoDup {V : Type} (m : dict V) : dict_wf m = true -> NoDup (dict_keys m).
Proof.
  induction m as [|[k v] m IH]; simpl; intros H; [constructor|].
  apply andb_true_iff in H as [Hk Hwf]. apply negb_true_iff in Hk.
  constructor; [|now apply IH].
  intros Hin. unfold dict_keys in Hin. apply in_map_iff in Hin as ([k' v'] & E & Hin).
  simpl in E. subst k'.
  assert (Hm : dict_mem k m = true) by (apply dict_mem_In; now exists v'). congruence.
Qed.

Lemma shared_keys_length m1 m2 :
  dict_wf m1 = true -> dict_wf m2 = true ->
  List.length (filter (fun k => dict_mem k m1) (public_keys m2))
  = List.length (filter (fun k => dict_mem k m2) (public_keys m1)).
Proof.
  intros H1 H2. apply Permutation_length. apply NoDup_Permutation.
  - apply NoDup_filter. unfold public_keys. apply NoDup_filter. now apply dict_wf_NoDup.
  - apply NoDup_filter. unfold public_keys. apply NoDup_filter. now apply dict_wf_NoDup.
  - intros k. rewrite !filter_In, !public_keys_In. tauto.
Qed.

(** Whether two mappings with distinct keys are too far apart does not
    depend on which comes first. *)
Lemma too_far_apart_sym m1 m2 :
  dict_wf m1 = true -> dict_wf m2 = true -> too_far_apart m1 m2 = too_far_apart m2 m1.
Proof.
  intros H1 H2. unfold too_far_apart. cbv zeta.
  pose proof (shared_keys_length m1 m2 H1 H2) as E.
  pose proof (filter_length (fun k => dict_mem k m1) (public_keys m2)) as L2.
  pose proof (filter_length (fun k => dict_mem k m2) (public_keys m1)) as L1.
  assert (U : (List.length (public_keys m1)
               + List.length (filter (fun k => negb (dict_mem k m1)) (public_keys m2))
               = List.length (public_keys m2)
                 + List.length (filter (fun k => negb (dict_mem k m2)) (public_keys m1)))%nat)
    by lia.
  now rewrite U, E.
Qed.

Lemma swapped_merge a b a' b' : swapped a a' -> swapped b b' -> swapped (merge a b) (merge a' b').
Proof.
  intros (A1 & A2 & A3 & A4) (B1 & B2 & B3 & B4).
  repeat split; simpl; intros H; apply in_app_iff in H; apply in_app_iff;
    destruct H as [H|H];
    solve [left; first [now apply A1 | now apply A2 | now apply A3 | now apply A4]
          |right; first [now apply B1 | now apply B2 | now apply B3 | now apply B4]].
Qed.

Lemma swapped_no_diff : swapped no_diff no_diff.
Proof. repeat split; intros []. Qed.

Lemma swapped_type_changes path t1 t2 :
  swapped (report_type_changes path t1 t2) (report_type_changes path t2 t1).
Proof. repeat split; intros []. Qed.

Lemma swapped_values_changed path t1 t2 :
  swapped (report_values_changed path t1 t2) (report_values_changed path t2 t1).
Proof. repeat split; intros []. Qed.

Lemma swapped_dict_items path m1 m2 :
  swapped (report_dict_items path m1 m2) (report_dict_items path m2 m1).
Proof. repeat split; simpl; tauto. Qed.

Lemma swapped_iterable path l1 l2 :
  pairing_free (PList l1) (PList l2) = true ->
  swapped (diff_iterable_with_deephash path l1 l2) (diff_iterable_with_deephash path l2 l1).
Proof.
  unfold diff_iterable_with_deephash. simpl.
  destruct (hashes_only_in l2 l1) as [|a la], (hashes_only_in l1 l2) as [|b lb];
    try discriminate; intros _; repeat split; simpl; tauto.
Qed.

(** Membership in a table of the loop over the shared keys. *)
Lemma diff_common_In (field : DeepDiffResult -> dict pyvalue) path m1 es2 e :
  field no_diff = [] ->
  (forall a b, field (merge a b) = field a ++ field b) ->
  In e (field (diff_common path m1 es2))
  <-> exists k v1 v2,
        In (k, v2) es2 /\ is_private k = false /\ dict_get k m1 = Some v1
        /\ In e (field (diff_level (path ++ [SKey k]) v1 v2)).
Proof.
  intros Hnil Hmerge. induction es2 as [|[k v2] rest IH]; simpl.
  - rewrite Hnil. split; [intros [] | intros (k & v1 & v2 & [] & _)].
  - destruct (is_private k) eqn:Ek.
    { rewrite IH. split.
      * intros (k' & v1' & v2' & Hin & Hk & Hget & He).
        exists k', v1', v2'. repeat split; [now right | assumption..].
      * intros (k' & v1' & v2' & [Heq|Hin] & Hk & Hget & He).
        -- injection Heq as <- <-. congruence.
        -- now exists k', v1', v2'. }
    destruct (dict_get k m1) as [v1|] eqn:G.
    + rewrite Hmerge, in_app_iff, IH. split.
      * intros [He|(k' & v1' & v2' & Hin & Hk & Hget & He)].
        -- exists k, v1, v2. repeat split; [now left | assumption..].
        -- exists k', v1', v2'. repeat split; [now right | assumption..].
      * intros (k' & v1' & v2' & [Heq|Hin] & Hk & Hget & He).
        -- injection Heq as <- <-. left. rewrite G in Hget. now injection Hget as <-.
        -- right. now exists k', v1', v2'.
    + rewrite IH. split.
      * intros (k' & v1' & v2' & Hin & Hk & Hget & He).
        exists k', v1', v2'. repeat split; [now right | assumption..].
      * intros (k' & v1' & v2' & [Heq|Hin] & Hk & Hget & He).
        -- injection Heq as <- <-. rewrite G in Hget. discriminate.
        -- now exists k', v1', v2'.
Qed.

Lemma value_wf_entry m k v : value_wf (PDict m) = true -> In (k, v) m -> value_wf v = true.
Proof.
  simpl. intros H Hin. apply andb_true_iff in H as [_ H]. rewrite forallb_forall in H.
  exact (H (k, v) Hin).
Qed.

(** Where the heuristic is not reached, comparing in the other direction
    exchanges what is added and what is removed. *)
Lemma diff_level_swapped t2 : forall t1 path,
  value_wf t1 = true -> value_wf t2 = true ->
  pairing_free t1 t2 = true -> pairing_free t2 t1 = true ->
  swapped (diff_level path t1 t2) (diff_level path t2 t1).
Proof.
  induction t2 as [|b2|n2|x2|i2|s2|l2 IH|m2 IH] using pyvalue_ind;
    intros t1 path Hwf1 Hwf2 Hfree Hfree';
    destruct t1 as [|b1|n1|x1|i1|s1|l1|m1];
    try apply swapped_type_changes; try apply swapped_no_diff;
    try apply swapped_values_changed.
  - simpl. destruct b1, b2; simpl; first [apply swapped_no_diff | apply swapped_values_changed].
  - simpl. rewrite (Z.eqb_sym n2 n1).
    destruct (Z.eqb n1 n2); [apply swapped_no_diff | apply swapped_values_changed].
  - simpl. assert (E : Qeq_bool x2 x1 = Qeq_bool x1 x2).
    { destruct (Qeq_bool x1 x2) eqn:E1, (Qeq_bool x2 x1) eqn:E2; try reflexivity.
      - apply Qeq_bool_iff in E1. symmetry in E1. apply Qeq_bool_iff in E1. congruence.
      - apply Qeq_bool_iff in E2. symmetry in E2. apply Qeq_bool_iff in E2. congruence. }
    rewrite E.
    destruct (Qeq_bool x1 x2); [apply swapped_no_diff | apply swapped_values_changed].
  - simpl. destruct i1, i2; simpl; first [apply swapped_no_diff | apply swapped_values_changed].
  - simpl. rewrite (String.eqb_sym s2 s1).
    destruct (String.eqb s1 s2); [apply swapped_no_diff | apply swapped_values_changed].
  - now apply swapped_iterable.
  - assert (Hk1 : dict_wf m1 = true) by (simpl in Hwf1; now apply andb_true_iff in Hwf1 as [H _]).
    assert (Hk2 : dict_wf m2 = true) by (simpl in Hwf2; now apply andb_true_iff in Hwf2 as [H _]).
    rewrite !diff_level_dict_cases, (too_far_apart_sym m2 m1 Hk2 Hk1).
    rewrite pairing_free_dict in Hfree, Hfree'.
    rewrite (too_far_apart_sym m2 m1 Hk2 Hk1) in Hfree'.
    destruct (too_far_apart m1 m2); [apply swapped_values_changed|].
    simpl in Hfree, Hfree'.
    apply swapped_merge; [apply swapped_dict_items|].
    rewrite Forall_forall in IH.
    assert (Hsub : forall k v1 v2, is_private k = false -> In (k, v1) m1 -> In (k, v2) m2 ->
              swapped (diff_level (path ++ [SKey k]) v1 v2) (diff_level (path ++ [SKey k]) v2 v1)).
    { intros k v1 v2 Hk H1 H2. apply (IH (k, v2) H2).
      - exact (value_wf_entry m1 k v1 Hwf1 H1).
      - exact (value_wf_entry m2 k v2 Hwf2 H2).
      - exact (pairing_free_common_In m1 m2 k v1 v2 Hfree Hk H2 (dict_wf_get k v1 m1 Hk1 H1)).
      - exact (pairing_free_common_In m2 m1 k v2 v1 Hfree' Hk H1 (dict_wf_get k v2 m2 Hk2 H2)). }
    repeat split; intros H.
    all: match goal with
         | H : In ?e (?f (diff_common ?p ?a ?b)) |- In ?e (?g (diff_common ?p ?b ?a)) =>
             apply (diff_common_In f p a b e eq_refl (fun _ _ => eq_refl)) in H;
             destruct H as (k & v1 & v2 & Hin & Hk & Hget & H);
             apply (diff_common_In g p b a e eq_refl (fun _ _ => eq_refl));
             exists k, v2, v1;
             pose proof (dict_get_In _ _ _ Hget) as Hin';
             repeat split;
             [ exact Hin'
             | exact Hk
             | first [exact (dict_wf_get k v2 m2 Hk2 Hin) | exact (dict_wf_get k v2 m1 Hk1 Hin)]
             | ]
         end.
    all: first [now apply (Hsub k v1 v2 Hk Hin' Hin) | now apply (Hsub k v2 v1 Hk Hin Hin')].
Qed.

End WithHeuristic.

End SwapFacts.

(** ** The exchange seen through [_compare_collector_data] *)

Module SwapReports.

Import DeepDiffLib SnapshotDiff PyFacts DiffFacts DiffReports SwapFacts Samples Shapes.

Lemma dict_keys_set {V : Type} k (v : V) d k' :
  In k' (dict_keys (dict_set k v d)) <-> k' = k \/ In k' (dict_keys d).
Proof.
  induction d as [|[k0 v0] d IH]; simpl.
  - split; [intros [<-|[]]; now left | intros [->|[]]; now left].
  - destruct (String.eqb_spec k k0) as [->|Hne]; simpl.
    + intuition congruence.
    + rewrite IH. intuition congruence.
Qed.

Lemma rekey_loop_keys {A B : Type} (clean : string -> string) (entry : A -> B)
  (table : dict A) (acc : dict B) k :
  In k (dict_keys
          (fold_left (fun acc e => dict_set (clean (fst e)) (entry (snd e)) acc) table acc))
  <-> In k (dict_keys acc) \/ exists p, In p (dict_keys table) /\ k = clean p.
Proof.
  revert acc. induction table as [|[p x] table IH]; intros acc; simpl.
  - split; [now left | intros [H|(p & [] & _)]; exact H].
  - rewrite IH, dict_keys_set. simpl. split.
    + intros [[->|H]|(q & Hq & ->)].
      * right. exists p. split; [now left | reflexivity].
      * now left.
      * right. exists q. split; [now right | reflexivity].
    + intros [H|(q & [<-|Hq] & ->)].
      * left. now right.
      * left. now left.
      * right. now exists q.
Qed.

(** The keys of a rebuilt table are the cleaned keys of the table. *)
Lemma rekey_keys {A B : Type} (clean : string -> string) (entry : A -> B) (table : dict A) k :
  In k (dict_keys (rekey clean entry table))
  <-> exists p, In p (dict_keys table) /\ k = clean p.
Proof.
  unfold rekey. rewrite rekey_loop_keys. simpl. split; [intros [[]|H]; exact H | now right].
Qed.

Lemma same_keys {V : Type} (t t' : dict V) :
  (forall e, In e t <-> In e t') -> forall p, In p (dict_keys t) <-> In p (dict_keys t').
Proof.
  intros H p. unfold dict_keys. rewrite !in_map_iff.
  split; intros (e & He & Hin); exists e; (split; [assumption | now apply H]).
Qed.

Lemma same_values {V : Type} (t t' : dict V) :
  (forall e, In e t <-> In e t') -> forall x, In x (dict_values t) <-> In x (dict_values t').
Proof.
  intros H x. unfold dict_values. rewrite !in_map_iff.
  split; intros (e & He & Hin); exists e; (split; [assumption | now apply H]).
Qed.

Section WithHeuristic.

Context {heuristic : PairHeuristic}.

Lemma added_keys a b :
  member_keys (added (_compare_collector_data a b))
  = dict_keys (rekey clean_key (fun v => v) (dictionary_item_added (DeepDiff a b))).
Proof.
  unfold _compare_collector_data. cbv zeta.
  destruct (is_empty (DeepDiff a b)) eqn:E.
  - apply is_empty_tables in E as (-> & _). reflexivity.
  - cbn [added]. now destruct (dictionary_item_added (DeepDiff a b)).
Qed.

Lemma removed_keys a b :
  member_keys (removed (_compare_collector_data a b))
  = dict_keys (rekey clean_key (fun v => v) (dictionary_item_removed (DeepDiff a b))).
Proof.
  unfold _compare_collector_data. cbv zeta.
  destruct (is_empty (DeepDiff a b)) eqn:E.
  - apply is_empty_tables in E as (_ & -> & _). reflexivity.
  - cbn [removed]. now destruct (dictionary_item_removed (DeepDiff a b)).
Qed.

Lemma added_items a b :
  member_items (items_added (_compare_collector_data a b))
  = dict_values (iterable_item_added (DeepDiff a b)).
Proof.
  unfold _compare_collector_data. cbv zeta.
  destruct (is_empty (DeepDiff a b)) eqn:E.
  - apply is_empty_tables in E as (_ & _ & -> & _). reflexivity.
  - cbn [items_added]. now destruct (iterable_item_added (DeepDiff a b)).
Qed.

Lemma removed_items a b :
  member_items (items_removed (_compare_collector_data a b))
  = dict_values (iterable_item_removed (DeepDiff a b)).
Proof.
  unfold _compare_collector_data. cbv zeta.
  destruct (is_empty (DeepDiff a b)) eqn:E.
  - apply is_empty_tables in E as (_ & _ & _ & ->). reflexivity.
  - cbn [items_removed]. now destruct (iterable_item_removed (DeepDiff a b)).
Qed.

(** Symmetry of added and removed, for two fragments whose comparison
    does not reach the pairing heuristic, in either direction: the keys
    reported as added one way are the keys reported as removed the
    other way, and so for the items of sequences. *)
Theorem add_remove_swap_without_pairing a b :
  value_wf a = true -> value_wf b = true ->
  pairing_free a b = true -> pairing_free b a = true ->
  (forall k, In k (member_keys (added (_compare_collector_data a b)))
             <-> In k (member_keys (removed (_compare_collector_data b a))))
  /\ (forall k, In k (member_keys (removed (_compare_collector_data a b)))
                <-> In k (member_keys (added (_compare_collector_data b a))))
  /\ (forall x, In x (member_items (items_added (_compare_collector_data a b)))
                <-> In x (member_items (items_removed (_compare_collector_data b a))))
  /\ (forall x, In x (member_items (items_removed (_compare_collector_data a b)))
                <-> In x (member_items (items_added (_compare_collector_data b a)))).
Proof.
  intros Hwa Hwb Hab Hba.
  destruct (diff_level_swapped b a [] Hwa Hwb Hab Hba) as (S1 & S2 & S3 & S4).
  fold (DeepDiff a b) in S1, S2, S3, S4. fold (DeepDiff b a) in S1, S2, S3, S4.
  repeat split; intros H.
  - rewrite added_keys in H. rewrite removed_keys. apply rekey_keys in H as (p & Hp & ->).
    apply rekey_keys. exists p. split; [|reflexivity]. now apply (same_keys _ _ S1).
  - rewrite removed_keys in H. rewrite added_keys. apply rekey_keys in H as (p & Hp & ->).
    apply rekey_keys. exists p. split; [|reflexivity]. now apply (same_keys _ _ S1).
  - rewrite removed_keys in H. rewrite added_keys. apply rekey_keys in H as (p & Hp & ->).
    apply rekey_keys. exists p. split; [|reflexivity]. now apply (same_keys _ _ S2).
  - rewrite added_keys in H. rewrite removed_keys. apply rekey_keys in H as (p & Hp & ->).
    apply rekey_keys. exists p. split; [|reflexivity]. now apply (same_keys _ _ S2).
  - rewrite added_items in H. rewrite removed_items. now apply (same_values _ _ S3).
  - rewrite removed_items in H. rewrite added_items. now apply (same_values _ _ S3).
  - rewrite removed_items in H. rewrite added_items. now apply (same_values _ _ S4).
  - rewrite added_items in H. rewrite removed_items. now apply (same_values _ _ S4).
Qed.

End WithHeuristic.

End SwapReports.

(** ** The store: deleting, saving again, listing *)

Module StoreFacts.

Import Json SnapshotStorage Stores StorageClaims.

Lemma filter_all_kept {A : Type} (keep : A -> bool) (l : list A) :
  (forall x, In x l -> keep x = true) -> filter keep l = l.
Proof.
  induction l as [|x l IH]; simpl; [reflexivity|]. intros H.
  rewrite (H x (or_introl eq_refl)). f_equal. apply IH. intros y Hy. apply H. now right.
Qed.

Lemma fetchone_filter_none s db :
  fetchone s (filter (fun r => negb (id_or_name s r)) db) = None.
Proof.
  apply fetchone_none. intros r Hin. apply filter_In in Hin as [_ Hm].
  apply negb_true_iff in Hm. unfold id_or_name in Hm. apply orb_false_iff in Hm as [H1 H2].
  split; now apply String.eqb_neq.
Qed.

Lemma fetchone_existsb s db :
  existsb (id_or_name s) db = match fetchone s db with Some _ => true | None => false end.
Proof.
  unfold fetchone. induction db as [|r db IH]; simpl; [reflexivity|].
  destruct (id_or_name s r); simpl; [reflexivity | exact IH].
Qed.

(** The first match of a query survives a filter that keeps it. *)
Lemma fetchone_filter_keep (keep : row -> bool) s db r :
  fetchone s db = Some r -> keep r = true -> fetchone s (filter keep db) = Some r.
Proof.
  unfold fetchone. induction db as [|r' db IH]; simpl; [discriminate|].
  destruct (id_or_name s r') eqn:E.
  - intros [= ->] Hk. rewrite Hk. simpl. now rewrite E.
  - intros H Hk. destruct (keep r'); simpl; [rewrite E|]; now apply IH.
Qed.

Lemma fetchone_filter_miss (keep : row -> bool) s db :
  fetchone s db = None -> fetchone s (filter keep db) = None.
Proof.
  unfold fetchone. induction db as [|r' db IH]; simpl; [reflexivity|].
  destruct (id_or_name s r') eqn:E; [discriminate|].
  intros H. destruct (keep r'); simpl; [rewrite E|]; now apply IH.
Qed.

Lemma fetchone_app_hit s db db' r :
  fetchone s db = Some r -> fetchone s (db ++ db') = Some r.
Proof.
  unfold fetchone. induction db as [|r' db IH]; simpl; [discriminate|].
  destruct (id_or_name s r'); [easy | exact IH].
Qed.

Lemma fetchone_app_miss s db db' :
  fetchone s db = None -> fetchone s (db ++ db') = fetchone s db'.
Proof.
  unfold fetchone. induction db as [|r' db IH]; simpl; [reflexivity|].
  destruct (id_or_name s r'); [discriminate | exact IH].
Qed.

Lemma insert_desc_perm r l : Permutation (r :: l) (insert_desc r l).
Proof.
  induction l as [|r' l IH]; simpl; [reflexivity|].
  destruct (Qle_bool (timestamp r') (timestamp r)); [reflexivity|].
  rewrite perm_swap. now constructor.
Qed.

Lemma order_by_timestamp_desc_perm db : Permutation db (order_by_timestamp_desc db).
Proof.
  unfold order_by_timestamp_desc. induction db as [|r db IH]; simpl; [constructor|].
  rewrite <- insert_desc_perm. now constructor.
Qed.

Lemma insert_desc_sorted r l : rows_latest_first l -> rows_latest_first (insert_desc r l).
Proof.
  unfold rows_latest_first. induction l as [|r' l IH]; simpl; intros Hs.
  - constructor; constructor.
  - destruct (Qle_bool (timestamp r') (timestamp r)) eqn:E.
    + apply Qle_bool_iff in E. constructor; [assumption|].
      constructor; [assumption|]. inversion Hs as [|? ? _ Hall]; subst.
      rewrite Forall_forall in *. intros x Hx. eapply Qle_trans; [now apply Hall | exact E].
    + inversion Hs as [|? ? Hs' Hall]; subst. constructor; [now apply IH|].
      assert (Hlt : (timestamp r <= timestamp r')%Q).
      { apply Qlt_le_weak. apply Qnot_le_lt. intros H. apply Qle_bool_iff in H. congruence. }
      rewrite Forall_forall in *. intros x Hx.
      apply (Permutation_in _ (Permutation_sym (insert_desc_perm r l))) in Hx.
      destruct Hx as [<-|Hx]; [assumption | now apply Hall].
Qed.

Lemma order_by_timestamp_desc_sorted db : rows_latest_first (order_by_timestamp_desc db).
Proof.
  unfold order_by_timestamp_desc. induction db as [|r db IH]; simpl; [constructor|].
  now apply insert_desc_sorted.
Qed.

Lemma sorted_infos rows : rows_latest_first rows -> latest_first (map info_of rows).
Proof.
  unfold rows_latest_first, latest_first. induction 1 as [|r rows Hs IH Hall]; simpl; constructor.
  - assumption.
  - rewrite Forall_forall in *. intros i Hi. apply in_map_iff in Hi as (r' & <- & Hr').
    simpl. now apply Hall.
Qed.

Lemma unique_ids_filter (keep : row -> bool) db : unique_ids db -> unique_ids (filter keep db).
Proof.
  unfold unique_ids. induction db as [|r db IH]; simpl; [easy|].
  intros Hnd. inversion Hnd as [|? ? Hfresh Hnd']; subst.
  destruct (keep r); simpl; [|now apply IH].
  constructor; [|now apply IH].
  intros Hin. apply Hfresh. apply in_map_iff in Hin as (r' & Hid & Hr').
  apply filter_In in Hr' as [Hr' _]. rewrite <- Hid. now apply in_map.
Qed.

Lemma unique_ids_same_row db r r' :
  unique_ids db -> In r db -> In r' db -> id r = id r' -> r = r'.
Proof.
  unfold unique_ids. induction db as [|r0 db IH]; simpl; [easy|].
  intros Hnd Hr Hr' Hid. inversion Hnd as [|? ? Hfresh Hnd']; subst.
  destruct Hr as [<-|Hr], Hr' as [<-|Hr'].
  - reflexivity.
  - exfalso. apply Hfresh. rewrite Hid. now apply in_map.
  - exfalso. apply Hfresh. rewrite <- Hid. now apply in_map.
  - now apply IH.
Qed.

Lemma unique_ids_NoDup db : unique_ids db -> NoDup db.
Proof. unfold unique_ids. apply NoDup_map_inv. Qed.

Lemma length_filter_one (keep : row -> bool) db :
  (forall r r', In r db -> In r' db -> keep r = false -> keep r' = false -> r = r') ->
  NoDup db ->
  List.length db <= S (List.length (filter keep db)).
Proof.
  induction db as [|r db IH]; simpl; [lia|].
  intros Hone Hnd. inversion Hnd as [|? ? Hfresh Hnd']; subst.
  destruct (keep r) eqn:E; simpl.
  - apply le_n_S. apply IH; [|assumption]. intros a b Ha Hb. apply Hone; now right.
  - rewrite filter_all_kept; [lia|].
    intros x Hx. destruct (keep x) eqn:Ex; [reflexivity|].
    exfalso. apply Hfresh. rewrite (Hone r x); auto.
Qed.

Section WithFloatText.

Context {float_text : FloatText}.

Lemma unique_ids_save now snapshot_id name data db :
  unique_ids db -> unique_ids (save_snapshot now snapshot_id name data db).
Proof.
  intros Hu. unfold save_snapshot, unique_ids. rewrite map_app. simpl.
  apply (Permutation_NoDup
           (l := snapshot_id
                 :: map id (filter (fun r => negb (String.eqb (id r) snapshot_id)) db))).
  - apply Permutation_cons_append.
  - constructor; [|now apply unique_ids_filter].
    intros Hin. apply in_map_iff in Hin as (r & Hid & Hr).
    apply filter_In in Hr as [_ Hne]. apply negb_true_iff in Hne.
    apply String.eqb_neq in Hne. contradiction.
Qed.

(** The invariants of the tables the commands build. *)
Lemma command_store_invariants db :
  command_store db -> unique_ids db /\ names_are_ids db.
Proof.
  induction 1 as [|now snapshot_id data db _ [IHu IHn]|s db _ [IHu IHn]].
  - split; [constructor | intros r []].
  - split; [now apply unique_ids_save|].
    intros r Hr. unfold save_snapshot in Hr. apply in_app_iff in Hr as [Hr|[<-|[]]].
    + apply IHn. now apply filter_In in Hr.
    + reflexivity.
  - split; [now apply unique_ids_filter|].
    intros r Hr. simpl in Hr. apply IHn. now apply filter_In in Hr.
Qed.

End WithFloatText.

End StoreFacts.

Module StoreExtras.

Import Json SnapshotStorage Stores StorageClaims StoreFacts JsonRoundTrip Samples.

Section WithFloatText.

Context {float_text : FloatText}.

(** After [delete_snapshot(s)], [list_snapshots] lists the records it
    listed before, less those that have [s] as id or as name. *)
Lemma list_snapshots_after_delete s db i :
  In i (list_snapshots (snd (delete_snapshot s db)))
  <-> In i (list_snapshots db) /\ info_id i <> s /\ info_name i <> s.
Proof.
  unfold list_snapshots, delete_snapshot. simpl. rewrite !in_map_iff. split.
  - intros (r & <- & Hr).
    apply (Permutation_in _ (Permutation_sym (order_by_timestamp_desc_perm _))) in Hr.
    apply filter_In in Hr as [Hr Hm]. apply negb_true_iff in Hm.
    unfold id_or_name in Hm. apply orb_false_iff in Hm as [H1 H2].
    split; [|split; simpl; now apply String.eqb_neq].
    exists r. split; [reflexivity|].
    now apply (Permutation_in _ (order_by_timestamp_desc_perm _)).
  - intros ((r & <- & Hr) & Hid & Hname). simpl in Hid, Hname. exists r. split; [reflexivity|].
    apply (Permutation_in _ (order_by_timestamp_desc_perm _)).
    apply (Permutation_in _ (Permutation_sym (order_by_timestamp_desc_perm _))) in Hr.
    apply filter_In. split; [assumption|]. unfold id_or_name.
    apply String.eqb_neq in Hid. apply String.eqb_neq in Hname. now rewrite Hid, Hname.
Qed.

(** X1.  [delete_snapshot(s)] returns true exactly when a record had
    [s] as its id or as its name; when it returns false the table is
    left as it was.  It deletes every such record and no other: after
    it, [get_snapshot(s)] returns absent, [snapshot_exists(s)] is false,
    and [list_snapshots] lists the records it listed before, less those
    that have [s] as id or as name. *)
Theorem delete_snapshot_removes_every_match s db :
  fst (delete_snapshot s db) = snapshot_exists s db
  /\ get_snapshot s (snd (delete_snapshot s db)) = Ok None
  /\ snapshot_exists s (snd (delete_snapshot s db)) = false
  /\ (fst (delete_snapshot s db) = false -> snd (delete_snapshot s db) = db)
  /\ (forall i, In i (list_snapshots (snd (delete_snapshot s db)))
                <-> In i (list_snapshots db) /\ info_id i <> s /\ info_name i <> s).
Proof.
  split; [|split; [|split; [|split]]].
  - unfold delete_snapshot, snapshot_exists. simpl. apply fetchone_existsb.
  - unfold delete_snapshot, get_snapshot. simpl. now rewrite fetchone_filter_none.
  - unfold delete_snapshot, snapshot_exists. simpl. now rewrite fetchone_filter_none.
  - unfold delete_snapshot. simpl. intros H. apply filter_all_kept. intros r Hr.
    destruct (id_or_name s r) eqn:E; [|reflexivity].
    assert (Hex : existsb (id_or_name s) db = true) by (apply existsb_exists; now exists r).
    congruence.
  - intros i. apply list_snapshots_after_delete.
Qed.

(** X2.  [delete_snapshot(s)] leaves the other records alone: when the
    lookup of [t] finds a record that has [s] neither as its id nor as
    its name, the lookup of [t] finds the same record after the
    deletion. *)
Theorem delete_snapshot_keeps_other_records s t db r :
  fetchone t db = Some r -> id r <> s -> name r <> s ->
  fetchone t (snd (delete_snapshot s db)) = Some r
  /\ get_snapshot t (snd (delete_snapshot s db)) = get_snapshot t db
  /\ snapshot_exists t (snd (delete_snapshot s db)) = true.
Proof.
  intros Hr Hid Hname. unfold delete_snapshot, get_snapshot, snapshot_exists. simpl.
  assert (Hkeep : negb (id_or_name s r) = true).
  { unfold id_or_name. apply String.eqb_neq in Hid. apply String.eqb_neq in Hname.
    now rewrite Hid, Hname. }
  rewrite (fetchone_filter_keep _ t db r Hr Hkeep), Hr. now repeat split.
Qed.

(** X4.  A snapshot saved under a name is read back by that name:
    after [save_snapshot(id, name, data)], [get_snapshot(name)] returns
    [data], provided that no other record has [name] as its id or as
    its name. *)
Theorem save_then_get_by_name now snapshot_id name data db :
  json_data (PDict data) = true ->
  (forall r, In r db -> id r <> snapshot_id ->
     id r <> name /\ SnapshotStorage.name r <> name) ->
  get_snapshot name (save_snapshot now snapshot_id name data db) = Ok (Some (PDict data))
  /\ snapshot_exists name (save_snapshot now snapshot_id name data db) = true.
Proof.
  intros Hdata Hothers. unfold get_snapshot, snapshot_exists, save_snapshot.
  rewrite fetchone_first.
  - cbn [SnapshotStorage.data]. now rewrite loads_dumps.
  - intros r Hin. apply filter_In in Hin as [Hin Hne].
    apply negb_true_iff in Hne. apply String.eqb_neq in Hne. now apply Hothers.
  - now right.
Qed.

(** X5.  The last save wins: saving under an id that was just saved
    leaves the table as if the earlier save had not been made. *)
Theorem save_snapshot_last_write_wins now1 now2 snapshot_id name1 name2 data1 data2 db :
  save_snapshot now2 snapshot_id name2 data2 (save_snapshot now1 snapshot_id name1 data1 db)
  = save_snapshot now2 snapshot_id name2 data2 db.
Proof.
  unfold save_snapshot. rewrite filter_app. simpl. rewrite String.eqb_refl. simpl.
  rewrite List.app_nil_r. f_equal. apply filter_all_kept.
  intros r Hr. now apply filter_In in Hr.
Qed.

(** X6.  A save does not disturb the other lookups: the lookup of a
    string that is neither the id nor the name saved, and that did not
    resolve to the record the save replaces, gives what it gave. *)
Theorem save_snapshot_keeps_other_lookups now snapshot_id name data db s :
  s <> snapshot_id -> s <> name ->
  (forall r, fetchone s db = Some r -> id r <> snapshot_id) ->
  get_snapshot s (save_snapshot now snapshot_id name data db) = get_snapshot s db
  /\ snapshot_exists s (save_snapshot now snapshot_id name data db) = snapshot_exists s db.
Proof.
  intros Hid Hname Hother. unfold get_snapshot, snapshot_exists, save_snapshot.
  destruct (fetchone s db) as [r|] eqn:E.
  - assert (Hkeep : negb (String.eqb (id r) snapshot_id) = true).
    { apply negb_true_iff. apply String.eqb_neq. now apply Hother. }
    rewrite (fetchone_app_hit _ _ _ r (fetchone_filter_keep _ s db r E Hkeep)). now split.
  - rewrite fetchone_app_miss by now apply fetchone_filter_miss.
    unfold fetchone. simpl. unfold id_or_name. simpl.
    assert (E1 : String.eqb snapshot_id s = false) by (apply String.eqb_neq; congruence).
    assert (E2 : String.eqb name s = false) by (apply String.eqb_neq; congruence).
    rewrite E1, E2. now split.
Qed.

(** X8.  In a table the commands built, every record is named by its
    id and no id occurs twice.  So a lookup is a lookup by id: it finds
    the one record whose id is the string; and a deletion removes one
    record at most. *)
Theorem command_store_lookup_is_by_id db :
  command_store db ->
  unique_ids db /\ names_are_ids db
  /\ (forall s r, fetchone s db = Some r <-> In r db /\ id r = s)
  /\ (forall s, List.length db <= S (List.length (snd (delete_snapshot s db)))).
Proof.
  intros H. destruct (command_store_invariants db H) as [Hu Hn].
  assert (Hby : forall s r, fetchone s db = Some r <-> In r db /\ id r = s).
  { intros s r. split.
    - intros Hf. apply fetchone_some in Hf as [Hin [Hid|Hname]]; [now split|].
      split; [assumption|]. now rewrite <- (Hn r Hin).
    - intros [Hin Hid]. destruct (fetchone s db) as [r'|] eqn:E.
      + apply fetchone_some in E as [Hin' Hm]. f_equal.
        apply (unique_ids_same_row db r' r Hu Hin' Hin).
        destruct Hm as [Hm|Hm]; [congruence|]. rewrite <- (Hn r' Hin'). congruence.
      + exfalso. assert (Hex : existsb (id_or_name s) db = true).
        { apply existsb_exists. exists r. split; [assumption|]. unfold id_or_name.
          apply String.eqb_eq in Hid. now rewrite Hid. }
        rewrite fetchone_existsb, E in Hex. discriminate. }
  split; [assumption|]. split; [assumption|]. split; [assumption|].
  intros s. simpl. apply length_filter_one; [|now apply unique_ids_NoDup].
  intros r r' Hr Hr' Hk Hk'. apply negb_false_iff in Hk. apply negb_false_iff in Hk'.
  assert (Hm : forall x, In x db -> id_or_name s x = true -> id x = s).
  { intros x Hx Hmx. unfold id_or_name in Hmx. apply orb_true_iff in Hmx as [Hmx|Hmx];
      apply String.eqb_eq in Hmx; [assumption|]. now rewrite <- (Hn x Hx). }
  apply (unique_ids_same_row db r r' Hu Hr Hr'). rewrite (Hm r Hr Hk), (Hm r' Hr' Hk').
  reflexivity.
Qed.

(** The rows of a table built from JSON data hold the text of a
    mapping. *)
Lemma saved_store_rows db :
  saved_store db ->
  forall r, In r db ->
    exists entries, json_data (PDict entries) = true /\ data r = dumps (PDict entries).
Proof.
  induction 1 as [|now snapshot_id name entries db Hdata _ IH|s db _ IH]; intros r Hr.
  - destruct Hr.
  - unfold save_snapshot in Hr. apply in_app_iff in Hr as [Hr|[<-|[]]].
    + apply IH. now apply filter_In in Hr.
    + now exists entries.
  - simpl in Hr. apply IH. now apply filter_In in Hr.
Qed.

(** X19.  On a table that [save_snapshot] and [delete_snapshot] built
    from JSON data, [get_snapshot] never raises: it returns absent
    exactly when [snapshot_exists] is false, and else the mapping that
    was saved in the record it finds. *)
Theorem get_snapshot_never_fails_on_saved_data db s :
  saved_store db ->
  (snapshot_exists s db = false /\ get_snapshot s db = Ok None)
  \/ (snapshot_exists s db = true
      /\ exists r entries,
           fetchone s db = Some r /\ data r = dumps (PDict entries)
           /\ json_data (PDict entries) = true
           /\ get_snapshot s db = Ok (Some (PDict entries))).
Proof.
  intros Hsaved. unfold snapshot_exists, get_snapshot.
  destruct (fetchone s db) as [r|] eqn:F; [right | left; now split].
  split; [reflexivity|].
  destruct (fetchone_some s db r F) as [Hin _].
  destruct (saved_store_rows db Hsaved r Hin) as (entries & Hdata & Htext).
  exists r, entries. rewrite Htext, loads_dumps by assumption. now repeat split.
Qed.

End WithFloatText.

(** X7.  [list_snapshots] lists every record of the table once, the
    latest first. *)
Theorem list_snapshots_latest_first db :
  latest_first (list_snapshots db)
  /\ Permutation (map info_of db) (list_snapshots db).
Proof.
  unfold list_snapshots. split.
  - apply sorted_infos. apply order_by_timestamp_desc_sorted.
  - apply Permutation_map. apply order_by_timestamp_desc_perm.
Qed.

(** Witness of [delete_snapshot_keeps_other_records]: the record [b] of
    the sample store stays when [a] is deleted. *)
Lemma delete_snapshot_keeps_witness :
  (exists r, fetchone "b" system_db = Some r /\ id r <> "a" /\ name r <> "a")
  /\ @get_snapshot integral_float_text "b" (snd (delete_snapshot "a" system_db))
     = @get_snapshot integral_float_text "b" system_db.
Proof.
  split.
  - eexists. split; [reflexivity|]. split; discriminate.
  - refine (proj1 (proj2 (@delete_snapshot_keeps_other_records integral_float_text
                            "a" "b" system_db _ eq_refl _ _))); discriminate.
Defined.

(** Witness of [save_then_get_by_name]: a snapshot saved under the id
    [c] and the name [third]. *)
Lemma save_then_get_by_name_witness :
  @json_data integral_float_text (PDict [("system", PDict system_float)]) = true
  /\ (forall r, In r system_db -> id r <> "c" ->
        id r <> "third" /\ SnapshotStorage.name r <> "third")
  /\ @get_snapshot integral_float_text "third"
       (@save_snapshot integral_float_text 3 "c" "third"
          [("system", PDict system_float)] system_db)
     = Ok (Some (PDict [("system", PDict system_float)])).
Proof.
  assert (H : forall r, In r system_db -> id r <> "c" ->
                id r <> "third" /\ SnapshotStorage.name r <> "third").
  { intros r [<-|[<-|[]]] _; split; discriminate. }
  split; [reflexivity|]. split; [exact H|].
  exact (proj1 (@save_then_get_by_name integral_float_text 3 "c" "third"
                  [("system", PDict system_float)] system_db eq_refl H)).
Defined.

(** Witness of [save_snapshot_keeps_other_lookups]: saving [c] leaves
    the lookup of [a] as it was. *)
Lemma save_snapshot_keeps_witness :
  "a" <> "c" /\ "a" <> "third"
  /\ (forall r, fetchone "a" system_db = Some r -> id r <> "c")
  /\ @get_snapshot integral_float_text "a"
       (@save_snapshot integral_float_text 3 "c" "third" [] system_db)
     = @get_snapshot integral_float_text "a" system_db.
Proof.
  assert (H : forall r, fetchone "a" system_db = Some r -> id r <> "c").
  { intros r [= <-]. discriminate. }
  split; [discriminate|]. split; [discriminate|]. split; [exact H|].
  refine (proj1 (@save_snapshot_keeps_other_lookups integral_float_text 3 "c" "third" []
                   system_db "a" _ _ H)); discriminate.
Defined.

Lemma system_db_command_store : @command_store integral_float_text system_db.
Proof. unfold system_db. apply store_saved. apply store_saved. apply store_created. Qed.

(** Witness of [command_store_lookup_is_by_id]: the sample store, which
    two runs of [snap] built. *)
Lemma command_store_lookup_witness :
  @command_store integral_float_text system_db
  /\ forall s r, fetchone s system_db = Some r <-> In r system_db /\ id r = s.
Proof.
  split; [exact system_db_command_store|].
  exact (proj1 (proj2 (proj2 (@command_store_lookup_is_by_id integral_float_text system_db
                          system_db_command_store)))).
Defined.

Lemma system_db_saved_store : @saved_store integral_float_text system_db.
Proof.
  unfold system_db. apply saved_saved; [reflexivity|]. apply saved_saved; [reflexivity|].
  apply saved_created.
Qed.

(** Witness of [get_snapshot_never_fails_on_saved_data]: the lookup of
    [b] in the sample store. *)
Lemma get_snapshot_never_fails_witness :
  @saved_store integral_float_text system_db
  /\ ((snapshot_exists "b" system_db = false
       /\ @get_snapshot integral_float_text "b" system_db = Ok None)
      \/ (snapshot_exists "b" system_db = true
          /\ exists r entries,
               fetchone "b" system_db = Some r
               /\ data r = @dumps integral_float_text (PDict entries)
               /\ @json_data integral_float_text (PDict entries) = true
               /\ @get_snapshot integral_float_text "b" system_db
                  = Ok (Some (PDict entries)))).
Proof.
  split; [exact system_db_saved_store|].
  exact (@get_snapshot_never_fails_on_saved_data integral_float_text system_db "b"
           system_db_saved_store).
Defined.

End StoreExtras.

(** ** The change set: which categories it lists, and sequences *)

Module ChangeSetFacts.

Import DeepDiffLib SnapshotDiff PyFacts DiffFacts PathFacts DiffReports Samples Shapes Fragments.

Section WithHeuristic.

Context {heuristic : PairHeuristic}.

Lemma dict_set_not_nil {V : Type} k (v : V) d : dict_set k v d <> [].
Proof. destruct d as [|[k' v'] d]; simpl; [easy|]. now destruct (String.eqb k k'). Qed.

Lemma rekey_loop_not_nil {A B : Type} (clean : string -> string) (entry : A -> B)
  (table : dict A) (acc : dict B) :
  acc <> [] ->
  fold_left (fun acc e => dict_set (clean (fst e)) (entry (snd e)) acc) table acc <> [].
Proof.
  revert acc. induction table as [|e table IH]; intros acc H; simpl; [assumption|].
  apply IH. apply dict_set_not_nil.
Qed.

Lemma rekey_not_nil {A B : Type} (clean : string -> string) (entry : A -> B) e (table : dict A) :
  rekey clean entry (e :: table) <> [].
Proof. unfold rekey. simpl. apply rekey_loop_not_nil. discriminate. Qed.

Lemma member_true_if_reported_rekey {A B : Type} (clean : string -> string) (entry : A -> B)
  (table : dict A) :
  member_true (if_reported table (rekey clean entry))
  = match table with [] => false | _ => true end.
Proof.
  destruct table as [|e table]; [reflexivity|]. simpl.
  pose proof (rekey_not_nil clean entry e table) as H.
  unfold rekey in *. simpl in *.
  now destruct (fold_left _ table _).
Qed.

(** No item is reported for a sequence whose items the other sequence
    all has. *)
Lemma hashes_only_in_subset items other :
  (forall x, In x items -> In x other) -> hashes_only_in items other = [].
Proof.
  intros Hsub. unfold hashes_only_in, create_hashtable.
  assert (H : forall e, In e (create_hashtable_from 0 [] items) ->
            negb (existsb (same_hash (snd e)) other) = false).
  { intros [n x] Hin. simpl. apply negb_false_iff. apply existsb_exists. exists x.
    split; [apply Hsub; eapply create_hashtable_from_In; eassumption | apply same_hash_refl]. }
  induction (create_hashtable_from 0 [] items) as [|e l IH]; simpl; [reflexivity|].
  rewrite (H e) by now left. apply IH. intros e' He'. apply H. now right.
Qed.



(** A category result has a key exactly when one of its members has an
    entry. *)
Lemma nonempty_result_any_member a b :
  nonempty_result (_compare_collector_data a b) = any_member (_compare_collector_data a b).
Proof.
  unfold _compare_collector_data. cbv zeta.
  destruct (is_empty (DeepDiff a b)) eqn:E; [reflexivity|].
  unfold any_member, nonempty_result.
  cbn [added removed changed type_changed items_added items_removed].
  rewrite !member_true_if_reported_rekey.
  unfold is_empty in E.
  destruct (dictionary_item_added (DeepDiff a b)), (dictionary_item_removed (DeepDiff a b)),
    (values_changed (DeepDiff a b)), (type_changes (DeepDiff a b)),
    (iterable_item_added (DeepDiff a b)), (iterable_item_removed (DeepDiff a b));
    try discriminate; reflexivity.
Qed.

Lemma compare_loop_values snapshot1 snapshot2 names acc :
  (forall e, In e acc -> any_member (snd e) = true) ->
  forall e, In e (fold_left (compare_step snapshot1 snapshot2) names acc) ->
            any_member (snd e) = true.
Proof.
  revert acc. induction names as [|n names IH]; intros acc Hacc; simpl; [assumption|].
  apply IH. unfold compare_step.
  destruct (nonempty_result _) eqn:E; [|assumption].
  rewrite nonempty_result_any_member in E.
  generalize dependent (_compare_collector_data
                          (dict_get_default n (PDict []) snapshot1)
                          (dict_get_default n (PDict []) snapshot2)).
  intros r Hr. clear IH names. induction acc as [|[k v] acc IHacc]; simpl.
  - intros e [<-|[]]. exact Hr.
  - destruct (String.eqb n k).
    + intros e [<-|He]; [exact Hr | apply Hacc; now right].
    + intros e [<-|He]; [apply (Hacc (k, v)); now left|].
      apply IHacc; [|assumption]. intros e' He'. apply Hacc. now right.
Qed.

Lemma compare_loop_keys snapshot1 snapshot2 names acc k :
  dict_mem k (fold_left (compare_step snapshot1 snapshot2) names acc) = true ->
  dict_mem k acc = true \/ In k names.
Proof.
  revert acc. induction names as [|n names IH]; intros acc; simpl; [now left|].
  intros H. apply IH in H as [H|H]; [|right; now right].
  unfold compare_step in H. destruct (nonempty_result _); [|now left].
  destruct (string_dec k n) as [->|Hne]; [right; now left|].
  left. apply dict_mem_get in H as [v Hv]. rewrite dict_get_set_other in Hv by assumption.
  now apply dict_get_mem in Hv.
Qed.

Lemma compare_all_members snapshot1 snapshot2 :
  forall e, In e (compare snapshot1 snapshot2) -> any_member (snd e) = true.
Proof. unfold compare. apply compare_loop_values. intros e []. Qed.

Lemma sequences_of_same_items l1 l2 :
  (forall x, In x l1 <-> In x l2) ->
  _compare_collector_data (PList l1) (PList l2) = empty_result.
Proof.
  intros H. unfold _compare_collector_data, DeepDiff. simpl.
  unfold diff_iterable_with_deephash.
  rewrite (hashes_only_in_subset l2 l1) by (intros x; apply H).
  rewrite (hashes_only_in_subset l1 l2) by (intros x; apply H).
  reflexivity.
Qed.

End WithHeuristic.

End ChangeSetFacts.

Module ChangeSetExtras.

Import DeepDiffLib SnapshotDiff PyFacts DiffFacts PathFacts DiffReports Samples Shapes Fragments.
Import ChangeSetFacts.

Section WithHeuristic.

Context {heuristic : PairHeuristic}.

(** The change set lists only categories of the two snapshots, and it
    leaves out a category that holds the same data in both. *)
Lemma compare_categories snapshot1 snapshot2 name :
  (dict_mem name (compare snapshot1 snapshot2) = true ->
     dict_mem name snapshot1 || dict_mem name snapshot2 = true)
  /\ (forall v, value_wf v = true ->
        dict_get name snapshot1 = Some v -> dict_get name snapshot2 = Some v ->
        dict_get name (compare snapshot1 snapshot2) = None).
Proof.
  split.
  - intros H. unfold compare in H. apply compare_loop_keys in H as [H|H]; [discriminate|].
    unfold collector_names in H. apply nodup_In in H. apply in_app_iff in H.
    apply orb_true_iff. destruct H as [H|H]; [left | right];
      unfold dict_keys in H; apply in_map_iff in H as ([k v] & <- & Hin);
      apply dict_mem_In; now exists v.
  - intros v Hwf H1 H2. rewrite compare_get by (now rewrite (dict_get_mem _ _ _ H1)).
    unfold dict_get_default. rewrite H1, H2. cbv zeta.
    now rewrite compare_collector_data_same.
Qed.

(** X9.  The change set of [compare] lists only categories that one
    of the two snapshots has, each with an entry in one of its members,
    and it leaves out a category that holds the same data in both,
    whatever the other categories hold.  So [has_changes] is true of it
    exactly when it lists a category. *)
Theorem compare_lists_only_categories_that_differ snapshot1 snapshot2 :
  (forall name r, dict_get name (compare snapshot1 snapshot2) = Some r ->
     any_member r = true /\ dict_mem name snapshot1 || dict_mem name snapshot2 = true)
  /\ (forall name v, value_wf v = true ->
        dict_get name snapshot1 = Some v -> dict_get name snapshot2 = Some v ->
        dict_get name (compare snapshot1 snapshot2) = None)
  /\ (has_changes (compare snapshot1 snapshot2) = true <-> compare snapshot1 snapshot2 <> []).
Proof.
  pose proof (compare_all_members snapshot1 snapshot2) as Hall.
  split; [|split].
  - intros name r Hget. split.
    + apply dict_get_In in Hget. exact (Hall _ Hget).
    + apply (proj1 (compare_categories snapshot1 snapshot2 name)).
      now rewrite (dict_get_mem _ _ _ Hget).
  - intros name v. apply (proj2 (compare_categories snapshot1 snapshot2 name)).
  - split.
    + intros H E. rewrite E in H. discriminate.
    + intros H. destruct (compare snapshot1 snapshot2) as [|[k r] diff] eqn:E; [easy|].
      pose proof (Hall (k, r) (or_introl eq_refl)) as Hr. simpl in Hr.
      unfold has_changes, dict_values. cbn [map existsb snd]. now rewrite Hr.
Qed.

(** X11.  The order and the repetition of the items of a sequence do
    not count: two sequences with the same items give an empty category
    result, and the category is left out of the change set. *)
Theorem reordered_sequence_is_no_change snapshot1 snapshot2 name l1 l2 :
  dict_get name snapshot1 = Some (PList l1) ->
  dict_get name snapshot2 = Some (PList l2) ->
  (forall x, In x l1 <-> In x l2) ->
  _compare_collector_data (PList l1) (PList l2) = empty_result
  /\ dict_get name (compare snapshot1 snapshot2) = None.
Proof.
  intros H1 H2 Hsame. split; [now apply sequences_of_same_items|].
  rewrite compare_get by (now rewrite (dict_get_mem _ _ _ H1)).
  unfold dict_get_default. rewrite H1, H2. cbv zeta.
  now rewrite sequences_of_same_items.
Qed.


End WithHeuristic.

(** Witness of [reordered_sequence_is_no_change]: the items 1, 2, 2
    against the items 2, 1. *)
Lemma reordered_sequence_witness :
  (forall x, In x [PInt 1; PInt 2; PInt 2] <-> In x [PInt 2; PInt 1])
  /\ dict_get "files"
       (@compare never_pair [("files", PList [PInt 1; PInt 2; PInt 2])]
                            [("files", PList [PInt 2; PInt 1])])
     = None.
Proof.
  assert (H : forall x, In x [PInt 1; PInt 2; PInt 2] <-> In x [PInt 2; PInt 1]).
  { intros x. simpl. tauto. }
  split; [exact H|].
  exact (proj2 (@reordered_sequence_is_no_change never_pair
                  [("files", PList [PInt 1; PInt 2; PInt 2])]
                  [("files", PList [PInt 2; PInt 1])]
                  "files" _ _ eq_refl eq_refl H)).
Defined.


(** What the hash of an item leaves out: the order of the keys of a
    mapping and the keys that start with two underscores; and what is
    the library's to tell apart: an [int] and a [float] of one value. *)
Example hashes_of_items :
  @same_hash never_pair (PDict [("pid", PInt 1); ("__seen", PInt 1); ("name", PStr "init")])
                        (PDict [("name", PStr "init"); ("__seen", PInt 2); ("pid", PInt 1)])
  = true
  /\ (forall heuristic : PairHeuristic,
        @same_hash heuristic (PInt 1) (PFloat 1) = number_keys_shared
        /\ @same_hash heuristic (PInt 1) (PBool true) = false).
Proof.
  split; [reflexivity|]. intros heuristic. split; [|reflexivity].
  simpl. apply andb_true_r.
Qed.

End ChangeSetExtras.

(** ** Flat fragments, key by key *)

Module FlatFacts.

Import DeepDiffLib SnapshotDiff PyFacts DiffFacts PathFacts DiffReports Samples Shapes Fragments.
Import ChangeSetFacts.

Lemma flat_fragment_entry m k v :
  flat_fragment m = true -> In (k, v) m ->
  simple_key k = true /\ is_scalar v = true /\ dict_get k m = Some v.
Proof.
  unfold flat_fragment. intros H Hin. apply andb_true_iff in H as [Hwf Hall].
  rewrite forallb_forall in Hall. specialize (Hall _ Hin). simpl in Hall.
  apply andb_true_iff in Hall as [Hs Hv]. repeat split; try assumption.
  now apply dict_wf_get.
Qed.

(** The lookup of a key in a table rebuilt from top-level paths of
    simple keys. *)
Lemma top_level_lookup {A B : Type} (clean : string -> string) (entry : A -> B)
  (table : dict A) (R : string -> A -> Prop) :
  (forall k, simple_key k = true -> clean (path_str [SKey k]) = k) ->
  (forall p x, In (p, x) table <-> exists k, p = path_str [SKey k] /\ R k x) ->
  (forall k x, R k x -> simple_key k = true) ->
  (forall k x x', R k x -> R k x' -> x = x') ->
  forall k,
    (forall x, R k x -> dict_get k (rekey clean entry table) = Some (entry x))
    /\ ((forall x, ~ R k x) -> dict_get k (rekey clean entry table) = None).
Proof.
  intros Hclean Htable Hsimple Hfun k. split.
  - intros x HR. rewrite <- (Hclean k (Hsimple k x HR)).
    apply rekey_lookup_some.
    + apply Htable. now exists k.
    + intros q y Hq Heq. apply Htable in Hq as (k' & -> & HR').
      rewrite (Hclean k' (Hsimple k' y HR')), (Hclean k (Hsimple k x HR)) in Heq.
      subst k'. exact (Hfun k y x HR' HR).
  - intros Hnone. apply rekey_lookup_none.
    intros p x Hp. apply Htable in Hp as (k' & -> & HR').
    rewrite (Hclean k' (Hsimple k' x HR')). intros ->. exact (Hnone x HR').
Qed.

Lemma keys_only_in_top m other p y :
  In (p, y) (keys_only_in [] m other)
  <-> exists k, p = path_str [SKey k]
                /\ (In (k, y) m /\ is_private k = false /\ dict_mem k other = false).
Proof.
  unfold keys_only_in. rewrite in_map_iff. split.
  - intros ([k v] & [= <- <-] & Hin). apply filter_In in Hin as [Hin Hm].
    simpl in Hm. apply andb_true_iff in Hm as [Hp Hm].
    apply negb_true_iff in Hp, Hm. now exists k.
  - intros (k & -> & Hin & Hp & Hm). exists (k, y). split; [reflexivity|].
    apply filter_In. split; [assumption|]. simpl. now rewrite Hp, Hm.
Qed.

End FlatFacts.

Module FlatExtras.

Import DeepDiffLib SnapshotDiff PyFacts DiffFacts PathFacts DiffReports Samples Shapes Fragments.
Import ChangeSetFacts FlatFacts.

Section WithHeuristic.

Context {heuristic : PairHeuristic}.

(** X13.  Two flat fragments that are not too far apart are compared key
    by key, the keys that start with two underscores left out.  A
    compared key only the second has is in [added] with its value, one
    only the first has is in [removed]; a compared key of both is in
    [changed] with the old and the new value when they differ and are of
    one type, in [type_changed] when their types differ, and nowhere
    when they are equal.  No item is reported.  Two flat fragments too
    far apart are reported whole, as the single entry [root] of
    [changed]. *)
Theorem flat_fragments_are_compared_key_by_key m1 m2 k :
  flat_fragment m1 = true -> flat_fragment m2 = true ->
  let r := _compare_collector_data (PDict m1) (PDict m2) in
  (too_far_apart m1 m2 = false ->
     member_get (added r) k
     = (if is_private k || dict_mem k m1 then None else dict_get k m2)
     /\ member_get (removed r) k
        = (if is_private k || dict_mem k m2 then None else dict_get k m1)
     /\ member_get (changed r) k = (if is_private k then None else changed_at m1 m2 k)
     /\ member_get (type_changed r) k
        = (if is_private k then None else type_changed_at m1 m2 k)
     /\ items_added r = None /\ items_removed r = None)
  /\ (too_far_apart m1 m2 = true -> r = root_changed (PDict m1) (PDict m2)).
Proof.
  intros F1 F2. cbv zeta. split; [|apply mappings_too_far_apart].
  intros Hfar.
  assert (Hwf1 : dict_wf m1 = true) by (unfold flat_fragment in F1; now apply andb_true_iff in F1).
  assert (Hwf2 : dict_wf m2 = true) by (unfold flat_fragment in F2; now apply andb_true_iff in F2).
  assert (Hs2 : forall e, In e m2 -> is_private (fst e) = false -> is_scalar (snd e) = true).
  { intros [k' v] He _. now apply (flat_fragment_entry m2 k' v F2). }
  destruct (diff_common_scalars_items m1 m2 Hs2) as (Ca & Cr & Cia & Cir).
  assert (D : DeepDiff (PDict m1) (PDict m2)
              = merge (report_dict_items [] m1 m2) (diff_common [] m1 m2))
    by now apply diff_level_dict.
  split; [|split; [|split; [|split]]].
  - rewrite member_get_added, D. cbn [merge dictionary_item_added report_dict_items].
    rewrite Ca, List.app_nil_r.
    destruct (top_level_lookup clean_key (fun v : pyvalue => v) (keys_only_in [] m2 m1)
                (fun k' y => In (k', y) m2 /\ is_private k' = false /\ dict_mem k' m1 = false)
                clean_key_simple (keys_only_in_top m2 m1)) with (k := k) as [Hsome Hnone].
    + intros k' x [Hin _]. now apply (flat_fragment_entry m2 k' x F2).
    + intros k' x x' [Hx _] [Hx' _].
      apply (dict_wf_get _ _ _ Hwf2) in Hx. apply (dict_wf_get _ _ _ Hwf2) in Hx'. congruence.
    + destruct (is_private k) eqn:Ek; [apply Hnone; intros x (_ & H & _); congruence|].
      cbn [orb]. destruct (dict_mem k m1) eqn:E1.
      * apply Hnone. intros x (_ & _ & H). congruence.
      * destruct (dict_get k m2) as [v|] eqn:E2.
        -- apply Hsome. split; [now apply dict_get_In | now split].
        -- apply Hnone. intros x [H _]. apply (dict_wf_get _ _ _ Hwf2) in H. congruence.
  - rewrite member_get_removed, D. cbn [merge dictionary_item_removed report_dict_items].
    rewrite Cr, List.app_nil_r.
    destruct (top_level_lookup clean_key (fun v : pyvalue => v) (keys_only_in [] m1 m2)
                (fun k' y => In (k', y) m1 /\ is_private k' = false /\ dict_mem k' m2 = false)
                clean_key_simple (keys_only_in_top m1 m2)) with (k := k) as [Hsome Hnone].
    + intros k' x [Hin _]. now apply (flat_fragment_entry m1 k' x F1).
    + intros k' x x' [Hx _] [Hx' _].
      apply (dict_wf_get _ _ _ Hwf1) in Hx. apply (dict_wf_get _ _ _ Hwf1) in Hx'. congruence.
    + destruct (is_private k) eqn:Ek; [apply Hnone; intros x (_ & H & _); congruence|].
      cbn [orb]. destruct (dict_mem k m2) eqn:E2.
      * apply Hnone. intros x (_ & _ & H). congruence.
      * destruct (dict_get k m1) as [v|] eqn:E1.
        -- apply Hsome. split; [now apply dict_get_In | now split].
        -- apply Hnone. intros x [H _]. apply (dict_wf_get _ _ _ Hwf1) in H. congruence.
  - rewrite member_get_changed, D. cbn [merge values_changed report_dict_items app].
    destruct (top_level_lookup clean_path changed_of (values_changed (diff_common [] m1 m2))
                (fun k' c => exists v1 v2, In (k', v2) m2 /\ is_private k' = false
                   /\ dict_get k' m1 = Some v1
                   /\ pytype_eqb (get_type v1) (get_type v2) = true /\ same_hash v1 v2 = false
                   /\ c = {| vc_old_value := v1; vc_new_value := v2 |})
                clean_path_simple) with (k := k) as [Hsome Hnone].
    + intros p c. rewrite (diff_common_scalars_changed m1 m2 p c Hs2). split.
      * intros (k' & v1 & v2 & Hin & Hp & G & Et & Eh & -> & ->). exists k'.
        split; [reflexivity|]. now exists v1, v2.
      * intros (k' & -> & v1 & v2 & Hin & Hp & G & Et & Eh & ->). now exists k', v1, v2.
    + intros k' c (v1 & v2 & Hin & _). now apply (flat_fragment_entry m2 k' v2 F2).
    + intros k' c c' (v1 & v2 & Hin & _ & G & _ & _ & ->) (v1' & v2' & Hin' & _ & G' & _ & _ & ->).
      apply (dict_wf_get _ _ _ Hwf2) in Hin. apply (dict_wf_get _ _ _ Hwf2) in Hin'. congruence.
    + destruct (is_private k) eqn:Ek; [apply Hnone; intros c (a & b & _ & H & _); congruence|].
      unfold changed_at. destruct (dict_get k m1) as [v1|] eqn:E1.
      * destruct (dict_get k m2) as [v2|] eqn:E2.
        -- destruct (pytype_eqb (get_type v1) (get_type v2)) eqn:Et;
             [destruct (same_hash v1 v2) eqn:Eh|]; simpl.
           ++ apply Hnone. intros c (a & b & Hin & _ & G & _ & Eh' & _).
              apply (dict_wf_get _ _ _ Hwf2) in Hin. congruence.
           ++ apply (Hsome {| vc_old_value := v1; vc_new_value := v2 |}).
              exists v1, v2. repeat split; try assumption. now apply dict_get_In.
           ++ apply Hnone. intros c (a & b & Hin & _ & G & Et' & _).
              apply (dict_wf_get _ _ _ Hwf2) in Hin. congruence.
        -- apply Hnone. intros c (a & b & Hin & _).
           apply (dict_wf_get _ _ _ Hwf2) in Hin. congruence.
      * apply Hnone. intros c (a & b & _ & _ & G & _). congruence.
  - rewrite member_get_type_changed, D. cbn [merge type_changes report_dict_items app].
    destruct (top_level_lookup clean_path type_changed_of (type_changes (diff_common [] m1 m2))
                (fun k' c => exists v1 v2, In (k', v2) m2 /\ is_private k' = false
                   /\ dict_get k' m1 = Some v1
                   /\ pytype_eqb (get_type v1) (get_type v2) = false
                   /\ c = {| tc_old_type := get_type v1; tc_new_type := get_type v2;
                             tc_old_value := v1; tc_new_value := v2 |})
                clean_path_simple) with (k := k) as [Hsome Hnone].
    + intros p c. rewrite (diff_common_scalars_type_changes m1 m2 p c Hs2). split.
      * intros (k' & v1 & v2 & Hin & Hp & G & Et & -> & ->). exists k'.
        split; [reflexivity|]. now exists v1, v2.
      * intros (k' & -> & v1 & v2 & Hin & Hp & G & Et & ->). now exists k', v1, v2.
    + intros k' c (v1 & v2 & Hin & _). now apply (flat_fragment_entry m2 k' v2 F2).
    + intros k' c c' (v1 & v2 & Hin & _ & G & _ & ->) (v1' & v2' & Hin' & _ & G' & _ & ->).
      apply (dict_wf_get _ _ _ Hwf2) in Hin. apply (dict_wf_get _ _ _ Hwf2) in Hin'. congruence.
    + destruct (is_private k) eqn:Ek; [apply Hnone; intros c (a & b & _ & H & _); congruence|].
      unfold type_changed_at. destruct (dict_get k m1) as [v1|] eqn:E1.
      * destruct (dict_get k m2) as [v2|] eqn:E2.
        -- destruct (pytype_eqb (get_type v1) (get_type v2)) eqn:Et.
           ++ apply Hnone. intros c (a & b & Hin & _ & G & Et' & _).
              apply (dict_wf_get _ _ _ Hwf2) in Hin. congruence.
           ++ apply (Hsome {| tc_old_type := get_type v1; tc_new_type := get_type v2;
                              tc_old_value := v1; tc_new_value := v2 |}).
              exists v1, v2. repeat split; try assumption. now apply dict_get_In.
        -- apply Hnone. intros c (a & b & Hin & _).
           apply (dict_wf_get _ _ _ Hwf2) in Hin. congruence.
      * apply Hnone. intros c (a & b & _ & _ & G & _). congruence.
  - unfold _compare_collector_data. cbv zeta. rewrite D.
    destruct (is_empty _); [now split|].
    cbn [items_added items_removed merge iterable_item_added iterable_item_removed
         report_dict_items app]. rewrite Cia, Cir. now split.
Qed.

End WithHeuristic.

(** Witness of [flat_fragments_are_compared_key_by_key]: the scenario
    of [test_changed_env_var]. *)
Lemma flat_fragments_witness :
  flat_fragment [("VAR1", PStr "old_value")] = true
  /\ flat_fragment [("VAR1", PStr "new_value")] = true
  /\ member_get (changed (@_compare_collector_data never_pair
                            (PDict [("VAR1", PStr "old_value")])
                            (PDict [("VAR1", PStr "new_value")]))) "VAR1"
     = Some {| old := PStr "old_value"; new := PStr "new_value" |}.
Proof.
  split; [reflexivity|]. split; [reflexivity|].
  exact (proj1 (proj2 (proj2 (proj1 (@flat_fragments_are_compared_key_by_key never_pair
                                       [("VAR1", PStr "old_value")] [("VAR1", PStr "new_value")]
                                       "VAR1" eq_refl eq_refl) eq_refl)))).
Defined.

(** Three variables of which one is kept: the fragments are too far
    apart and are reported whole; and a variable whose name starts with
    two underscores is not compared. *)
Example flat_fragments_apart_or_private :
  @_compare_collector_data never_pair
    (PDict [("A", PStr "1"); ("B", PStr "2")])
    (PDict [("A", PStr "1"); ("C", PStr "3"); ("D", PStr "4")])
  = root_changed (PDict [("A", PStr "1"); ("B", PStr "2")])
                 (PDict [("A", PStr "1"); ("C", PStr "3"); ("D", PStr "4")])
  /\ @_compare_collector_data never_pair
       (PDict [("A", PStr "1"); ("__B", PStr "2")]) (PDict [("A", PStr "1"); ("__B", PStr "3")])
     = empty_result.
Proof. split; reflexivity. Qed.

End FlatExtras.

(** ** Keys of nested mappings *)

Module NestedFacts.

Import DeepDiffLib SnapshotDiff PyFacts DiffFacts PathFacts DiffReports Samples Shapes Fragments.
Import ChangeSetFacts FlatFacts.

(** The opening [root['] does not start where a text without bracket is
    followed by a quote. *)
Lemma no_root_prefix a s :
  has_char "[" a = false -> String.prefix "root['" (a ++ String squote s) = false.
Proof.
  intros Ha.
  destruct a as [|c1 a]; [reflexivity|]. cbn [append]. rewrite prefix_head.
  destruct (ascii_dec "r" c1) as [<-|]; [|reflexivity].
  destruct a as [|c2 a]; [reflexivity|]. cbn [append]. rewrite prefix_head.
  destruct (ascii_dec "o" c2) as [<-|]; [|reflexivity].
  destruct a as [|c3 a]; [reflexivity|]. cbn [append]. rewrite prefix_head.
  destruct (ascii_dec "o" c3) as [<-|]; [|reflexivity].
  destruct a as [|c4 a]; [reflexivity|]. cbn [append]. rewrite prefix_head.
  destruct (ascii_dec "t" c4) as [<-|]; [|reflexivity].
  destruct a as [|c5 a]; [reflexivity|]. cbn [append]. rewrite prefix_head.
  destruct (ascii_dec "[" c5) as [<-|]; [|reflexivity].
  cbn in Ha. discriminate.
Qed.

Lemma str_remove_root_skip a s :
  has_char "[" a = false ->
  str_remove "root['" (a ++ String squote s) = (a ++ str_remove "root['" (String squote s))%string.
Proof.
  unfold str_remove. induction a as [|x a IH]; intros Ha; [reflexivity|].
  change ((String x a ++ String squote s)%string) with (String x (a ++ String squote s)).
  rewrite remove_from_head.
  change (String x (a ++ String squote s)) with ((String x a ++ String squote s)%string).
  rewrite (no_root_prefix _ s Ha).
  cbn [has_char] in Ha. apply orb_false_iff in Ha as [_ Ha].
  cbn [append]. now rewrite IH.
Qed.

(** Nothing is dropped before the first character of the pattern. *)
Lemma str_remove_skip c pat a s :
  has_char c a = false ->
  str_remove (String c pat) (a ++ s) = (a ++ str_remove (String c pat) s)%string.
Proof.
  unfold str_remove. induction a as [|x a IH]; intros Ha; [reflexivity|].
  cbn [has_char] in Ha. apply orb_false_iff in Ha as [Hx Ha].
  cbn [append]. rewrite remove_from_head, prefix_head.
  destruct (ascii_dec c x) as [E|_].
  - apply Ascii.eqb_neq in Hx. contradiction.
  - now rewrite IH.
Qed.

Lemma path_str_nested a b :
  has_char squote a = false -> has_char squote b = false ->
  path_str [SKey a; SKey b] = ("root['" ++ a ++ "']['" ++ b ++ "']")%string.
Proof.
  intros Ha Hb. unfold path_str. cbn [map String.concat].
  unfold segment_str, stringify_element. rewrite Ha, Hb. cbn [append].
  rewrite !append_assoc. reflexivity.
Qed.

Lemma prefix_head_neq a p b s : a <> b -> String.prefix (String a p) (String b s) = false.
Proof. intros H. rewrite prefix_head. now destruct (ascii_dec a b). Qed.

Lemma prefix_bracket b s :
  has_char "]" b = false -> String.prefix "]" (b ++ String squote s) = false.
Proof.
  intros Hb. destruct b as [|x b]; [reflexivity|]. cbn [append].
  cbn [has_char] in Hb. apply orb_false_iff in Hb as [Hx _].
  apply prefix_head_neq. intros <-. now rewrite Ascii.eqb_refl in Hx.
Qed.

(** The opening is dropped from the path of a key inside a mapping, the
    rest is kept. *)
Lemma str_remove_root_nested a b :
  has_char "[" a = false -> has_char "[" b = false ->
  str_remove "root['" ("root['" ++ a ++ "']['" ++ b ++ "']")
  = (a ++ "']['" ++ b ++ "']")%string.
Proof.
  intros Ha Hb. unfold str_remove.
  change ("root['" ++ a ++ "']['" ++ b ++ "']")%string
    with (String "r" ("oot['" ++ a ++ "']['" ++ b ++ "']")).
  rewrite remove_from_head.
  change (String "r" ("oot['" ++ a ++ "']['" ++ b ++ "']"))
    with ("root['" ++ a ++ "']['" ++ b ++ "']")%string.
  rewrite prefix_app.
  change (remove_from "root['" (String.length "root['" - 1) ("oot['" ++ a ++ "']['" ++ b ++ "']"))
    with (str_remove "root['" (a ++ String squote ("]['" ++ b ++ "']"))).
  rewrite str_remove_root_skip by assumption. f_equal.
  unfold str_remove.
  rewrite remove_from_head, prefix_head_neq by discriminate. f_equal.
  change ("]['" ++ b ++ "']")%string with (String "]" (String "[" (String squote (b ++ "']")))).
  rewrite remove_from_head, prefix_head_neq by discriminate. f_equal.
  rewrite remove_from_head, prefix_head_neq by discriminate. f_equal.
  rewrite remove_from_head, prefix_head_neq by discriminate. f_equal.
  change (remove_from "root['" 0 (b ++ "']")) with (str_remove "root['" (b ++ String squote "]")).
  now rewrite str_remove_root_skip.
Qed.

Lemma str_remove_closing_nested a b :
  has_char squote a = false -> has_char squote b = false -> has_char "]" b = false ->
  str_remove "']" (a ++ "']['" ++ b ++ "']") = (a ++ "['" ++ b)%string.
Proof.
  intros Ha Hb Hb'.
  change "']" with (String squote "]") at 1.
  rewrite (str_remove_skip squote "]" a) by assumption. f_equal.
  unfold str_remove.
  change ("']['" ++ b ++ "']")%string with (String squote (String "]" ("['" ++ b ++ "']"))).
  rewrite remove_from_head.
  change (String.prefix (String squote "]") (String squote (String "]" ("['" ++ b ++ "']"))))
    with (String.prefix "']" ("']" ++ ("['" ++ b ++ "']"))).
  rewrite prefix_app.
  change (remove_from (String squote "]") (String.length (String squote "]") - 1)
            (String "]" ("['" ++ b ++ "']")))
    with (remove_from "']" 0 (String "[" (String squote (b ++ "']")))).
  rewrite remove_from_head, prefix_head_neq by discriminate.
  change ("['" ++ b)%string with (String "[" (String squote b)). f_equal.
  rewrite remove_from_head.
  change (String.prefix "']" (String squote (b ++ "']")))
    with (if ascii_dec squote squote then String.prefix "]" (b ++ String squote "]") else false).
  destruct (ascii_dec squote squote) as [_|N]; [|contradiction].
  rewrite prefix_bracket by assumption. f_equal.
  now apply str_remove_closing.
Qed.

(** The path of a key [b] inside the mapping under
    the key [a] is cleaned to [a['b] where a key is added or removed,
    and to [a[b] where a value changed. *)
Lemma clean_nested a b :
  simple_key a = true -> plain_key b = true ->
  clean_key (path_str [SKey a; SKey b]) = (a ++ "['" ++ b)%string
  /\ clean_path (path_str [SKey a; SKey b]) = (a ++ "[" ++ b)%string.
Proof.
  unfold plain_key, simple_key. intros Ha Hb.
  apply andb_true_iff in Ha as [Haq Hab]. apply andb_true_iff in Hb as [Hb Hbc].
  apply andb_true_iff in Hb as [Hbq Hbb].
  apply negb_true_iff in Haq, Hab, Hbq, Hbb, Hbc.
  assert (E : clean_key (path_str [SKey a; SKey b]) = (a ++ "['" ++ b)%string).
  { rewrite path_str_nested by assumption. unfold clean_key.
    rewrite str_remove_root_nested by assumption.
    now apply str_remove_closing_nested. }
  split; [exact E|].
  change (clean_path (path_str [SKey a; SKey b]))
    with (str_remove "'" (clean_key (path_str [SKey a; SKey b]))).
  rewrite E. change "'" with (String squote EmptyString) at 1.
  rewrite (str_remove_skip squote EmptyString a) by assumption. f_equal.
  unfold str_remove. change ("['" ++ b)%string with (String "[" (String squote b)).
  change ("[" ++ b)%string with (String "[" b).
  rewrite remove_from_head, prefix_head_neq by discriminate. f_equal.
  rewrite remove_from_head.
  change (String.prefix (String squote EmptyString) (String squote b))
    with (if ascii_dec squote squote then String.prefix EmptyString b else false).
  destruct (ascii_dec squote squote) as [_|N]; [|contradiction].
  assert (P : String.prefix EmptyString b = true) by now destruct b.
  rewrite P.
  change (remove_from (String squote EmptyString)
            (String.length (String squote EmptyString) - 1) b)
    with (str_remove "'" b).
  apply (str_remove_absent squote); [reflexivity | assumption].
Qed.

End NestedFacts.

Module NestedExtras.

Import DeepDiffLib SnapshotDiff PyFacts DiffFacts PathFacts DiffReports Samples Shapes Fragments.
Import ChangeSetFacts FlatFacts NestedFacts.

Section WithHeuristic.

Context {heuristic : PairHeuristic}.

Lemma diff_common_nested (table : DeepDiffResult -> dict pyvalue) path m1 es2 a v1 v2 p :
  (forall x y, table (merge x y) = table x ++ table y) ->
  is_private a = false ->
  In (a, v2) es2 -> dict_get a m1 = Some v1 ->
  dict_mem p (table (diff_level (path ++ [SKey a]) v1 v2)) = true ->
  dict_mem p (table (diff_common path m1 es2)) = true.
Proof.
  intros Hmerge Ha Hin Hget Hp. induction es2 as [|[k' v'] rest IH]; [easy|].
  simpl. destruct Hin as [[= -> ->]|Hin].
  - rewrite Ha, Hget, Hmerge, dict_mem_app, Hp. reflexivity.
  - specialize (IH Hin). destruct (is_private k'); [assumption|].
    destruct (dict_get k' m1); [|assumption].
    rewrite Hmerge, dict_mem_app, IH. apply orb_true_r.
Qed.

Lemma diff_common_nested_changed path m1 es2 a v1 v2 p :
  is_private a = false ->
  In (a, v2) es2 -> dict_get a m1 = Some v1 ->
  dict_mem p (values_changed (diff_level (path ++ [SKey a]) v1 v2)) = true ->
  dict_mem p (values_changed (diff_common path m1 es2)) = true.
Proof.
  intros Ha Hin Hget Hp. induction es2 as [|[k' v'] rest IH]; [easy|].
  simpl. destruct Hin as [[= -> ->]|Hin].
  - rewrite Ha, Hget. cbn [merge values_changed]. rewrite dict_mem_app, Hp. reflexivity.
  - specialize (IH Hin). destruct (is_private k'); [assumption|].
    destruct (dict_get k' m1); [|assumption].
    cbn [merge values_changed]. rewrite dict_mem_app, IH. apply orb_true_r.
Qed.

Lemma diff_common_changed_mem path m1 es2 k v1 v2 :
  is_private k = false ->
  In (k, v2) es2 -> dict_get k m1 = Some v1 -> is_scalar v2 = true ->
  pytype_eqb (get_type v1) (get_type v2) = true -> same_hash v1 v2 = false ->
  dict_mem (path_str (path ++ [SKey k])) (values_changed (diff_common path m1 es2)) = true.
Proof.
  intros Hk Hin Hget Hs Ht Hh.
  apply (diff_common_nested_changed path m1 es2 k v1 v2); try assumption.
  rewrite diff_level_scalar by assumption. rewrite Ht, Hh. simpl.
  unfold dict_mem. simpl. now rewrite String.eqb_refl.
Qed.

Lemma keys_only_in_mem path m other k :
  is_private k = false -> dict_mem k m = true -> dict_mem k other = false ->
  dict_mem (path_str (path ++ [SKey k])) (keys_only_in path m other) = true.
Proof.
  intros Hk Hm Ho. apply dict_mem_In in Hm as [v Hin]. apply dict_mem_In. exists v.
  unfold keys_only_in.
  change (path_str (path ++ [SKey k]), v)
    with ((fun e : string * pyvalue => (path_str (path ++ [SKey (fst e)]), snd e)) (k, v)).
  apply in_map. apply filter_In. split; [assumption|]. simpl. now rewrite Hk, Ho.
Qed.

Lemma added_reported a b p :
  dict_mem p (dictionary_item_added (DeepDiff a b)) = true ->
  exists l, added (_compare_collector_data a b) = Some l
            /\ dict_mem (clean_key p) l = true.
Proof.
  intros H. unfold _compare_collector_data. cbv zeta.
  destruct (dictionary_item_added (DeepDiff a b)) as [|e l] eqn:E; [discriminate|].
  assert (Hne : is_empty (DeepDiff a b) = false).
  { unfold is_empty. rewrite E.
    now destruct (type_changes (DeepDiff a b)), (values_changed (DeepDiff a b)). }
  rewrite Hne. cbn [added if_reported].
  eexists. split; [reflexivity|].
  apply (rekey_mem clean_key (fun v : pyvalue => v) (e :: l)). exact H.
Qed.

Lemma changed_reported a b p :
  dict_mem p (values_changed (DeepDiff a b)) = true ->
  exists l, changed (_compare_collector_data a b) = Some l
            /\ dict_mem (clean_path p) l = true.
Proof.
  intros H. unfold _compare_collector_data. cbv zeta.
  destruct (values_changed (DeepDiff a b)) as [|e l] eqn:E; [discriminate|].
  assert (Hne : is_empty (DeepDiff a b) = false).
  { unfold is_empty. rewrite E. now destruct (type_changes (DeepDiff a b)). }
  rewrite Hne. cbn [changed if_reported].
  eexists. split; [reflexivity|].
  apply (rekey_mem clean_path changed_of (e :: l)). exact H.
Qed.

(** X14.  A fragment holds a mapping under the key [a], which does not
    start with two underscores, and is compared key by key.  When the
    two mappings under [a] are compared key by key as well, what changes
    under their key [b] is reported under a key made of [a], an opening
    bracket and [b]: [a['b] for a key that is added, [a[b] for a value
    that changed.  When the two mappings under [a] are too far apart,
    they are reported whole, under the key [a] of [changed].  And when
    the two fragments are too far apart themselves, the result is the
    single entry [root] of [changed]. *)
Theorem nested_key_is_reported_under_bracket_key m1 m2 a n1 n2 b :
  simple_key a = true -> plain_key b = true ->
  dict_get a m1 = Some (PDict n1) -> dict_get a m2 = Some (PDict n2) ->
  let r := _compare_collector_data (PDict m1) (PDict m2) in
  (too_far_apart m1 m2 = false -> is_private a = false ->
     (too_far_apart n1 n2 = false -> is_private b = false ->
        (dict_mem b n1 = false -> dict_mem b n2 = true ->
           exists entries, added r = Some entries /\ dict_mem (a ++ "['" ++ b) entries = true)
        /\ (forall v1 v2,
              dict_get b n1 = Some v1 -> dict_get b n2 = Some v2 -> is_scalar v2 = true ->
              pytype_eqb (get_type v1) (get_type v2) = true -> same_hash v1 v2 = false ->
              exists entries,
                changed r = Some entries /\ dict_mem (a ++ "[" ++ b) entries = true))
     /\ (too_far_apart n1 n2 = true ->
           exists entries, changed r = Some entries /\ dict_mem a entries = true))
  /\ (too_far_apart m1 m2 = true -> r = root_changed (PDict m1) (PDict m2)).
Proof.
  intros Ha Hb G1 G2. cbv zeta. split; [|apply mappings_too_far_apart].
  intros Hfar Hpa.
  destruct (clean_nested a b Ha Hb) as [Ck Cp].
  pose proof (dict_get_In _ _ _ G2) as Hin2.
  split; [intros Hnear Hpb; split|].
  - intros Hn1 Hn2. rewrite <- Ck. apply added_reported.
    unfold DeepDiff. rewrite diff_level_dict by exact Hfar. cbn [merge dictionary_item_added].
    rewrite dict_mem_app. apply orb_true_iff. right.
    apply (diff_common_nested dictionary_item_added [] m1 m2 a (PDict n1) (PDict n2));
      [reflexivity | assumption | assumption | assumption |].
    rewrite diff_level_dict by exact Hnear.
    cbn [merge dictionary_item_added report_dict_items app].
    rewrite dict_mem_app. apply orb_true_iff. left.
    now apply (keys_only_in_mem [SKey a] n2 n1 b).
  - intros v1 v2 Hv1 Hv2 Hs Ht Hh. rewrite <- Cp. apply changed_reported.
    unfold DeepDiff. rewrite diff_level_dict by exact Hfar.
    cbn [merge values_changed report_dict_items app].
    apply (diff_common_nested_changed [] m1 m2 a (PDict n1) (PDict n2));
      [assumption | assumption | assumption |].
    rewrite diff_level_dict by exact Hnear. cbn [merge values_changed report_dict_items app].
    apply (diff_common_changed_mem [SKey a] n1 n2 b v1 v2); try assumption.
    now apply dict_get_In.
  - intros Hapart. rewrite <- (clean_path_simple a Ha). apply changed_reported.
    unfold DeepDiff. rewrite diff_level_dict by exact Hfar.
    cbn [merge values_changed report_dict_items app].
    apply (diff_common_nested_changed [] m1 m2 a (PDict n1) (PDict n2));
      [assumption | assumption | assumption |].
    rewrite diff_level_dict_apart by exact Hapart.
    cbn [values_changed report_values_changed app]. unfold dict_mem. simpl.
    now rewrite String.eqb_refl.
Qed.

End WithHeuristic.

(** Witness of [nested_key_is_reported_under_bracket_key]: a package
    of [pip] is upgraded and another one installed. *)
Lemma nested_key_witness :
  let pip1 := [("requests", PStr "2.31.0")] in
  let pip2 := [("requests", PStr "2.32.0"); ("rich", PStr "13.7.0")] in
  simple_key "pip" = true /\ plain_key "rich" = true
  /\ exists entries,
       added (@_compare_collector_data never_pair
                (PDict [("pip", PDict pip1)]) (PDict [("pip", PDict pip2)])) = Some entries
       /\ dict_mem "pip['rich" entries = true.
Proof.
  cbv zeta. split; [reflexivity|]. split; [reflexivity|].
  exact (proj1 (proj1 (proj1 (@nested_key_is_reported_under_bracket_key never_pair
                                [("pip", PDict [("requests", PStr "2.31.0")])]
                                [("pip", PDict [("requests", PStr "2.32.0");
                                                ("rich", PStr "13.7.0")])]
                                "pip" _ _ "rich" eq_refl eq_refl eq_refl eq_refl)
                               eq_refl eq_refl) eq_refl eq_refl) eq_refl eq_refl).
Defined.

(** The members of the result for these packages. *)
Example nested_packages_result :
  @_compare_collector_data never_pair
    (PDict [("pip", PDict [("requests", PStr "2.31.0")])])
    (PDict [("pip", PDict [("requests", PStr "2.32.0"); ("rich", PStr "13.7.0")])])
  = {| added := Some [("pip['rich", PStr "13.7.0")];
       removed := None;
       changed := Some [("pip[requests", {| old := PStr "2.31.0"; new := PStr "2.32.0" |})];
       type_changed := None; items_added := None; items_removed := None |}.
Proof. reflexivity. Qed.

(** Packages too far apart: one of four is kept, and the two mappings
    are reported whole under the key of the category. *)
Example nested_packages_apart :
  let pip1 := PDict [("requests", PStr "2.31.0"); ("six", PStr "1.16.0")] in
  let pip2 := PDict [("requests", PStr "2.31.0"); ("rich", PStr "13.7.0");
                     ("click", PStr "8.1.7")] in
  @_compare_collector_data never_pair (PDict [("pip", pip1)]) (PDict [("pip", pip2)])
  = {| added := None; removed := None;
       changed := Some [("pip", {| old := pip1; new := pip2 |})];
       type_changed := None; items_added := None; items_removed := None |}.
Proof. reflexivity. Qed.

End NestedExtras.

(** ** The environment variables a snapshot holds *)

Module EnvVarsFacts.

Import PyFacts EnvVars JsonText.

Lemma dict_mem_set {V : Type} k k' (v : V) d :
  dict_mem k (dict_set k' v d) = String.eqb k k' || dict_mem k d.
Proof.
  unfold dict_mem. induction d as [|[k0 v0] d IH]; simpl.
  - now rewrite orb_false_r.
  - destruct (String.eqb_spec k' k0) as [->|Hne]; simpl.
    + destruct (String.eqb k k0); reflexivity.
    + rewrite IH. destruct (String.eqb k k0), (String.eqb k k'); reflexivity.
Qed.

Lemma dict_set_In {V : Type} k (v : V) d k' v' :
  In (k', v') (dict_set k v d) -> (k' = k /\ v' = v) \/ In (k', v') d.
Proof.
  induction d as [|[k0 v0] d IH]; simpl.
  - intros [[= <- <-]|[]]. now left.
  - destruct (String.eqb_spec k k0) as [->|Hne]; simpl.
    + intros [[= <- <-]|H]; [now left | right; now right].
    + intros [H|H]; [right; now left|]. apply IH in H as [H|H]; [now left | right; now right].
Qed.

Lemma dict_set_wf {V : Type} k (v : V) d : dict_wf d = true -> dict_wf (dict_set k v d) = true.
Proof.
  induction d as [|[k0 v0] d IH]; simpl; [reflexivity|].
  intros H. apply andb_true_iff in H as [Hfresh Hwf].
  destruct (String.eqb_spec k k0) as [->|Hne]; simpl.
  - now rewrite Hfresh, Hwf.
  - rewrite (IH Hwf), dict_mem_set. apply negb_true_iff in Hfresh. rewrite Hfresh.
    assert (E : String.eqb k0 k = false) by (apply String.eqb_neq; congruence).
    now rewrite E.
Qed.

Lemma substring_length n s : String.length (String.substring 0 n s) = Nat.min n (String.length s).
Proof.
  revert s. induction n as [|n IH]; intros s; destruct s as [|c s]; simpl; try reflexivity.
  now rewrite IH.
Qed.

(** What a step of the loop stores is a text of 500 characters at most,
    and the mark when the name is sensitive. *)
Lemma collect_step_ok env_vars item :
  (forall k v, In (k, v) env_vars ->
     exists s, v = PStr s /\ String.length s <= 500
               /\ (is_sensitive k = true -> s = "[REDACTED]")) ->
  forall k v, In (k, v) (collect_step env_vars item) ->
    exists s, v = PStr s /\ String.length s <= 500
              /\ (is_sensitive k = true -> s = "[REDACTED]").
Proof.
  destruct item as [key value]. intros Hacc k v. unfold collect_step.
  destruct (in_strings key EXCLUDED_VARS); [apply Hacc|].
  destruct (is_sensitive key) eqn:Es.
  - intros H. apply dict_set_In in H as [[-> ->]|H]; [|now apply Hacc].
    exists "[REDACTED]". split; [reflexivity|]. split; [simpl; lia | reflexivity].
  - destruct (500 <? String.length value)%nat eqn:El.
    + intros H. apply dict_set_In in H as [[-> ->]|H]; [|now apply Hacc].
      eexists. split; [reflexivity|]. split; [|congruence].
      rewrite length_append. unfold slice_to. rewrite substring_length.
      change (String.length "...") with 3. lia.
    + intros H. apply dict_set_In in H as [[-> ->]|H]; [|now apply Hacc].
      exists value. split; [reflexivity|]. split; [|congruence].
      apply Nat.ltb_ge in El. exact El.
Qed.

Lemma collect_loop_ok environ env_vars :
  (forall k v, In (k, v) env_vars ->
     exists s, v = PStr s /\ String.length s <= 500
               /\ (is_sensitive k = true -> s = "[REDACTED]")) ->
  forall k v, In (k, v) (fold_left collect_step environ env_vars) ->
    exists s, v = PStr s /\ String.length s <= 500
              /\ (is_sensitive k = true -> s = "[REDACTED]").
Proof.
  revert env_vars. induction environ as [|item environ IH]; intros env_vars Hacc;
    cbn [fold_left].
  - exact Hacc.
  - apply IH. now apply collect_step_ok.
Qed.

Lemma collect_step_mem env_vars key value k :
  dict_mem k (collect_step env_vars (key, value))
  = dict_mem k env_vars || (String.eqb k key && negb (in_strings key EXCLUDED_VARS)).
Proof.
  unfold collect_step. destruct (in_strings key EXCLUDED_VARS); simpl.
  - now rewrite andb_false_r, orb_false_r.
  - rewrite andb_true_r.
    destruct (is_sensitive key); [|destruct (500 <? String.length value)%nat];
      rewrite dict_mem_set; apply orb_comm.
Qed.

Lemma collect_loop_mem environ env_vars k :
  dict_mem k (fold_left collect_step environ env_vars)
  = dict_mem k env_vars || (dict_mem k environ && negb (in_strings k EXCLUDED_VARS)).
Proof.
  revert env_vars. induction environ as [|[key value] environ IH]; intros env_vars.
  - simpl. now rewrite orb_false_r.
  - cbn [fold_left]. rewrite IH, collect_step_mem.
    change (dict_mem k ((key, value) :: environ))
      with (String.eqb k key || dict_mem k environ).
    destruct (String.eqb_spec k key) as [E|Hne].
    + subst k. destruct (dict_mem key env_vars), (dict_mem key environ),
        (in_strings key EXCLUDED_VARS); reflexivity.
    + destruct (dict_mem k env_vars), (dict_mem k environ), (in_strings k EXCLUDED_VARS);
        reflexivity.
Qed.

Lemma collect_loop_wf environ env_vars :
  dict_wf env_vars = true -> dict_wf (fold_left collect_step environ env_vars) = true.
Proof.
  revert env_vars. induction environ as [|[key value] environ IH]; intros env_vars H;
    cbn [fold_left].
  - exact H.
  - apply IH. unfold collect_step.
    destruct (in_strings key EXCLUDED_VARS); [assumption|].
    destruct (is_sensitive key); [|destruct (500 <? String.length value)%nat];
      now apply dict_set_wf.
Qed.

Lemma collect_loop_other environ env_vars k :
  dict_mem k environ = false ->
  dict_get k (fold_left collect_step environ env_vars) = dict_get k env_vars.
Proof.
  revert env_vars. induction environ as [|[key value] environ IH]; intros env_vars H;
    cbn [fold_left].
  - reflexivity.
  - unfold dict_mem in H. simpl in H. apply orb_false_iff in H as [Hk H].
    rewrite IH by exact H. apply String.eqb_neq in Hk. unfold collect_step.
    destruct (in_strings key EXCLUDED_VARS); [reflexivity|].
    destruct (is_sensitive key); [|destruct (500 <? String.length value)%nat];
      now apply dict_get_set_other.
Qed.

Lemma collect_loop_get environ env_vars key value :
  dict_wf environ = true -> dict_get key environ = Some value ->
  dict_get key (fold_left collect_step environ env_vars)
  = dict_get key (collect_step env_vars (key, value)).
Proof.
  revert env_vars. induction environ as [|[k v] environ IH]; intros env_vars Hwf Hget;
    [discriminate|].
  simpl in Hwf, Hget. apply andb_true_iff in Hwf as [Hfresh Hwf].
  apply negb_true_iff in Hfresh. cbn [fold_left].
  destruct (String.eqb_spec key k) as [->|Hne].
  - injection Hget as ->. now apply collect_loop_other.
  - rewrite (IH _ Hwf Hget). unfold collect_step.
    destruct (in_strings k EXCLUDED_VARS).
    + reflexivity.
    + assert (Hset : forall x, dict_get key (dict_set k x env_vars) = dict_get key env_vars)
        by (intros x; now apply dict_get_set_other).
      assert (Hmem : forall x y,
                dict_get key (dict_set key x (dict_set k y env_vars))
                = dict_get key (dict_set key x env_vars))
        by (intros x y; now rewrite !dict_get_set_same).
      destruct (in_strings key EXCLUDED_VARS);
        destruct (is_sensitive k), (is_sensitive key);
        destruct (500 <? String.length v)%nat, (500 <? String.length value)%nat;
        rewrite ?Hset, ?Hmem; reflexivity.
Qed.

End EnvVarsFacts.

Module EnvVarsExtras.

Import PyFacts EnvVars EnvVarsFacts JsonText.

(** X15.  [EnvVarsCollector.collect] returns a mapping that has a
    variable of the environment exactly when the variable is not one of
    [EXCLUDED_VARS]; no key occurs twice in it. *)
Theorem collect_leaves_out_excluded_variables environ :
  exists env_vars,
    collect environ = PDict env_vars
    /\ dict_wf env_vars = true
    /\ forall key,
         dict_mem key env_vars
         = dict_mem key environ && negb (in_strings key EXCLUDED_VARS).
Proof.
  exists (fold_left collect_step environ []). split; [reflexivity|]. split.
  - now apply collect_loop_wf.
  - intros key. now rewrite collect_loop_mem.
Qed.

(** X17.  What [collect] stores for a variable that is not excluded
    is a text of 500 characters at most.  It is the mark [[REDACTED]]
    when the name holds, in any letter case, one of the sensitive
    words, so that the value of such a variable is never in a snapshot;
    else it is the value, cut to its first 497 characters followed by
    three dots, 500 characters in all, when the value has more than
    500. *)
Theorem collect_redacts_or_bounds_each_value environ env_vars key value :
  dict_wf environ = true -> dict_get key environ = Some value ->
  in_strings key EXCLUDED_VARS = false ->
  collect environ = PDict env_vars ->
  (exists s, dict_get key env_vars = Some (PStr s) /\ String.length s <= 500)
  /\ (is_sensitive key = true -> dict_get key env_vars = Some (PStr "[REDACTED]"))
  /\ (is_sensitive key = false -> String.length value <= 500 ->
      dict_get key env_vars = Some (PStr value))
  /\ (is_sensitive key = false -> 500 < String.length value ->
      dict_get key env_vars = Some (PStr (slice_to 497 value ++ "..."))
      /\ String.length (slice_to 497 value ++ "...") = 500).
Proof.
  intros Hwf Hget Hex [= <-].
  assert (Hcut : 500 < String.length value ->
                 String.length (slice_to 497 value ++ "...") = 500).
  { intros Hlt. rewrite length_append. unfold slice_to. rewrite substring_length.
    change (String.length "...") with 3. lia. }
  rewrite (collect_loop_get environ [] key value Hwf Hget).
  unfold collect_step. rewrite Hex.
  destruct (is_sensitive key).
  - rewrite dict_get_set_same. split; [|split; [reflexivity|split; discriminate]].
    eexists. split; [reflexivity|]. change (String.length "[REDACTED]") with 10. lia.
  - destruct (500 <? String.length value)%nat eqn:E.
    + apply Nat.ltb_lt in E. rewrite dict_get_set_same.
      split; [|split; [discriminate|split]].
      * eexists. split; [reflexivity|]. rewrite (Hcut E). lia.
      * intros _ Hle. lia.
      * intros _ _. split; [reflexivity | exact (Hcut E)].
    + apply Nat.ltb_ge in E. rewrite dict_get_set_same.
      split; [|split; [discriminate|split]].
      * eexists. split; [reflexivity | exact E].
      * reflexivity.
      * intros _ Hlt. lia.
Qed.

(** Witness of [collect_redacts_or_bounds_each_value]: the environment
    of [test_collect_redacts_sensitive_values] and its variable
    [TEST_PASSWORD]. *)
Lemma collect_redacts_witness :
  dict_wf [("TEST_PASSWORD", "secret123"); ("NORMAL_VAR", "normal")] = true
  /\ is_sensitive "TEST_PASSWORD" = true
  /\ collect [("TEST_PASSWORD", "secret123"); ("NORMAL_VAR", "normal")]
     = PDict [("TEST_PASSWORD", PStr "[REDACTED]"); ("NORMAL_VAR", PStr "normal")]
  /\ dict_get "TEST_PASSWORD"
       [("TEST_PASSWORD", PStr "[REDACTED]"); ("NORMAL_VAR", PStr "normal")]
     = Some (PStr "[REDACTED]").
Proof.
  split; [reflexivity|]. split; [reflexivity|]. split; [reflexivity|].
  exact (proj1 (proj2 (collect_redacts_or_bounds_each_value
                         [("TEST_PASSWORD", "secret123"); ("NORMAL_VAR", "normal")]
                         [("TEST_PASSWORD", PStr "[REDACTED]"); ("NORMAL_VAR", PStr "normal")]
                         "TEST_PASSWORD" "secret123" eq_refl eq_refl eq_refl eq_refl))
               eq_refl).
Defined.

End EnvVarsExtras.

(** ** The collectors of the module *)

Module CollectorsExtras.

Import PyFacts SnapshotEngine Collectors CaptureClaims.

Section WithWorld.

Variable World : Type.

Variables process network env_vars packages files system : action World pyvalue.

Lemma all_collectors_names :
  map collector_name (ALL_COLLECTORS World process network env_vars packages files system)
  = ["process"; "network"; "envvars"; "packages"; "files"; "system"].
Proof. reflexivity. Qed.

Lemma all_collectors_distinct :
  NoDup (map collector_name
           (ALL_COLLECTORS World process network env_vars packages files system)).
Proof.
  rewrite all_collectors_names.
  repeat constructor; simpl; intuition discriminate.
Qed.

(** X18.  An engine made without collectors, or with an empty list of
    them, runs the six collectors of the module.  Its [capture] returns
    a snapshot with the six categories [process], [network],
    [envvars], [packages], [files] and [system], in this order, each
    holding what its collector returned, or the error marker when the
    collector raised. *)
Theorem default_capture_has_six_categories w :
  let ALL := ALL_COLLECTORS World process network env_vars packages files system in
  init_collectors World ALL None = ALL
  /\ init_collectors World ALL (Some []) = ALL
  /\ exists snapshot,
       capture ALL w = (Returns snapshot, run_collectors ALL w)
       /\ dict_keys snapshot = ["process"; "network"; "envvars"; "packages"; "files"; "system"]
       /\ forall i c, nth_error ALL i = Some c ->
            dict_get (collector_name c) snapshot
            = Some (category_of c (run_collectors (firstn i ALL) w)).
Proof.
  cbv zeta. split; [reflexivity|]. split; [reflexivity|].
  exists (captured (ALL_COLLECTORS World process network env_vars packages files system) [] w).
  split; [apply capture_loop_returns|]. split.
  - rewrite captured_keys; [apply all_collectors_names | apply all_collectors_distinct |].
    intros c _. reflexivity.
  - intros i c Hnth. apply captured_get; [apply all_collectors_distinct | exact Hnth].
Qed.

End WithWorld.

End CollectorsExtras.

(** ** What the formatter shows *)

Module FormatterFacts.

Import DeepDiffLib Json SnapshotDiff SnapshotStorage SnapshotEngine Formatters.
Import PyFacts JsonText EnvVarsFacts.

Lemma section_lines_hidden {A : Type} (member : option (list A)) heading line :
  member_true member = false -> section_lines member heading line = [].
Proof. destruct member as [[|e l]|]; [reflexivity | discriminate | reflexivity]. Qed.

(** The row of a category that is a mapping with the key [error]. *)
Lemma summary_error_row data category entries details :
  In (category, PDict entries) data -> dict_get "error" entries = Some details ->
  In (error_row category details) (format_snapshot_summary data).
Proof.
  intros Hin Hget. unfold format_snapshot_summary. apply in_flat_map.
  exists (category, PDict entries). split; [assumption|].
  unfold summary_rows_of. rewrite Hget. now left.
Qed.

End FormatterFacts.

Module FormatterExtras.

Import DeepDiffLib Json SnapshotDiff SnapshotStorage SnapshotEngine Formatters.
Import PyFacts PathFacts JsonText EnvVarsFacts FormatterFacts Samples CaptureClaims.

Section WithFloatText.

Context {float_text : FloatText}.

(** [_format_value] shows a string between double quotes: the whole of
    it when it has 50 characters at most, else its first 47 characters
    and three dots; 52 characters at most in all. *)
Lemma format_value_cuts_long_strings s :
  (String.length s <= 50 ->
     _format_value (PStr s) = String dquote (s ++ String dquote EmptyString)%string)
  /\ (50 < String.length s ->
      _format_value (PStr s)
      = String dquote (slice_to 47 s ++ "..." ++ String dquote EmptyString)%string)
  /\ String.length (_format_value (PStr s)) = 2 + Nat.min 50 (String.length s).
Proof.
  unfold _format_value. split; [|split].
  - intros H. apply Nat.ltb_ge in H. now rewrite H.
  - intros H. apply Nat.ltb_lt in H. now rewrite H.
  - destruct (50 <? String.length s)%nat eqn:E.
    + apply Nat.ltb_lt in E. cbn [String.length]. rewrite !length_append.
      unfold slice_to. rewrite substring_length.
      change (String.length "...") with 3. cbn [String.length]. lia.
    + apply Nat.ltb_ge in E. cbn [String.length]. rewrite length_append.
      cbn [String.length]. lia.
Qed.

(** X21.  [format_diff] shows no change of type.  When no category of
    the change set has an entry in [added], [removed], [changed],
    [items_added] or [items_removed], it prints the line that names the
    two snapshots and nothing else: no panel, and not the message that
    no differences were found. *)
Theorem format_diff_hides_type_changes diff snapshot1_id snapshot2_id :
  diff <> [] ->
  (forall name r, In (name, r) diff ->
     member_true (added r) = false /\ member_true (removed r) = false
     /\ member_true (changed r) = false
     /\ member_true (items_added r) = false /\ member_true (items_removed r) = false) ->
  format_diff diff snapshot1_id snapshot2_id = [comparing snapshot1_id snapshot2_id].
Proof.
  intros Hne Hall. unfold format_diff. f_equal.
  destruct diff as [|e diff]; [contradiction|].
  assert (H : forall l, (forall x, In x l -> In x (e :: diff)) -> flat_map category_panel l = []).
  { induction l as [|[name r] l IH]; intros Hl; [reflexivity|].
    cbn [flat_map]. rewrite IH by (intros x Hx; apply Hl; now right).
    rewrite List.app_nil_r. unfold category_panel.
    destruct (negb (nonempty_result r)); [reflexivity|].
    destruct (Hall name r (Hl _ (or_introl eq_refl))) as (Ha & Hr & Hc & Hia & Hir).
    unfold panel_content. now rewrite !section_lines_hidden. }
  apply H. auto.
Qed.

End WithFloatText.

(** The cell of a snapshot in the column [ID] has 15 characters at
    most: the id itself when it is no longer than that, else its first
    12 characters and three dots. *)
Lemma id_cell_has_15_characters_at_most id :
  String.length (id_cell id) <= 15
  /\ (String.length id <= 15 -> id_cell id = id)
  /\ (15 < String.length id -> id_cell id = (slice_to 12 id ++ "...")%string).
Proof.
  unfold id_cell. destruct (15 <? String.length id)%nat eqn:E.
  - apply Nat.ltb_lt in E. split; [|split; [lia | reflexivity]].
    rewrite length_append. unfold slice_to. rewrite substring_length.
    change (String.length "...") with 3. lia.
  - apply Nat.ltb_ge in E. split; [assumption|]. split; [reflexivity | lia].
Qed.

Lemma slice_to_append n a b :
  n <= String.length a -> slice_to n (a ++ b) = slice_to n a.
Proof.
  unfold slice_to. revert a. induction n as [|n IH]; intros a H.
  - destruct a, b; reflexivity.
  - destruct a as [|c a]; [simpl in H; lia|]. simpl. f_equal. apply IH. simpl in H. lia.
Qed.

Lemma slice_to_prefix n a b :
  slice_to (String.length a + n) (a ++ b) = (a ++ slice_to n b)%string.
Proof.
  unfold slice_to. induction a as [|c a IH]; [reflexivity|]. simpl. now rewrite IH.
Qed.

(** X20.  The id the engine generates for a snapshot without a name,
    [snapshot-] and the 15 characters of the date and the time, is
    shown in the column [ID] as [snapshot-], the first three
    characters of the year and three dots, so that the snapshots of
    one decade have the same cell. *)
Theorem generated_ids_share_their_cell stamp :
  String.length stamp = 15 ->
  id_cell (generate_snapshot_id stamp None) = ("snapshot-" ++ slice_to 3 stamp ++ "...")%string.
Proof.
  intros H. unfold generate_snapshot_id, id_cell.
  rewrite length_append, H. cbn [String.length Nat.add Nat.ltb Nat.leb].
  change 12 with (String.length "snapshot-" + 3).
  rewrite slice_to_prefix. now rewrite append_assoc.
Qed.

Section WithWorld.

Variable World : Type.

(** X22.  A collector that raised is shown as an error in the summary
    of the snapshot captured: the row of its category holds the
    message of the error marker. *)
Theorem failed_collector_is_shown_as_error (collectors : list (collector World)) w i c e :
  NoDup (map collector_name collectors) ->
  nth_error collectors i = Some c ->
  fst (collect c (run_collectors (firstn i collectors) w)) = Raises e ->
  exists snapshot,
    fst (capture collectors w) = Returns snapshot
    /\ In (error_row (collector_name c) (PStr ("Collection failed: " ++ e)))
          (format_snapshot_summary snapshot).
Proof.
  intros Hnd Hnth Hraise. exists (captured collectors [] w). split.
  - unfold capture. now rewrite capture_loop_returns.
  - apply (summary_error_row _ _ [("error", PStr ("Collection failed: " ++ e))]);
      [|reflexivity].
    apply dict_get_In. rewrite (captured_get World collectors [] w i c Hnd Hnth).
    unfold category_of. now rewrite Hraise.
Qed.

End WithWorld.

(** X23.  The key [error] marks a failure wherever it is.  When the
    environment has a variable named [error], the category of the
    environment variables is shown as an error in the summary, with the
    value of that variable as its message. *)
Theorem variable_named_error_is_shown_as_failure environ value data :
  dict_wf environ = true -> dict_get "error" environ = Some value ->
  String.length value <= 500 ->
  In ("envvars", EnvVars.collect environ) data ->
  In (error_row "envvars" (PStr value)) (format_snapshot_summary data).
Proof.
  intros Hwf Hget Hlen Hin.
  apply (summary_error_row data "envvars" (fold_left EnvVars.collect_step environ []));
    [exact Hin|].
  rewrite (collect_loop_get environ [] "error" value Hwf Hget).
  unfold EnvVars.collect_step.
  change (in_strings "error" EnvVars.EXCLUDED_VARS) with false.
  change (EnvVars.is_sensitive "error") with false. cbv iota.
  apply Nat.ltb_ge in Hlen. rewrite Hlen. apply dict_get_set_same.
Qed.

(** Witness of [format_diff_hides_type_changes]: the snapshots with the
    figure [10.0] and the figure [10].  The change set has a change,
    and nothing of it is shown. *)
Lemma format_diff_hides_witness :
  let diff := @SnapshotDiff.compare never_pair
                [("system", PDict system_float)] [("system", PDict system_int)] in
  diff <> []
  /\ has_changes diff = true
  /\ @format_diff integral_float_text diff "a" "b" = [comparing "a" "b"].
Proof.
  cbv zeta. split; [discriminate|]. split; [reflexivity|].
  apply (@format_diff_hides_type_changes integral_float_text); [discriminate|].
  intros name r [[= <- <-]|[]]. repeat split.
Defined.

(** Witness of [generated_ids_share_their_cell]: two snapshots taken
    years apart. *)
Lemma generated_ids_witness :
  String.length "20260210-093000" = 15
  /\ id_cell (generate_snapshot_id "20260210-093000" None) = "snapshot-202..."
  /\ id_cell (generate_snapshot_id "20291231-235959" None) = "snapshot-202...".
Proof.
  split; [reflexivity|]. split.
  - exact (generated_ids_share_their_cell "20260210-093000" eq_refl).
  - reflexivity.
Defined.

(** Witness of [failed_collector_is_shown_as_error]: the mock collectors
    of the tests, the second of which raises. *)
Lemma failed_collector_witness :
  NoDup (map collector_name test_collectors)
  /\ exists snapshot,
       fst (capture test_collectors []) = Returns snapshot
       /\ In (error_row "failing" (PStr "Collection failed: Test error"))
             (format_snapshot_summary snapshot).
Proof.
  assert (H : NoDup (map collector_name test_collectors)).
  { repeat constructor; simpl; intuition discriminate. }
  split; [exact H|].
  exact (failed_collector_is_shown_as_error (list string) test_collectors [] 1
           (logging_collector "FailingCollector" (Raises "Test error")) "Test error"
           H eq_refl eq_refl).
Defined.

(** Witness of [variable_named_error_is_shown_as_failure]. *)
Lemma variable_named_error_witness :
  dict_wf [("HOME", "/root"); ("error", "none")] = true
  /\ In (error_row "envvars" (PStr "none"))
        (format_snapshot_summary
           [("envvars", EnvVars.collect [("HOME", "/root"); ("error", "none")])]).
Proof.
  split; [reflexivity|].
  apply (variable_named_error_is_shown_as_failure
           [("HOME", "/root"); ("error", "none")] "none");
    [reflexivity | reflexivity | simpl; lia | now left].
Defined.

End FormatterExtras.

(** ** The commands *)

Module CommandFacts.

Import Json SnapshotStorage SnapshotEngine Cli Commands Stores.
Import PyFacts StorageClaims StoreFacts JsonRoundTrip CaptureClaims.

Section WithWorld.

Variable World : Type.

Context {float_text : FloatText}.

Variable ALL_COLLECTORS : list (collector World).
Variable stamp : string.
Variable now : Q.

(** What [snap] does on a machine whose database opens. *)
Lemma snap_on_table name db w :
  snap World ALL_COLLECTORS stamp now name {| table := Ok db; faults := []; world := w |}
  = (let engine := init_collectors World ALL_COLLECTORS None in
     let snapshot_id := generate_snapshot_id stamp name in
     let snapshot_data := captured engine [] w in
     (([success_message ("Snapshot '" ++ snapshot_id ++ "' created successfully");
        snapshot_summary snapshot_id snapshot_data], Normal tt),
      {| table := Ok (save_snapshot now snapshot_id snapshot_id snapshot_data db); faults := [];
         world := run_collectors engine w |})).
Proof.
  cbv zeta. unfold snap, try_except, Commands.bind, open_storage, on_table, on_world, show.
  cbn [table faults world _init_db tl].
  unfold capture_named, SnapshotEngine.bind, capture, SnapshotEngine.ret.
  rewrite capture_loop_returns. reflexivity.
Qed.


(** A snapshot that a command saves is found under its id. *)
Lemma command_store_get_saved snapshot_id snapshot_data db :
  command_store db -> json_data (PDict snapshot_data) = true ->
  get_snapshot snapshot_id (save_snapshot now snapshot_id snapshot_id snapshot_data db)
  = Ok (Some (PDict snapshot_data))
  /\ snapshot_exists snapshot_id (save_snapshot now snapshot_id snapshot_id snapshot_data db)
     = true.
Proof.
  intros Hstore Hdata.
  destruct (command_store_invariants db Hstore) as [_ Hnames].
  unfold get_snapshot, snapshot_exists, save_snapshot. rewrite fetchone_first.
  - cbn [data]. now rewrite loads_dumps.
  - intros r Hin. apply filter_In in Hin as [Hin Hne].
    apply negb_true_iff in Hne. apply String.eqb_neq in Hne. split; [assumption|].
    now rewrite (Hnames r Hin).
  - now left.
Qed.

End WithWorld.

Section WithLibraries.

Variable World : Type.

Context {float_text : FloatText} {heuristic : DeepDiffLib.PairHeuristic}.

Variable ALL_COLLECTORS : list (collector World).
Variable stamp : string.

(** The baseline of [watch] on a machine whose database opens. *)
Lemma watch_baseline_on_table now db w :
  watch_baseline World ALL_COLLECTORS stamp now {| table := Ok db; faults := []; world := w |}
  = (let engine := init_collectors World ALL_COLLECTORS None in
     let initial_data := captured engine [] w in
     (([success_message "Baseline snapshot 'watch-baseline' created"], Normal initial_data),
      {| table := Ok (save_snapshot now "watch-baseline" "watch-baseline" initial_data db);
         faults := [];
         world := run_collectors engine w |})).
Proof.
  cbv zeta. unfold watch_baseline, Commands.bind, open_storage, on_table, on_world, show,
    Commands.ret.
  cbn [table faults world _init_db tl].
  unfold capture_named, SnapshotEngine.bind, capture, SnapshotEngine.ret.
  rewrite capture_loop_returns. reflexivity.
Qed.

(** A turn of the loop of [watch] on a machine whose database opens. *)
Lemma watch_iteration_on_table t last_snapshot_data db w :
  watch_iteration World ALL_COLLECTORS stamp t last_snapshot_data
    {| table := Ok db; faults := []; world := w |}
  = (let engine := init_collectors World ALL_COLLECTORS None in
     let current_data := captured engine [] w in
     let diff := SnapshotDiff.compare last_snapshot_data current_data in
     let new_id := ("watch-" ++ int_str (seconds t))%string in
     if SnapshotDiff.has_changes diff
     then (([info_message ("Changes detected at " ++ clock_text t);
             diff_shown diff "previous" "current"], Normal current_data),
           {| table := Ok (save_snapshot (saved_at t) new_id new_id current_data db); faults := [];
              world := run_collectors engine (run_collectors engine w) |})
     else (([], Normal last_snapshot_data),
           {| table := Ok db; faults := []; world := run_collectors engine w |})).
Proof.
  cbv zeta. unfold watch_iteration, Commands.bind at 1, on_world at 1.
  cbn [table faults world tl]. unfold capture. rewrite capture_loop_returns.
  destruct (SnapshotDiff.has_changes _); [|reflexivity].
  unfold Commands.bind, on_world, on_table, show, Commands.ret.
  cbn [table faults world tl].
  unfold capture_named, SnapshotEngine.bind, capture, SnapshotEngine.ret.
  rewrite capture_loop_returns. reflexivity.
Qed.

(** While every capture gives the same data, the loop shows nothing and
    leaves the table as it is. *)
Lemma watch_loop_steady interval turns d db w :
  (interval <? 0)%Z = false -> value_wf (PDict d) = true ->
  (forall n,
     captured (init_collectors World ALL_COLLECTORS None) []
       (Nat.iter n (run_collectors (init_collectors World ALL_COLLECTORS None)) w) = d) ->
  forall n,
    watch_loop World ALL_COLLECTORS stamp interval turns d
      {| table := Ok db; faults := [];
         world := Nat.iter n (run_collectors (init_collectors World ALL_COLLECTORS None)) w |}
    = (([], Normal d),
       {| table := Ok db; faults := [];
          world := Nat.iter (List.length turns + n)
                     (run_collectors (init_collectors World ALL_COLLECTORS None)) w |}).
Proof.
  intros Hinterval Hwf Hsteady.
  assert (D : SnapshotDiff.compare d d = []).
  { unfold SnapshotDiff.compare. now apply DiffClaims.compare_loop_same. }
  induction turns as [|t turns IH]; intros n; [reflexivity|].
  cbn [watch_loop]. unfold Commands.bind at 1. unfold sleep. rewrite Hinterval.
  unfold Commands.ret at 1. unfold Commands.bind at 1.
  rewrite watch_iteration_on_table. cbv zeta. rewrite (Hsteady n), D.
  cbn [SnapshotDiff.has_changes]. 
  change (run_collectors (init_collectors World ALL_COLLECTORS None)
            (Nat.iter n (run_collectors (init_collectors World ALL_COLLECTORS None)) w))
    with (Nat.iter (S n) (run_collectors (init_collectors World ALL_COLLECTORS None)) w).
  rewrite (IH (S n)). cbn [List.length app]. now rewrite Nat.add_succ_r.
Qed.

End WithLibraries.

End CommandFacts.

Module CommandExtras.

Import Json SnapshotStorage SnapshotEngine Cli Commands Stores.
Import PyFacts StorageClaims StoreFacts JsonRoundTrip CaptureClaims CommandFacts Samples.
Import DiffFacts.

Section WithWorld.

Variable World : Type.

Context {float_text : FloatText} {heuristic : DeepDiffLib.PairHeuristic}.

Variable ALL_COLLECTORS : list (collector World).
Variable stamp : string.
Variable now : Q.

(* A machine with [faults := []] is one on which no call of the store
   meets a fault: the calls raise only when the database cannot be
   opened. *)

(** X24.  When the database cannot be opened, each of [snap], [list],
    [delete], [export] and [watch] shows one error message, which ends
    with the text of the exception, and ends with the exit status 1;
    the machine is as it was, so no collector has run.  When the
    database opens, [snap] and [list] end with the exit status 0
    exactly when neither of their two calls of the store raises,
    whatever the collectors do and the table holds; when the first call
    of [snap] raises, no collector has run. *)
Theorem commands_fail_only_for_the_store e w db coming name s interval turns :
  let m := {| table := Raise e; faults := coming; world := w |} in
  let m' := {| table := Ok db; faults := coming; world := w |} in
  snap World ALL_COLLECTORS stamp now name m
  = (([error_message ("Failed to create snapshot: " ++ e)], SystemExit 1), m)
  /\ list_command World m
     = (([error_message ("Failed to list snapshots: " ++ e)], SystemExit 1), m)
  /\ delete World s m
     = (([error_message ("Failed to delete snapshot: " ++ e)], SystemExit 1), m)
  /\ export World s m
     = (([error_message ("Failed to export snapshot: " ++ e)], SystemExit 1), m)
  /\ watch World ALL_COLLECTORS stamp interval now turns m
     = (([info_message
            ("Starting continuous monitoring (interval: " ++ int_str interval ++ "s)");
          info_message "Press Ctrl+C to stop";
          error_message ("Watch failed: " ++ e)], SystemExit 1), m)
  /\ exit_status (snd (fst (snap World ALL_COLLECTORS stamp now name m')))
     = (if no_fault 2 coming then 0%Z else 1%Z)
  /\ exit_status (snd (fst (list_command World m')))
     = (if no_fault 2 coming then 0%Z else 1%Z)
  /\ (no_fault 1 coming = false ->
      world (snd (snap World ALL_COLLECTORS stamp now name m')) = w)
  /\ (no_fault 2 coming = true ->
      fst (list_command World m') = ([snapshot_list (list_snapshots db)], Normal tt)).
Proof.
  cbv zeta.
  split; [reflexivity|]. split; [reflexivity|]. split; [reflexivity|].
  split; [reflexivity|]. split; [reflexivity|].
  split; [|split; [|split]].
  - destruct coming as [|[e1|] [|[e2|] rest]];
      unfold snap, try_except, Commands.bind, open_storage, on_table, on_world, show,
        Commands.sys_exit;
      cbn [table faults world _init_db tl];
      unfold capture_named, SnapshotEngine.bind, capture, SnapshotEngine.ret;
      rewrite ?capture_loop_returns; reflexivity.
  - destruct coming as [|[e1|] [|[e2|] rest]]; reflexivity.
  - destruct coming as [|[e1|] rest]; [discriminate | reflexivity | discriminate].
  - destruct coming as [|[e1|] [|[e2|] rest]]; try discriminate; reflexivity.
Qed.

(** X25.  After [snap] on a table the commands built, the snapshot is
    found under its id, with the data captured in all its categories,
    and the table is still one the commands built. *)
Theorem snap_then_get_snapshot name db w :
  command_store db ->
  let engine := init_collectors World ALL_COLLECTORS None in
  json_data (PDict (captured engine [] w)) = true ->
  exists db',
    table (snd (snap World ALL_COLLECTORS stamp now name
                  {| table := Ok db; faults := []; world := w |}))
    = Ok db'
    /\ command_store db'
    /\ get_snapshot (generate_snapshot_id stamp name) db'
       = Ok (Some (PDict (captured engine [] w)))
    /\ snapshot_exists (generate_snapshot_id stamp name) db' = true.
Proof.
  intros Hstore engine Hdata. rewrite snap_on_table. cbv zeta. fold engine.
  eexists. split; [reflexivity|]. split; [now apply store_saved|].
  now apply command_store_get_saved.
Qed.



(** X27.  [export] prints the text that [save_snapshot] stored, the
    JSON text of the data, when no other record is named by the id.
    A snapshot without a category is reported as not found although it
    is stored. *)
Theorem export_prints_the_saved_text snapshot_id name data db w :
  json_data (PDict data) = true ->
  (forall r, In r db -> id r <> snapshot_id -> SnapshotStorage.name r <> snapshot_id) ->
  let m := {| table := Ok (save_snapshot now snapshot_id name data db);
              faults := []; world := w |} in
  export World snapshot_id m
  = match data with
    | [] => (([error_message ("Snapshot '" ++ snapshot_id ++ "' not found")], SystemExit 1), m)
    | _ :: _ => (([standard_output (dumps (PDict data))], Normal tt), m)
    end.
Proof.
  intros Hdata Hnames. cbv zeta.
  assert (G : get_snapshot snapshot_id (save_snapshot now snapshot_id name data db)
              = Ok (Some (PDict data))).
  { unfold get_snapshot, save_snapshot. rewrite fetchone_first.
    - cbn [SnapshotStorage.data]. now rewrite loads_dumps.
    - intros r Hin. apply filter_In in Hin as [Hin Hne].
      apply negb_true_iff in Hne. apply String.eqb_neq in Hne. split; [assumption|].
      now apply Hnames.
    - now left. }
  unfold export, try_except, Commands.bind, open_storage, on_table, show, Commands.ret,
    Commands.sys_exit.
  cbn [table faults world _init_db tl]. rewrite G. cbn [table faults world tl].
  destruct data as [|e data]; reflexivity.
Qed.


(** X16.  On a machine whose captures all give the same data, [watch]
    saves the baseline and nothing else, and reports no change, however
    many turns its loop makes before it is stopped from the keyboard.
    With a negative interval it fails after the baseline, with the
    message of [time.sleep] and the exit status 1. *)
Theorem watch_reports_nothing_while_nothing_changes interval turns d db w :
  let engine := init_collectors World ALL_COLLECTORS None in
  let baseline := save_snapshot now "watch-baseline" "watch-baseline" d db in
  value_wf (PDict d) = true ->
  (forall n, captured engine [] (Nat.iter n (run_collectors engine) w) = d) ->
  watch World ALL_COLLECTORS stamp interval now turns {| table := Ok db; faults := []; world := w |}
  = if (interval <? 0)%Z
    then (([info_message
              ("Starting continuous monitoring (interval: " ++ int_str interval ++ "s)");
            info_message "Press Ctrl+C to stop";
            success_message "Baseline snapshot 'watch-baseline' created";
            error_message "Watch failed: sleep length must be non-negative"], SystemExit 1),
          {| table := Ok baseline; faults := []; world := run_collectors engine w |})
    else (([info_message
              ("Starting continuous monitoring (interval: " ++ int_str interval ++ "s)");
            info_message "Press Ctrl+C to stop";
            success_message "Baseline snapshot 'watch-baseline' created";
            info_message "Monitoring stopped"], Normal tt),
          {| table := Ok baseline; faults := [];
             world := Nat.iter (S (List.length turns)) (run_collectors engine) w |}).
Proof.
  intros engine baseline Hwf Hsteady.
  pose proof (Hsteady 0%nat) as H0. change (captured engine [] w = d) in H0.
  cbv beta iota delta [watch try_except Commands.bind show].
  rewrite watch_baseline_on_table. cbv zeta. fold engine. rewrite H0. fold baseline.
  destruct (interval <? 0)%Z eqn:Hinterval.
  - destruct turns as [|t turns]; cbn [watch_loop];
      cbv beta iota delta [Commands.bind Commands.ret Commands.raise sleep sys_exit];
      rewrite Hinterval; reflexivity.
  - change (run_collectors engine w) with (Nat.iter 1 (run_collectors engine) w).
    unfold engine. rewrite (watch_loop_steady World ALL_COLLECTORS stamp interval turns d
                              baseline w Hinterval Hwf Hsteady 1).
    cbv beta iota delta [Commands.ret Commands.raise sleep sys_exit].
    rewrite Hinterval. cbn [app]. now rewrite Nat.add_1_r.
Qed.

End WithWorld.

Section WithLibraries.

Context {float_text : FloatText} {heuristic : DeepDiffLib.PairHeuristic}.


End WithLibraries.

(** The data the mock collectors of the tests give, whatever the log
    holds. *)
Lemma test_collectors_captured (log : list string) :
  captured (init_collectors (list string) test_collectors None) [] log
  = [("test", PDict [("test", PStr "data")]);
     ("failing", PDict [("error", PStr "Collection failed: Test error")])].
Proof. reflexivity. Qed.

Lemma test_collectors_data log :
  @json_data integral_float_text
    (PDict (captured (init_collectors (list string) test_collectors None) [] log)) = true.
Proof. now rewrite test_collectors_captured. Qed.


(** Witness of [snap_then_get_snapshot]: [snap test] with the mock
    collectors of the tests, on the sample store. *)
Lemma snap_then_get_witness :
  @command_store integral_float_text system_db
  /\ exists db',
       table (snd (@snap (list string) integral_float_text test_collectors "20260210-093000" 3
                     (Some "test") {| table := Ok system_db; faults := []; world := [] |}))
       = Ok db'
       /\ @command_store integral_float_text db'
       /\ @get_snapshot integral_float_text "test" db'
          = Ok (Some (PDict [("test", PDict [("test", PStr "data")]);
                             ("failing",
                              PDict [("error", PStr "Collection failed: Test error")])]))
       /\ snapshot_exists "test" db' = true.
Proof.
  split; [exact StoreExtras.system_db_command_store|].
  exact (@snap_then_get_snapshot (list string) integral_float_text test_collectors
           "20260210-093000" 3 (Some "test") system_db []
           StoreExtras.system_db_command_store (test_collectors_data [])).
Defined.


(** Witness of [export_prints_the_saved_text]: the snapshot [c] saved
    into the sample store and exported. *)
Lemma export_prints_witness :
  @json_data integral_float_text (PDict [("system", PDict system_float)]) = true
  /\ (forall r, In r system_db -> id r <> "c" -> SnapshotStorage.name r <> "c")
  /\ fst (@export unit integral_float_text "c"
            {| table := Ok (@save_snapshot integral_float_text 3 "c" "c"
                              [("system", PDict system_float)] system_db); faults := [];
               world := tt |})
     = ([standard_output (@dumps integral_float_text (PDict [("system", PDict system_float)]))],
        Normal tt).
Proof.
  assert (H : forall r, In r system_db -> id r <> "c" -> SnapshotStorage.name r <> "c").
  { intros r [<-|[<-|[]]] _; discriminate. }
  split; [reflexivity|]. split; [exact H|].
  exact (f_equal fst (@export_prints_the_saved_text unit integral_float_text 3 "c" "c"
                        [("system", PDict system_float)] system_db tt eq_refl H)).
Defined.


(** Witness of [watch_reports_nothing_while_nothing_changes]: [watch]
    with the mock collectors of the tests, stopped after two turns. *)
Lemma watch_reports_nothing_witness :
  (forall n,
     captured (init_collectors (list string) test_collectors None) []
       (Nat.iter n (run_collectors (init_collectors (list string) test_collectors None)) [])
     = [("test", PDict [("test", PStr "data")]);
        ("failing", PDict [("error", PStr "Collection failed: Test error")])])
  /\ fst (@watch (list string) integral_float_text DeepDiffLib.never_pair test_collectors
            "20260210_093000" 60 3
            [{| clock_text := "2026-02-10 09:31:00"; seconds := 1770715860; saved_at := 4 |};
             {| clock_text := "2026-02-10 09:32:00"; seconds := 1770715920; saved_at := 5 |}]
            {| table := Ok system_db; faults := []; world := [] |})
     = ([info_message "Starting continuous monitoring (interval: 60s)";
         info_message "Press Ctrl+C to stop";
         success_message "Baseline snapshot 'watch-baseline' created";
         info_message "Monitoring stopped"], Normal tt).
Proof.
  split; [intros n; apply test_collectors_captured|].
  exact (f_equal fst (@watch_reports_nothing_while_nothing_changes (list string)
                        integral_float_text DeepDiffLib.never_pair test_collectors
                        "20260210_093000" 3 60
                        [{| clock_text := "2026-02-10 09:31:00"; seconds := 1770715860;
                            saved_at := 4 |};
                         {| clock_text := "2026-02-10 09:32:00"; seconds := 1770715920;
                            saved_at := 5 |}]
                        [("test", PDict [("test", PStr "data")]);
                         ("failing", PDict [("error", PStr "Collection failed: Test error")])]
                        system_db [] eq_refl
                        (fun n => test_collectors_captured _))).
Defined.


End CommandExtras.

(** ** Processes and connections *)

Module SortFacts.

Import Processes.

Lemma insert_descending_perm {A : Type} (x : keyed A) l :
  Permutation (x :: l) (insert_descending x l).
Proof.
  induction l as [|y l IH]; simpl; [reflexivity|].
  destruct (Qle_bool (fst y) (fst x)); [reflexivity|].
  rewrite perm_swap. now constructor.
Qed.

Lemma sort_descending_perm {A : Type} (items : list (keyed A)) :
  Permutation items (sort_descending items).
Proof.
  unfold sort_descending. induction items as [|x items IH]; simpl; [constructor|].
  rewrite <- insert_descending_perm. now constructor.
Qed.

Lemma insert_descending_sorted {A : Type} (x : keyed A) l :
  StronglySorted (fun a b => (fst b <= fst a)%Q) l ->
  StronglySorted (fun a b => (fst b <= fst a)%Q) (insert_descending x l).
Proof.
  induction l as [|y l IH]; simpl; intros Hs.
  - constructor; constructor.
  - destruct (Qle_bool (fst y) (fst x)) eqn:E.
    + apply Qle_bool_iff in E. constructor; [assumption|].
      constructor; [assumption|]. inversion Hs as [|? ? _ Hall]; subst.
      rewrite Forall_forall in *. intros z Hz. eapply Qle_trans; [now apply Hall | exact E].
    + inversion Hs as [|? ? Hs' Hall]; subst. constructor; [now apply IH|].
      assert (Hlt : (fst x <= fst y)%Q).
      { apply Qlt_le_weak. apply Qnot_le_lt. intros H. apply Qle_bool_iff in H. congruence. }
      rewrite Forall_forall in *. intros z Hz.
      apply (Permutation_in _ (Permutation_sym (insert_descending_perm x l))) in Hz.
      destruct Hz as [<-|Hz]; [assumption | now apply Hall].
Qed.

Lemma sort_descending_sorted {A : Type} (items : list (keyed A)) :
  StronglySorted (fun a b => (fst b <= fst a)%Q) (sort_descending items).
Proof.
  unfold sort_descending. induction items as [|x items IH]; simpl; [constructor|].
  now apply insert_descending_sorted.
Qed.

(** In a sorted list, what is cut off comes after what is kept. *)
Lemma sorted_firstn_skipn {A : Type} (R : A -> A -> Prop) l n x y :
  StronglySorted R l -> In x (firstn n l) -> In y (skipn n l) -> R x y.
Proof.
  intros Hs. revert n. induction Hs as [|a l Hs IH Hall]; intros n Hx Hy.
  - destruct n; destruct Hx.
  - destruct n as [|n]; [destruct Hx|]. simpl in Hx, Hy.
    destruct Hx as [<-|Hx]; [|now apply (IH n)].
    rewrite Forall_forall in Hall. apply Hall.
    clear -Hy. revert n Hy. induction l as [|b l IHl]; intros n Hy.
    + destruct n; destruct Hy.
    + destruct n as [|n]; [exact Hy|]. right. now apply (IHl n).
Qed.

Lemma firstn_In {A : Type} n (l : list A) x : In x (firstn n l) -> In x l.
Proof.
  intros H. rewrite <- (firstn_skipn n l). apply in_or_app. now left.
Qed.

Lemma insert_ascending_perm {A : Type} (x : (string * string) * A) l :
  Permutation (x :: l) (Network.insert_ascending x l).
Proof.
  induction l as [|y l IH]; simpl; [reflexivity|].
  destruct (Network.key_ltb (fst y) (fst x)); [|reflexivity].
  rewrite perm_swap. now constructor.
Qed.

Lemma sort_ascending_perm {A : Type} (items : list ((string * string) * A)) :
  Permutation items (Network.sort_ascending items).
Proof.
  unfold Network.sort_ascending. induction items as [|x items IH]; simpl; [constructor|].
  rewrite <- insert_ascending_perm. now constructor.
Qed.

Lemma key_ltb_lt k k' :
  Network.key_ltb k k' = true
  <-> String_as_OT.lt (fst k) (fst k')
      \/ (fst k = fst k' /\ String_as_OT.lt (snd k) (snd k')).
Proof.
  unfold Network.key_ltb.
  change String.compare with String_as_OT.cmp.
  destruct (String_as_OT.cmp (fst k) (fst k')) eqn:E1.
  - apply String_as_OT.cmp_eq in E1.
    destruct (String_as_OT.cmp (snd k) (snd k')) eqn:E2.
    + apply String_as_OT.cmp_eq in E2. split; [discriminate|].
      intros [H|[_ H]]; exfalso.
      * rewrite E1 in H. exact (String_as_OT.lt_not_eq _ _ H eq_refl).
      * rewrite E2 in H. exact (String_as_OT.lt_not_eq _ _ H eq_refl).
    + apply String_as_OT.cmp_lt in E2. split; [now right | reflexivity].
    + split; [discriminate|]. intros [H|[_ H]]; exfalso.
      * rewrite E1 in H. exact (String_as_OT.lt_not_eq _ _ H eq_refl).
      * apply String_as_OT.cmp_lt in H. congruence.
  - apply String_as_OT.cmp_lt in E1. split; [now left | reflexivity].
  - split; [discriminate|]. intros [H|[H _]]; exfalso.
    + apply String_as_OT.cmp_lt in H. congruence.
    + rewrite H in E1. rewrite (proj2 (String_as_OT.cmp_eq _ _) eq_refl) in E1. discriminate.
Qed.

Lemma string_lt_total a b : String_as_OT.lt a b \/ a = b \/ String_as_OT.lt b a.
Proof.
  destruct (String_as_OT.cmp a b) eqn:E.
  - right. left. now apply String_as_OT.cmp_eq.
  - left. now apply String_as_OT.cmp_lt.
  - right. right. apply String_as_OT.cmp_lt. rewrite String_as_OT.cmp_antisym, E. reflexivity.
Qed.

Lemma string_lt_asym a b : String_as_OT.lt a b -> String_as_OT.lt b a -> False.
Proof.
  intros H1 H2. exact (String_as_OT.lt_not_eq _ _ (String_as_OT.lt_trans _ _ _ H1 H2) eq_refl).
Qed.

Lemma key_ltb_asym k k' : Network.key_ltb k k' = true -> Network.key_ltb k' k = false.
Proof.
  intros H. destruct (Network.key_ltb k' k) eqn:E; [|reflexivity]. exfalso.
  apply key_ltb_lt in H. apply key_ltb_lt in E.
  destruct H as [H|[H1 H2]], E as [E|[E1 E2]].
  - exact (string_lt_asym _ _ H E).
  - rewrite E1 in H. exact (String_as_OT.lt_not_eq _ _ H eq_refl).
  - rewrite H1 in E. exact (String_as_OT.lt_not_eq _ _ E eq_refl).
  - exact (string_lt_asym _ _ H2 E2).
Qed.

(** [z < x] and [not y < x] give [z < y]. *)
Lemma key_ltb_le_trans z x y :
  Network.key_ltb z x = true -> Network.key_ltb y x = false -> Network.key_ltb z y = true.
Proof.
  intros Hzx Hyx. apply key_ltb_lt. apply key_ltb_lt in Hzx.
  assert (Hn : ~ (String_as_OT.lt (fst y) (fst x)
                  \/ (fst y = fst x /\ String_as_OT.lt (snd y) (snd x)))).
  { intros H. apply key_ltb_lt in H. congruence. }
  destruct (string_lt_total (fst y) (fst x)) as [H|[H|H]].
  - elim Hn. now left.
  - destruct Hzx as [Hzx|[Hzx1 Hzx2]].
    + left. now rewrite H.
    + right. split; [congruence|].
      destruct (string_lt_total (snd y) (snd x)) as [G|[G|G]].
      * elim Hn. now right.
      * now rewrite G.
      * exact (String_as_OT.lt_trans _ _ _ Hzx2 G).
  - destruct Hzx as [Hzx|[Hzx1 Hzx2]].
    + left. exact (String_as_OT.lt_trans _ _ _ Hzx H).
    + left. now rewrite Hzx1.
Qed.

Lemma insert_ascending_sorted {A : Type} (x : (string * string) * A) l :
  StronglySorted (fun a b => Network.key_ltb (fst b) (fst a) = false) l ->
  StronglySorted (fun a b => Network.key_ltb (fst b) (fst a) = false)
    (Network.insert_ascending x l).
Proof.
  induction l as [|y l IH]; simpl; intros Hs.
  - constructor; constructor.
  - destruct (Network.key_ltb (fst y) (fst x)) eqn:E.
    + inversion Hs as [|? ? Hs' Hall]; subst. constructor; [now apply IH|].
      rewrite Forall_forall in *. intros z Hz.
      apply (Permutation_in _ (Permutation_sym (insert_ascending_perm x l))) in Hz.
      destruct Hz as [<-|Hz]; [now apply key_ltb_asym | now apply Hall].
    + constructor; [assumption|]. constructor; [assumption|].
      inversion Hs as [|? ? _ Hall]; subst.
      rewrite Forall_forall in *. intros z Hz.
      destruct (Network.key_ltb (fst z) (fst x)) eqn:Ez; [|reflexivity].
      pose proof (Hall z Hz) as Hzy. rewrite (key_ltb_le_trans _ _ _ Ez E) in Hzy.
      discriminate Hzy.
Qed.

Lemma sort_ascending_sorted {A : Type} (items : list ((string * string) * A)) :
  StronglySorted (fun a b => Network.key_ltb (fst b) (fst a) = false)
    (Network.sort_ascending items).
Proof.
  unfold Network.sort_ascending. induction items as [|x items IH]; simpl; [constructor|].
  now apply insert_ascending_sorted.
Qed.

Lemma sorted_firstn {A : Type} (R : A -> A -> Prop) l n :
  StronglySorted R l -> StronglySorted R (firstn n l).
Proof.
  intros Hs. revert n. induction Hs as [|a l Hs IH Hall]; intros n.
  - destruct n; constructor.
  - destruct n as [|n]; simpl; [constructor|]. constructor; [apply IH|].
    rewrite Forall_forall in *. intros x Hx. apply Hall. now apply firstn_In in Hx.
Qed.

End SortFacts.

Module ProcessExtras.

Import SnapshotEngine Processes SortFacts.

Section WithRounding.

Variable rounded_mb : Z -> Q.

(** X29.  [ProcessCollector.collect] returns the processes that have
    a command line, those of the most memory first, cut after the
    first 100: as many as there are such processes, or 100, and a
    process it leaves out uses no more memory than any process it
    returns.  When the iteration over the processes raises, it returns
    one item, the mapping with the key [error] and the message. *)
Theorem collect_returns_the_largest_processes :
  (forall e,
      collect rounded_mb (Raises e)
      = PList [PDict [("error", PStr ("ProcessCollector failed: " ++ e))]])
  /\ forall processes,
       exists kept dropped,
         collect rounded_mb (Returns processes) = PList (map snd kept)
         /\ List.length kept = Nat.min 100 (List.length (filter has_cmdline processes))
         /\ Permutation (kept ++ dropped) (process_entries rounded_mb processes)
         /\ StronglySorted (fun x y => (fst y <= fst x)%Q) kept
         /\ (forall x y, In x kept -> In y dropped -> (fst y <= fst x)%Q)
         /\ (List.length (filter has_cmdline processes) <= 100 -> dropped = []).
Proof.
  split; [reflexivity|]. intros processes.
  exists (firstn 100 (sort_descending (process_entries rounded_mb processes))),
         (skipn 100 (sort_descending (process_entries rounded_mb processes))).
  assert (Hlen : List.length (sort_descending (process_entries rounded_mb processes))
                 = List.length (filter has_cmdline processes)).
  { rewrite <- (Permutation_length (sort_descending_perm _)).
    unfold process_entries. now rewrite length_map. }
  split; [reflexivity|]. split; [|split; [|split; [|split]]].
  - rewrite length_firstn. exact (f_equal (Nat.min 100) Hlen).
  - rewrite firstn_skipn. symmetry. apply sort_descending_perm.
  - apply sorted_firstn. apply sort_descending_sorted.
  - intros x y Hx Hy.
    exact (sorted_firstn_skipn _ _ 100 x y (sort_descending_sorted _) Hx Hy).
  - intros H. apply skipn_all2. unfold keyed in *. now rewrite Hlen.
Qed.

End WithRounding.

End ProcessExtras.

Module NetworkExtras.

Import SnapshotEngine Network SortFacts PyFacts.

(** X30.  [NetworkCollector.collect] returns the connections in the
    order of their local address and status, cut after the first 200:
    as many as there are connections, or 200, and a connection it
    leaves out does not come before one it returns.  Each is a mapping
    with the keys [local], [remote], [status] and [pid], whose status
    is never the empty text and whose pid is [None] or an integer other
    than 0.  When reading the connections raises, it returns one item,
    the mapping with the key [error] and the message. *)
Theorem collect_returns_well_formed_connections :
  (forall e,
      collect (Raises e) = PList [PDict [("error", PStr ("NetworkCollector failed: " ++ e))]])
  /\ forall connections,
       exists kept dropped,
         collect (Returns connections) = PList (map snd kept)
         /\ List.length kept = Nat.min 200 (List.length connections)
         /\ Permutation (kept ++ dropped) (map connection_entry connections)
         /\ StronglySorted (fun x y => key_ltb (fst y) (fst x) = false) kept
         /\ (forall x y, In x kept -> In y dropped -> key_ltb (fst y) (fst x) = false)
         /\ forall item, In item (map snd kept) ->
              exists local remote status pid,
                item = PDict [("local", PStr local); ("remote", PStr remote);
                              ("status", PStr status); ("pid", pid)]
                /\ status <> EmptyString
                /\ (pid = PNone \/ exists p, pid = PInt p /\ p <> 0%Z).
Proof.
  split; [reflexivity|]. intros connections.
  exists (firstn 200 (sort_ascending (map connection_entry connections))),
         (skipn 200 (sort_ascending (map connection_entry connections))).
  split; [reflexivity|]. split; [|split; [|split; [|split]]].
  - rewrite length_firstn. apply (f_equal (Nat.min 200)).
    rewrite <- (Permutation_length (sort_ascending_perm _)). apply length_map.
  - rewrite firstn_skipn. symmetry. apply sort_ascending_perm.
  - apply sorted_firstn. apply sort_ascending_sorted.
  - intros x y Hx Hy.
    exact (sorted_firstn_skipn _ _ 200 x y (sort_ascending_sorted _) Hx Hy).
  - intros item Hitem. apply in_map_iff in Hitem as (e & <- & He).
    apply firstn_In in He.
    apply (Permutation_in _ (Permutation_sym (sort_ascending_perm _))) in He.
    apply in_map_iff in He as (conn & <- & _).
    unfold connection_entry. cbn [snd]. do 4 eexists. split; [reflexivity|]. split.
    + destruct (status conn); discriminate.
    + destruct (pid conn) as [p|]; [|now left].
      destruct (Z.eqb_spec p 0); [now left | right; now exists p].
Qed.

End NetworkExtras.
